(** * mqtt-tail: the live-tail stream controller of [src/subscriber.js]

    A shallow embedding of [connect] and of the event handlers it registers
    on the MQTT client, followed by the properties of the controller:
    the filter pipeline, the count limit, the connection notices, the
    shutdown path, the setup errors and the separation of the two output
    channels.

    The controller is event driven.  The closure variables of [connect]
    ([messageCount], [reconnectCount], [everConnected], [offlineShown]) and
    the part of the outside world the handlers touch (the two output
    streams, the calls made on the client, the callbacks handed to it and
    the exit status of the process) form one record, [RunState]; every
    handler is a function on it and a run is a fold over the delivered
    events.  [process.exit] stops the process: an exited state handles no
    further event.  The callbacks given to [client.subscribe] and
    [client.end] run when the client answers, which is an event of its
    own, so other events can be delivered in between.

    The formatter of [src/formatter.js], the configuration loader of
    [src/config.js], the merge of the command line in [src/index.js] and
    the writer of [.env] in [src/setup.js] follow the controller, each
    with its own properties after those of the controller. *)

From Stdlib Require Import Ascii.
From stdpp Require Import base strings list gmap pretty.

Set Default Proof Using "Type".
Open Scope string_scope.
Open Scope list_scope.
Open Scope nat_scope.

(** ** JavaScript values *)

(** Numbers as the controller meets them: integers, [NaN] and [Infinity]. *)
Inductive Number :=
| NaN
| Int (z : Z)
| Infinity.

(** An option value that is either a number or a string (a port, a QoS
    level or a count may come from the command line or from a JSON file). *)
Inductive JsVal :=
| VNum (n : Number)
| VStr (s : string).

Definition Buffer := list Byte.byte.

Definition str_empty (s : string) : bool :=
  match s with EmptyString => true | String _ _ => false end.

(** Truthiness of [undefined | string]. *)
Definition truthy_str (o : option string) : bool :=
  match o with
  | Some s => negb (str_empty s)
  | None => false
  end.

Definition truthy_num (n : Number) : bool :=
  match n with
  | NaN => false
  | Int z => negb (z =? 0)%Z
  | Infinity => true
  end.

(** Truthiness of [undefined | number | string]. *)
Definition truthy_val (o : option JsVal) : bool :=
  match o with
  | Some (VNum n) => truthy_num n
  | Some (VStr s) => negb (str_empty s)
  | None => false
  end.

Definition is_space (a : ascii) : bool :=
  let n := nat_of_ascii a in
  ((n =? 32) || (n =? 9) || (n =? 10) || (n =? 11) || (n =? 12) || (n =? 13))%nat.

Definition digit_of (a : ascii) : option Z :=
  let n := nat_of_ascii a in
  if ((48 <=? n) && (n <=? 57))%nat then Some (Z.of_nat (n - 48)) else None.

Fixpoint skip_spaces (s : string) : string :=
  match s with
  | String a r => if is_space a then skip_spaces r else s
  | EmptyString => s
  end.

(** The longest prefix of decimal digits, as a number; [None] when the
    string does not start with a digit. *)
Fixpoint leading_digits (s : string) (acc : option Z) : option Z :=
  match s with
  | String a r =>
      match digit_of a with
      | Some d => leading_digits r (Some (10 * default 0%Z acc + d)%Z)
      | None => acc
      end
  | EmptyString => acc
  end.

(** [parseInt(s, 10)] on a string. *)
Definition parseInt_str (s : string) : Number :=
  let s := skip_spaces s in
  let '(neg, body) :=
    match s with
    | String a r =>
        if (nat_of_ascii a =? 45)%nat then (true, r)
        else if (nat_of_ascii a =? 43)%nat then (false, r)
        else (false, s)
    | EmptyString => (false, s)
    end in
  match leading_digits body None with
  | Some z => Int (if neg then - z else z)%Z
  | None => NaN
  end.

(** [a >= b] for a counter [a] and a limit [b]: every comparison with
    [NaN] is false and no counter reaches [Infinity]. *)
Definition count_ge (a : nat) (b : Number) : bool :=
  match b with
  | NaN => false
  | Int z => (z <=? Z.of_nat a)%Z
  | Infinity => false
  end.

(** ** Options, packets and events *)

(** The merged options record handed to [connect] by [src/index.js]. *)
Record Opts := mkOpts {
  host : option string;
  port : option JsVal;
  username : option string;
  password : option string;
  tls : bool;
  ca : option string;
  cert : option string;
  key : option string;
  clientId : option string;
  qos : option JsVal;
  count : option JsVal;
  filter : option string;
  payloadFilter : option string;
  retained : option bool;
  verbose : bool;
  raw : bool;
  compact : bool;
  outputJson : bool;
  timestamp : option bool;
  timestampFormat : option string
}.

(** What [buildConnectOptions] hands to the MQTT client. *)
Record ConnectOpts := mkConnectOpts {
  co_clientId : string;
  co_clean : bool;
  co_reconnectPeriod : N;
  co_connectTimeout : N;
  co_username : option string;
  co_password : option string;
  co_rejectUnauthorized : bool;
  co_ca : option Buffer;
  co_cert : option Buffer;
  co_key : option Buffer
}.

Record Packet := mkPacket {
  pk_qos : nat;
  pk_retain : bool
}.

Record Connack := mkConnack {
  sessionPresent : bool;
  returnCode : option nat
}.

Record MqttError := mkMqttError {
  err_message : string;
  err_code : option string;
  err_errno : option Z;
  err_stack : option string
}.

Record Granted := mkGranted {
  g_topic : string;
  g_qos : nat
}.

Inductive Signal := SIGINT | SIGTERM.

(** What the outside world delivers to the controller: the client's events,
    the invocation of a callback handed to [client.subscribe] or
    [client.end], and the two signals [shutdown] is registered for. *)
Inductive Event :=
| EvConnect (connack : Connack)
| EvSubscribed (r : string + list Granted)
| EvReconnect
| EvError (err : MqttError)
| EvClose
| EvDisconnect (reasonCode : option nat)
| EvOffline
| EvMessage (topic : string) (payload : Buffer) (packet : Packet)
| EvEnded
| EvSignal (sg : Signal).

(** ** The interfaces the controller consumes

    The regular-expression engine, the file system, the formatter of
    [src/formatter.js] (which reads the clock) and the random client-id
    suffix are taken as they are.  So is the part of the conversion of a
    number to a string that depends on the floating-point value: for an
    integer of absolute value 10^21 or more, [exponent_form] gives the
    digits [d1 d2 ... dk] (as the number they spell) and the exponent [n]
    of its string [d1.d2...dk e+n]. *)
Class Platform := {
  RegExp : Type;
  RegExp_new : string -> string + RegExp;
  RegExp_test : RegExp -> string -> bool;
  readFile : string -> string + Buffer;
  Buffer_toString : Buffer -> string;
  formatMessage : string -> Buffer -> Packet -> Opts -> string;
  random_suffix : string;
  exponent_form : Z -> N * N
}.

(** ** Output *)

Inductive Channel := Stdout | Stderr.

(** The [dbg] call sites of [src/subscriber.js], with the values each one
    interpolates. *)
Inductive DebugMsg :=
| DBuildingUrl
| DBuildingConnectOptions
| DBrokerUrl (url : string)
| DClientId (id : string)
| DAuth (user : option string)
| DTls (on : bool)
| DTopics (topics : list string) (qos : Number)
| DFilters (topic payload : option string)
| DResolvedOpts (o : Opts)
| DCallingConnect
| DConnectEvent (connack : Connack)
| DSubscribing (topics : gmap string Number)
| DSubscribedTopic (topic : string) (qos : nat)
| DReconnectEvent (attempt : nat)
| DCloseEvent
| DDisconnectPacket (reasonCode : option nat)
| DOfflineEvent
| DMessage (topic : string) (size : nat) (qos : nat) (retain : bool)
| DDroppedRetained
| DDroppedTopic
| DDroppedPayload
| DPrinted (total : nat)
| DLimitReached (limit : Number)
| DShutdownSignal.

(** The lines written about the connection: one constructor per
    [process.stderr.write] call site of the controller, and one for the
    report Node itself writes when the promise of [connect] rejects and
    nothing catches it (the error with its stack). *)
Inductive StatusLine :=
| Diagnostic (d : DebugMsg)
| Connecting (url : string) (asUser : option string)
| Connected (url : string)
| Reconnected (url : string)
| SubscribeError (message : string)
| Watching (topic : string) (qos : nat)
| BlankLine
| ErrorLine (message : string) (code : option string) (errno : option Z)
| ErrorStack (stack : string)
| LostConnection (url : string)
| CannotReach (url : string)
| Disconnecting
| InvalidRegex (label pattern message : string)
| UncaughtError (message : string).

(** What is written: the formatter's rendering of a message, or a line
    about the connection. *)
Inductive Text :=
| Formatted (line : string)
| Status (l : StatusLine).

Definition Written : Type := Channel * Text.

(** A call made on the MQTT client. *)
Inductive ClientCall :=
| MqttConnect (url : string) (o : ConnectOpts)
| ClientSubscribe (topics : gmap string Number)
| ClientEnd (force : bool).

(** ** Run state *)

Record RunState := mkRunState {
  messageCount : nat;
  reconnectCount : nat;
  everConnected : bool;
  offlineShown : bool;
  output : list Written;
  calls : list ClientCall;
  subscribePending : nat;
  endPending : list nat;
  exited : option nat
}.

Definition has_exited (s : RunState) : bool :=
  match exited s with Some _ => true | None => false end.

Definition initial : RunState :=
  mkRunState 0 0 false false [] [] 0 [] None.

Definition write (c : Channel) (t : Text) (s : RunState) : RunState :=
  mkRunState (messageCount s) (reconnectCount s) (everConnected s)
    (offlineShown s) (output s ++ [(c, t)]) (calls s) (subscribePending s)
    (endPending s) (exited s).

Definition stderr_write (l : StatusLine) : RunState -> RunState :=
  write Stderr (Status l).

Definition stdout_write (line : string) : RunState -> RunState :=
  write Stdout (Formatted line).

Definition set_messageCount (n : nat) (s : RunState) : RunState :=
  mkRunState n (reconnectCount s) (everConnected s) (offlineShown s)
    (output s) (calls s) (subscribePending s) (endPending s) (exited s).

Definition set_reconnectCount (n : nat) (s : RunState) : RunState :=
  mkRunState (messageCount s) n (everConnected s) (offlineShown s)
    (output s) (calls s) (subscribePending s) (endPending s) (exited s).

Definition set_everConnected (b : bool) (s : RunState) : RunState :=
  mkRunState (messageCount s) (reconnectCount s) b (offlineShown s)
    (output s) (calls s) (subscribePending s) (endPending s) (exited s).

Definition set_offlineShown (b : bool) (s : RunState) : RunState :=
  mkRunState (messageCount s) (reconnectCount s) (everConnected s) b
    (output s) (calls s) (subscribePending s) (endPending s) (exited s).

(** [process.exit(code)]: the process is gone; nothing after it runs. *)
Definition process_exit (code : nat) (s : RunState) : RunState :=
  mkRunState (messageCount s) (reconnectCount s) (everConnected s)
    (offlineShown s) (output s) (calls s) (subscribePending s)
    (endPending s) (Some code).

Definition call (c : ClientCall) (s : RunState) : RunState :=
  mkRunState (messageCount s) (reconnectCount s) (everConnected s)
    (offlineShown s) (output s) (calls s ++ [c]) (subscribePending s)
    (endPending s) (exited s).

(** [client.subscribe(topics, cb)]: the call is made and [cb] waits. *)
Definition client_subscribe (t : gmap string Number) (s : RunState) : RunState :=
  let s := call (ClientSubscribe t) s in
  mkRunState (messageCount s) (reconnectCount s) (everConnected s)
    (offlineShown s) (output s) (calls s) (S (subscribePending s))
    (endPending s) (exited s).

(** [client.end(force, {}, () => process.exit(code))]: the call is made and
    the callback waits for the client to confirm the disconnect. *)
Definition client_end (force : bool) (code : nat) (s : RunState) : RunState :=
  let s := call (ClientEnd force) s in
  mkRunState (messageCount s) (reconnectCount s) (everConnected s)
    (offlineShown s) (output s) (calls s) (subscribePending s)
    (endPending s ++ [code]) (exited s).

(** [dbg(opts, msg)] *)
Definition dbg (opts : Opts) (d : DebugMsg) (s : RunState) : RunState :=
  if verbose opts then stderr_write (Diagnostic d) s else s.

(** Failure of an awaited call, as the rejected promise's message. *)
#[local] Instance sum_bind {E : Type} : MBind (sum E) :=
  λ A B f x, match x with inl e => inl e | inr a => f a end.

Definition newline : string := String "010"%char EmptyString.

Section Controller.
Context `{Platform}.

(** ** Numbers as strings *)

(** The digits [d1 d2 ... dk] written [d1.d2...dk], or [d1] alone. *)
Definition mantissa (digits : string) : string :=
  match digits with
  | String d EmptyString => digits
  | String d rest => String d ("." +:+ rest)
  | EmptyString => digits
  end.

(** [String(n)], which is also what a template literal writes for [n]:
    an integer below 10^21 in absolute value is written with its own
    digits, a larger one in exponent form. *)
Definition Number_toString (n : Number) : string :=
  match n with
  | NaN => "NaN"
  | Int z =>
      if (Z.abs z <? 10 ^ 21)%Z then pretty z
      else
        let '(digits, n) := exponent_form z in
        (if (z <? 0)%Z then "-" else EmptyString)
        +:+ mantissa (pretty digits) +:+ "e+" +:+ pretty n
  | Infinity => "Infinity"
  end.

(** Template-literal conversion of a number or a string. *)
Definition show_val (v : JsVal) : string :=
  match v with
  | VNum n => Number_toString n
  | VStr s => s
  end.

(** [parseInt(v, 10)]: the argument is converted to a string first, then
    the string is read.  So [parseInt(1e21, 10)] is 1. *)
Definition parseInt (v : JsVal) : Number := parseInt_str (show_val v).

(** ** Builders *)

(** [if (opts.X) connectOpts.X = await readFile(opts.X)] *)
Definition read_material (path : option string) : string + option Buffer :=
  match path with
  | Some p =>
      if str_empty p then inr None
      else b ← readFile p; inr (Some b)
  | None => inr None
  end.

Definition keep_truthy (o : option string) : option string :=
  if truthy_str o then o else None.

Definition wants_tls (opts : Opts) : bool :=
  tls opts || truthy_str (ca opts) || truthy_str (cert opts)
  || truthy_str (key opts).

Definition buildConnectOptions (opts : Opts) : string + ConnectOpts :=
  let id :=
    match keep_truthy (clientId opts) with
    | Some i => i
    | None => "mqtt-tail-" +:+ random_suffix
    end in
  let user := keep_truthy (username opts) in
  let pass := keep_truthy (password opts) in
  if wants_tls opts then
    c ← read_material (ca opts);
    k ← read_material (cert opts);
    p ← read_material (key opts);
    inr (mkConnectOpts id true 2000 10000 user pass true c k p)
  else
    inr (mkConnectOpts id true 2000 10000 user pass false None None None).

Definition buildBrokerUrl (opts : Opts) : string :=
  let protocol := if wants_tls opts then "mqtts" else "mqtt" in
  let h := default "localhost" (keep_truthy (host opts)) in
  let p :=
    if truthy_val (port opts) then from_option show_val EmptyString (port opts)
    else if wants_tls opts then "8883" else "1883" in
  protocol +:+ "://" +:+ h +:+ ":" +:+ p.

(** [compileFilter(pattern, label)]: no pattern, no filter; a pattern the
    engine rejects is reported and ends the process. *)
Definition compileFilter (pattern : option string) (label : string)
    (s : RunState) : RunState * option RegExp :=
  match keep_truthy pattern with
  | None => (s, None)
  | Some p =>
      match RegExp_new p with
      | inr re => (s, Some re)
      | inl msg =>
          (process_exit 1 (stderr_write (InvalidRegex label p msg) s), None)
      end
  end.

(** ** The constants of one run, fixed by [connect] before the first event

    [subQos] is the constant [qos] of [connect] and [payloadFilterRe] its
    constant [payloadFilter]; the options record has fields of those
    names. *)
Record Ctx := mkCtx {
  topics : list string;
  opts : Opts;
  brokerUrl : string;
  connectOpts : ConnectOpts;
  subQos : Number;
  topicFilter : option RegExp;
  payloadFilterRe : option RegExp;
  maxMessages : Number
}.

(** How a call of the async function [connect] ends: it returns with the
    handlers registered, its promise rejects, or the process exits inside
    it. *)
Inductive Completion :=
| Returned (ctx : Ctx)
| Threw (message : string)
| Exited.

(** [opts.count ? parseInt(opts.count, 10) : Infinity] *)
Definition limit_of (o : Opts) : Number :=
  if truthy_val (count o) then from_option parseInt Infinity (count o)
  else Infinity.

Definition connect (topics : list string) (opts : Opts)
    : RunState * Completion :=
  let s := dbg opts DBuildingUrl initial in
  let url := buildBrokerUrl opts in
  let s := dbg opts DBuildingConnectOptions s in
  match buildConnectOptions opts with
  | inl e => (s, Threw e)
  | inr co =>
      let q := parseInt (default (VNum (Int 0)) (qos opts)) in
      let '(s, tf) := compileFilter (filter opts) "--filter" s in
      if has_exited s then (s, Exited) else
      let '(s, pf) := compileFilter (payloadFilter opts) "--payload-filter" s in
      if has_exited s then (s, Exited) else
      let limit := limit_of opts in
      let s := dbg opts (DBrokerUrl url) s in
      let s := dbg opts (DClientId (co_clientId co)) s in
      let s := dbg opts (DAuth (co_username co)) s in
      let s := dbg opts (DTls (co_rejectUnauthorized co)) s in
      let s := dbg opts (DTopics topics q) s in
      let s := dbg opts (DFilters (filter opts) (payloadFilter opts)) s in
      let s := dbg opts (DResolvedOpts opts) s in
      let s := dbg opts DCallingConnect s in
      let s := stderr_write (Connecting url (co_username co)) s in
      let s := call (MqttConnect url co) s in
      (s, Returned (mkCtx topics opts url co q tf pf limit))
  end.

(** ** Handlers *)

Variable ctx : Ctx.

(** [Object.fromEntries(topics.map((t) => [t, { qos }]))] *)
Definition subscribeTopics : gmap string Number :=
  foldl (λ m t, <[t := subQos ctx]> m) ∅ (topics ctx).

(** [client.on('connect', ...)] *)
Definition on_connect (connack : Connack) (s : RunState) : RunState :=
  let s := dbg (opts ctx) (DConnectEvent connack) s in
  let s :=
    if everConnected s
    then stderr_write (Reconnected (brokerUrl ctx)) s
    else stderr_write (Connected (brokerUrl ctx)) s in
  let s := set_everConnected true s in
  let s := set_offlineShown false s in
  let s := dbg (opts ctx) (DSubscribing subscribeTopics) s in
  client_subscribe subscribeTopics s.

Definition watching (s : RunState) (g : Granted) : RunState :=
  let s := dbg (opts ctx) (DSubscribedTopic (g_topic g) (g_qos g)) s in
  stderr_write (Watching (g_topic g) (g_qos g)) s.

(** The callback handed to [client.subscribe]. *)
Definition on_subscribed (r : string + list Granted) (s : RunState)
    : RunState :=
  match r with
  | inl message =>
      let s := stderr_write (SubscribeError message) s in
      process_exit 1 s
  | inr granted =>
      let s := foldl watching s granted in
      stderr_write BlankLine s
  end.

(** [client.on('reconnect', ...)] *)
Definition on_reconnect (s : RunState) : RunState :=
  let s := set_reconnectCount (S (reconnectCount s)) s in
  dbg (opts ctx) (DReconnectEvent (reconnectCount s)) s.

Definition truthy_errno (o : option Z) : option Z :=
  match o with
  | Some z => if (z =? 0)%Z then None else Some z
  | None => None
  end.

(** [client.on('error', ...)] *)
Definition on_error (err : MqttError) (s : RunState) : RunState :=
  let s :=
    stderr_write
      (ErrorLine (err_message err) (keep_truthy (err_code err))
         (truthy_errno (err_errno err))) s in
  match keep_truthy (err_stack err) with
  | Some st => if verbose (opts ctx) then stderr_write (ErrorStack st) s else s
  | None => s
  end.

(** [client.on('close', ...)] *)
Definition on_close (s : RunState) : RunState :=
  dbg (opts ctx) DCloseEvent s.

(** [client.on('disconnect', ...)] *)
Definition on_disconnect (reasonCode : option nat) (s : RunState) : RunState :=
  dbg (opts ctx) (DDisconnectPacket reasonCode) s.

(** [client.on('offline', ...)] *)
Definition on_offline (s : RunState) : RunState :=
  let s := dbg (opts ctx) DOfflineEvent s in
  if negb (offlineShown s) then
    let s := set_offlineShown true s in
    if everConnected s
    then stderr_write (LostConnection (brokerUrl ctx)) s
    else stderr_write (CannotReach (brokerUrl ctx)) s
  else s.

(** [opts.retained === false && packet.retain] *)
Definition drops_retained (packet : Packet) : bool :=
  match retained (opts ctx) with
  | Some false => pk_retain packet
  | _ => false
  end.

(** [re && !re.test(text)] *)
Definition rejects (re : option RegExp) (text : string) : bool :=
  match re with
  | Some r => negb (RegExp_test r text)
  | None => false
  end.

(** [client.on('message', ...)] *)
Definition on_message (topic : string) (payload : Buffer) (packet : Packet)
    (s : RunState) : RunState :=
  let s :=
    dbg (opts ctx)
      (DMessage topic (length payload) (pk_qos packet) (pk_retain packet)) s in
  if drops_retained packet then dbg (opts ctx) DDroppedRetained s
  else if rejects (topicFilter ctx) topic then dbg (opts ctx) DDroppedTopic s
  else if rejects (payloadFilterRe ctx) (Buffer_toString payload)
  then dbg (opts ctx) DDroppedPayload s
  else
    let out := formatMessage topic payload packet (opts ctx) in
    let s := stdout_write (out +:+ newline) s in
    let s := set_messageCount (S (messageCount s)) s in
    let s := dbg (opts ctx) (DPrinted (messageCount s)) s in
    if count_ge (messageCount s) (maxMessages ctx) then
      let s := dbg (opts ctx) (DLimitReached (maxMessages ctx)) s in
      client_end false 0 s
    else s.

(** [shutdown], registered for SIGINT and SIGTERM. *)
Definition shutdown (s : RunState) : RunState :=
  let s := dbg (opts ctx) DShutdownSignal s in
  let s := stderr_write Disconnecting s in
  client_end false 0 s.

(** The client confirms a disconnect: the oldest callback handed to
    [client.end] runs, and it ends the process. *)
Definition on_ended (s : RunState) : RunState :=
  match endPending s with
  | [] => s
  | code :: rest =>
      process_exit code
        (mkRunState (messageCount s) (reconnectCount s) (everConnected s)
           (offlineShown s) (output s) (calls s) (subscribePending s) rest
           (exited s))
  end.

(** The client answers a subscribe request: the callback waiting for it
    runs. *)
Definition on_subscribe_answer (r : string + list Granted) (s : RunState)
    : RunState :=
  match subscribePending s with
  | O => s
  | S n =>
      on_subscribed r
        (mkRunState (messageCount s) (reconnectCount s) (everConnected s)
           (offlineShown s) (output s) (calls s) n (endPending s) (exited s))
  end.

(** One event reaches the controller; a process that has exited handles
    nothing. *)
Definition dispatch (s : RunState) (e : Event) : RunState :=
  match exited s with
  | Some _ => s
  | None =>
      match e with
      | EvConnect connack => on_connect connack s
      | EvSubscribed r => on_subscribe_answer r s
      | EvReconnect => on_reconnect s
      | EvError err => on_error err s
      | EvClose => on_close s
      | EvDisconnect rc => on_disconnect rc s
      | EvOffline => on_offline s
      | EvMessage topic payload packet => on_message topic payload packet s
      | EvEnded => on_ended s
      | EvSignal _ => shutdown s
      end
  end.

(** Events are handled one at a time, in delivery order. *)
Fixpoint run (s : RunState) (evs : list Event) : RunState :=
  match evs with
  | [] => s
  | e :: rest => run (dispatch s e) rest
  end.

End Controller.

(** ** Observations *)

(** What went to one channel, oldest first. *)
Definition on_channel (c : Channel) (w : list Written) : list Text :=
  omap (λ x, match c, fst x with
             | Stdout, Stdout | Stderr, Stderr => Some (snd x)
             | _, _ => None
             end) w.

(** A write is on the right channel: the rendering of a message on
    [process.stdout], a line about the connection on [process.stderr]. *)
Definition channel_ok (x : Written) : Prop :=
  match snd x with
  | Formatted _ => fst x = Stdout
  | Status _ => fst x = Stderr
  end.

(** The offline notices among the writes, whatever their channel. *)
Definition offline_notices (w : list Written) : list StatusLine :=
  omap (λ x, match snd x with
             | Status (LostConnection u) => Some (LostConnection u)
             | Status (CannotReach u) => Some (CannotReach u)
             | _ => None
             end) w.

(** The connection statuses among the writes. *)
Definition connect_statuses (w : list Written) : list StatusLine :=
  omap (λ x, match snd x with
             | Status (Connected u) => Some (Connected u)
             | Status (Reconnected u) => Some (Reconnected u)
             | _ => None
             end) w.

(** Every line on [process.stderr] that is not a [dbg] line. *)
Definition status_lines (w : list Written) : list StatusLine :=
  omap (λ x, match x with
             | (Stderr, Status (Diagnostic _)) => None
             | (Stderr, Status l) => Some l
             | _ => None
             end) w.

(** The [dbg] lines on [process.stderr] that name a delivered message or
    count a printed one. *)
Definition message_diagnostics (w : list Written) : list DebugMsg :=
  omap (λ x, match x with
             | (Stderr, Status (Diagnostic (DMessage t n q r))) =>
                 Some (DMessage t n q r)
             | (Stderr, Status (Diagnostic (DPrinted k))) => Some (DPrinted k)
             | _ => None
             end) w.

(** The disconnects requested so far, graceful or forced. *)
Definition end_calls (cs : list ClientCall) : nat :=
  length (omap (λ c, match c with ClientEnd f => Some f | _ => None end) cs).

(** The graceful ones among them: [client.end(false, ...)]. *)
Definition is_graceful_end (c : ClientCall) : bool :=
  match c with ClientEnd false => true | _ => false end.

Definition graceful_ends (cs : list ClientCall) : nat :=
  length (List.filter is_graceful_end cs).

Definition is_connect (e : Event) : bool :=
  match e with EvConnect _ => true | _ => false end.

Definition is_offline (e : Event) : bool :=
  match e with EvOffline => true | _ => false end.

(** Events that neither ask for a shutdown nor confirm one nor report a
    failed subscription. *)
Definition is_traffic (e : Event) : bool :=
  match e with
  | EvSignal _ | EvEnded | EvSubscribed (inl _) => false
  | _ => true
  end.

Section Pipeline.
Context `{Platform}.
Variable ctx : Ctx.

(** A delivered message that no filter drops. *)
Definition eligible (e : Event) : bool :=
  match e with
  | EvMessage topic payload packet =>
      negb (drops_retained ctx packet)
      && negb (rejects (topicFilter ctx) topic)
      && negb (rejects (payloadFilterRe ctx) (Buffer_toString payload))
  | _ => false
  end.

(** The line [on_message] prints for a message. *)
Definition rendering (e : Event) : list Text :=
  match e with
  | EvMessage topic payload packet =>
      [Formatted (formatMessage topic payload packet (opts ctx) +:+ newline)]
  | _ => []
  end.

(** What a sequence of events puts on [process.stdout] when every eligible
    message in it is forwarded. *)
Definition forwarded (evs : list Event) : list Text :=
  flat_map (λ e, if eligible e then rendering e else []) evs.

(** *** The pipeline in the words of the specification: three stages in a
    fixed order, the first failing one drops the message. *)
Inductive Stage := RetainedDrop | TopicFilter | PayloadFilter.

Definition stage_order : list Stage :=
  [RetainedDrop; TopicFilter; PayloadFilter].

Definition allow_retained : bool :=
  match retained (opts ctx) with
  | Some false => false
  | _ => true
  end.

Definition stage_fails (topic : string) (payload : Buffer) (packet : Packet)
    (st : Stage) : bool :=
  match st with
  | RetainedDrop => negb allow_retained && pk_retain packet
  | TopicFilter =>
      match topicFilter ctx with
      | Some re => negb (RegExp_test re topic)
      | None => false
      end
  | PayloadFilter =>
      match payloadFilterRe ctx with
      | Some re => negb (RegExp_test re (Buffer_toString payload))
      | None => false
      end
  end.

(** The first stage, in order, that fails; [None] when all pass. *)
Definition first_failure (topic : string) (payload : Buffer)
    (packet : Packet) : option Stage :=
  List.find (stage_fails topic payload packet) stage_order.

(** The notice of a lost connection and the status of a handshake, by
    whether the controller has connected before. *)
Definition offline_notice (ever : bool) : StatusLine :=
  if ever then LostConnection (brokerUrl ctx) else CannotReach (brokerUrl ctx).

Definition connect_status (ever : bool) : StatusLine :=
  if ever then Reconnected (brokerUrl ctx) else Connected (brokerUrl ctx).

Definition drop_note (st : Stage) : DebugMsg :=
  match st with
  | RetainedDrop => DDroppedRetained
  | TopicFilter => DDroppedTopic
  | PayloadFilter => DDroppedPayload
  end.

(** What the message handler tells [dbg] about a message when [seen]
    messages were forwarded before it: its topic, the size of its payload,
    its QoS and its retain flag; then the stage that dropped it, or else
    the count after printing it and, once the limit is reached, the limit.
    The payload decides which stage fails and is in none of the lines. *)
Definition message_notes (seen : nat) (topic : string) (payload : Buffer)
    (packet : Packet) : list DebugMsg :=
  DMessage topic (length payload) (pk_qos packet) (pk_retain packet)
  :: match first_failure topic payload packet with
     | Some st => [drop_note st]
     | None =>
         DPrinted (S seen)
         :: (if count_ge (S seen) (maxMessages ctx)
             then [DLimitReached (maxMessages ctx)] else [])
     end.

End Pipeline.

(** A whole session: [await connect(topics, merged)] at the top level of
    [src/index.js], then the delivered events.  Nothing catches a
    rejection of [connect]: Node writes the error with its stack on
    [process.stderr] and the process ends with exit status 1. *)
Definition session `{Platform} (topics : list string) (opts : Opts)
    (evs : list Event) : RunState :=
  match connect topics opts with
  | (s, Returned ctx) => run ctx s evs
  | (s, Threw e) => process_exit 1 (stderr_write (UncaughtError e) s)
  | (s, Exited) => s
  end.

(** ** Auxiliary definitions for the proofs *)

(** What the subscribe callback writes for the granted subscriptions. *)
Definition watch_lines (o : Opts) (gs : list Granted) : list Written :=
  flat_map (λ g,
    (if verbose o
     then [(Stderr, Status (Diagnostic (DSubscribedTopic (g_topic g) (g_qos g))))]
     else [])
    ++ [(Stderr, Status (Watching (g_topic g) (g_qos g)))]) gs.

(** A state with more output and nothing else changed. *)
Definition append_output (ws : list Written) (s : RunState) : RunState :=
  mkRunState (messageCount s) (reconnectCount s) (everConnected s)
    (offlineShown s) (output s ++ ws) (calls s) (subscribePending s)
    (endPending s) (exited s).

(** The disconnects the count limit asks for while [k] messages are
    forwarded, the counter starting at [mc]. *)
Fixpoint requests (limit : Number) (mc k : nat) : nat :=
  match k with
  | O => 0
  | S k' => (if count_ge (S mc) limit then 1 else 0) + requests limit (S mc) k'
  end.

(** The statuses [k] handshakes produce, starting before the first one. *)
Definition connect_trail (url : string) (k : nat) : list StatusLine :=
  match k with
  | O => []
  | S k' => Connected url :: replicate k' (Reconnected url)
  end.

Definition connects (evs : list Event) : nat :=
  length (List.filter is_connect evs).

(** ** A concrete platform

    Patterns are matched as literal substrings, which is what the engine
    does for a pattern without metacharacters; a lone opening parenthesis
    is the unterminated group the engine rejects.  One file exists. *)
Fixpoint occurs (pat s : string) : bool :=
  String.prefix pat s
  || match s with
     | String _ r => occurs pat r
     | EmptyString => false
     end.

Definition bench_RegExp_new (p : string) : string + string :=
  if String.eqb p "(" then inl "Invalid regular expression: /(/: Unterminated group"
  else inr p.

Definition bench_readFile (path : string) : string + Buffer :=
  if String.eqb path "/etc/mqtt/ca.pem"
  then inr (String.list_byte_of_string "-----BEGIN CERTIFICATE-----")
  else inl ("ENOENT: no such file or directory, open '" +:+ path +:+ "'").

Definition bench_formatMessage (topic : string) (payload : Buffer)
    (packet : Packet) (o : Opts) : string :=
  topic +:+ " " +:+ String.string_of_list_byte payload.

(** The digits of an integer without its trailing zeros, and the number
    of its digits less one: the exponent form of an integer that is a
    power of ten times a number of a few digits, such as 10^21. *)
Definition bench_exponent_form (z : Z) : N * N :=
  let a := Z.to_N (Z.abs z) in
  (Nat.iter (N.to_nat (N.log2 a))
     (λ m, if (m mod 10 =? 0)%N then (m / 10)%N else m) a,
   N.of_nat (String.length (pretty a)) - 1)%N.

Definition bench : Platform :=
  {| RegExp := string;
     RegExp_new := bench_RegExp_new;
     RegExp_test := λ re s, occurs re s;
     readFile := bench_readFile;
     Buffer_toString := String.string_of_list_byte;
     formatMessage := bench_formatMessage;
     random_suffix := "3fa9c1";
     exponent_form := bench_exponent_form |}.

(** No option given on the command line, no configuration file. *)
Definition no_opts : Opts :=
  mkOpts None None None None false None None None None None None None None
    None false false false false None None.

Definition with_count (n : Z) (o : Opts) : Opts :=
  mkOpts (host o) (port o) (username o) (password o) (tls o) (ca o) (cert o)
    (key o) (clientId o) (qos o) (Some (VNum (Int n))) (filter o)
    (payloadFilter o) (retained o) (verbose o) (raw o) (compact o)
    (outputJson o) (timestamp o) (timestampFormat o).

Definition with_filter (p : string) (o : Opts) : Opts :=
  mkOpts (host o) (port o) (username o) (password o) (tls o) (ca o) (cert o)
    (key o) (clientId o) (qos o) (count o) (Some p)
    (payloadFilter o) (retained o) (verbose o) (raw o) (compact o)
    (outputJson o) (timestamp o) (timestampFormat o).

Definition with_ca (p : string) (o : Opts) : Opts :=
  mkOpts (host o) (port o) (username o) (password o) (tls o) (Some p) (cert o)
    (key o) (clientId o) (qos o) (count o) (filter o)
    (payloadFilter o) (retained o) (verbose o) (raw o) (compact o)
    (outputJson o) (timestamp o) (timestampFormat o).

Definition with_port (n : Z) (o : Opts) : Opts :=
  mkOpts (host o) (Some (VNum (Int n))) (username o) (password o) (tls o)
    (ca o) (cert o) (key o) (clientId o) (qos o) (count o) (filter o)
    (payloadFilter o) (retained o) (verbose o) (raw o) (compact o)
    (outputJson o) (timestamp o) (timestampFormat o).

Definition with_verbose (o : Opts) : Opts :=
  mkOpts (host o) (port o) (username o) (password o) (tls o) (ca o) (cert o)
    (key o) (clientId o) (qos o) (count o) (filter o)
    (payloadFilter o) (retained o) true (raw o) (compact o)
    (outputJson o) (timestamp o) (timestampFormat o).

Definition with_retained (b : bool) (o : Opts) : Opts :=
  mkOpts (host o) (port o) (username o) (password o) (tls o) (ca o) (cert o)
    (key o) (clientId o) (qos o) (count o) (filter o)
    (payloadFilter o) (Some b) (verbose o) (raw o) (compact o)
    (outputJson o) (timestamp o) (timestampFormat o).

Definition msg (topic payload : string) (retain : bool) : Event :=
  EvMessage topic (String.list_byte_of_string payload) (mkPacket 0 retain).

Definition ack : Event := EvConnect (mkConnack false (Some 0)).

Definition granted_all : Event := EvSubscribed (inr [mkGranted "#" 0]).

Definition bench_url : string := "mqtt://localhost:1883".

Definition bench_connectOpts : ConnectOpts :=
  mkConnectOpts "mqtt-tail-3fa9c1" true 2000 10000 None None false None None
    None.

(** What [connect] returns on the concrete platform for options without
    credentials, TLS material or verbosity. *)
Definition bench_ctx (o : Opts) (tf pf : option string) : @Ctx bench :=
  @mkCtx bench ["#"] o bench_url bench_connectOpts (Int 0) tf pf
    (limit_of (H:=bench) o).

Definition bench_start : RunState :=
  mkRunState 0 0 false false [(Stderr, Status (Connecting bench_url None))]
    [MqttConnect bench_url bench_connectOpts] 0 [] None.

Definition bench_filtered : @Ctx bench :=
  bench_ctx (with_filter "temp" (with_retained false no_opts)) (Some "temp")
    None.

Definition bench_subscribing : RunState :=
  run (bench_ctx no_opts None None) bench_start [ack].

Definition bench_connected : RunState :=
  run (bench_ctx no_opts None None) bench_start [ack; granted_all].

(** A signal has asked for the disconnect and the client has not confirmed
    it yet. *)
Definition bench_stopping : RunState :=
  run (bench_ctx no_opts None None) bench_connected [EvSignal SIGTERM].

(** ** Further observations of a run *)

Definition is_reconnect (e : Event) : bool :=
  match e with EvReconnect => true | _ => false end.

Definition reconnects (evs : list Event) : nat :=
  length (List.filter is_reconnect evs).

(** The events of a connection in trouble: lost, retried, failed, closed. *)
Definition is_trouble (e : Event) : bool :=
  match e with
  | EvOffline | EvReconnect | EvError _ | EvClose | EvDisconnect _ => true
  | _ => false
  end.

(** The subscribe requests among the calls made on the client. *)
Definition subscribe_requests (cs : list ClientCall)
    : list (gmap string Number) :=
  omap (λ c, match c with ClientSubscribe t => Some t | _ => None end) cs.

(** A line that shows internals: a [dbg] line, the stack of a client
    error, or the report Node writes for an uncaught error, which holds
    the stack. *)
Definition shows_trace (x : Written) : bool :=
  match snd x with
  | Status (Diagnostic _) | Status (ErrorStack _)
  | Status (UncaughtError _) => true
  | _ => false
  end.

(** The three lines that come with exit code 1. *)
Definition fatal_line (l : StatusLine) : bool :=
  match l with
  | SubscribeError _ | InvalidRegex _ _ _ | UncaughtError _ => true
  | _ => false
  end.

(** What the exit status of a state says about its past. *)
Definition exit_accounted (s : RunState) : Prop :=
  match exited s with
  | None => True
  | Some 0 => 1 ≤ graceful_ends (calls s)
  | Some 1 =>
      ∃ l, last (status_lines (output s)) = Some l ∧ fatal_line l = true
  | Some _ => False
  end.

(** The callbacks waiting for a disconnect all exit with 0, each was
    handed over by a graceful call, and the exit status is accounted
    for. *)
Definition exits_sound (s : RunState) : Prop :=
  Forall (λ c, c = 0) (endPending s)
  ∧ length (endPending s) ≤ graceful_ends (calls s)
  ∧ exit_accounted s.

(** The pattern compiles to the filter: no pattern gives no filter, a
    pattern gives what the engine makes of it. *)
Definition compiles `{Platform} (pattern : option string)
    (re : option RegExp) : Prop :=
  match keep_truthy pattern with
  | None => re = None
  | Some p => ∃ r, RegExp_new p = inr r ∧ re = Some r
  end.
(** * JavaScript strings

    The functions of [src/formatter.js], [src/config.js] and
    [src/setup.js] that look at characters work on a string as JavaScript
    has it, the list of its UTF-16 code units. *)

(** A JavaScript string: the list of its UTF-16 code units. *)
Definition Units := list N.

(** The code units of an ASCII literal. *)
Fixpoint units_of (s : string) : Units :=
  match s with
  | EmptyString => []
  | String a r => N_of_ascii a :: units_of r
  end.

(** [/\s/.test(ch)]; also the code units [trim] removes. *)
Definition is_ws (c : N) : bool :=
  ((9 <=? c) && (c <=? 13) || (c =? 32) || (c =? 160) || (c =? 5760)
   || (8192 <=? c) && (c <=? 8202) || (c =? 8232) || (c =? 8233)
   || (c =? 8239) || (c =? 8287) || (c =? 12288) || (c =? 65279))%N.

(** [\d] *)
Definition is_digit (c : N) : bool := ((48 <=? c) && (c <=? 57))%N.

(** [while (k < src.length && /\s/.test(src[k])) k++] *)
Fixpoint skip_ws (s : Units) : Units :=
  match s with
  | c :: r => if is_ws c then skip_ws r else s
  | [] => []
  end.

(** [str.split('\n')], for a string with or without styles: [nl] says
    which elements are the newline. *)
Fixpoint split_lines {A : Type} (nl : A → bool) (s : list A)
    : list (list A) :=
  match s with
  | [] => [[]]
  | c :: r =>
      if nl c then [] :: split_lines nl r
      else match split_lines nl r with
           | l :: ls => (c :: l) :: ls
           | [] => [[c]]
           end
  end.

(** [lines.join(sep)] *)
Fixpoint join_lines {A : Type} (sep : list A) (ls : list (list A))
    : list A :=
  match ls with
  | [] => []
  | [l] => l
  | l :: ls' => l ++ sep ++ join_lines sep ls'
  end.

(** The newline. *)
Definition is_nl (c : N) : bool := (c =? 10)%N.

(** * The formatter: [src/formatter.js]

    Text painted by chalk is a list of code units, each with the styles
    applied to it, innermost first; what a terminal shows without colour
    is [plain]. *)

Module Formatter.

Inductive Style :=
| cyan | green | yellow | magenta | blue | red
| cyanBright | greenBright | yellowBright | magentaBright
| bold | dim | gray.

Definition Styled := list (list Style * N).

(** A string without styles. *)
Definition text (u : Units) : Styled := map (λ c, ([], c)) u.

(** [chalk.<style>(s)] *)
Definition chalk (st : Style) (s : Styled) : Styled :=
  map (λ x, (fst x ++ [st], snd x)) s.

Definition plain (s : Styled) : Units := map snd s.

(** ** Topic colours *)

Definition TOPIC_COLORS : list Style :=
  [cyan; green; yellow; magenta; blue; red; cyanBright; greenBright;
   yellowBright; magentaBright].

(** [x | 0]: the 32-bit two's complement reading of an integer. *)
Definition to_int32 (z : Z) : Z :=
  ((z + 2147483648) mod 4294967296 - 2147483648)%Z.

(** [Math.imul(a, b)] *)
Definition imul (a b : Z) : Z := to_int32 (a * b).

(** The loop of [hashTopic]: [hash = (Math.imul(31, hash) + code) | 0]. *)
Definition hash_step (hash : Z) (code : N) : Z :=
  to_int32 (imul 31 hash + Z.of_N code).

Definition hash_loop (topic : Units) : Z := foldl hash_step 0%Z topic.

(** [Math.abs(hash) % TOPIC_COLORS.length] *)
Definition hashTopic (topic : Units) : Z :=
  Z.rem (Z.abs (hash_loop topic)) (Z.of_nat (length TOPIC_COLORS)).

(** [TOPIC_COLORS[hashTopic(topic)]]; [None] is [undefined]. *)
Definition topicColor (topic : Units) : option Style :=
  if (hashTopic topic <? 0)%Z then None
  else TOPIC_COLORS !! Z.to_nat (hashTopic topic).

(** [topicColor(topic)(topic)]; calling [undefined] throws, which is
    [None]. *)
Definition colorTopic (topic : Units) : option Styled :=
  match topicColor topic with
  | Some st => Some (chalk st (text topic))
  | None => None
  end.

(** ** JSON syntax highlighting *)

(** The inner loop of the string branch, from the code unit after the
    opening quote: a backslash takes the next unit with it, a quote ends
    the token; returns the rest of the token and what follows it.  The
    index may pass the end of the string by one after a final backslash;
    [slice] and the loop test then see the end of the string. *)
Fixpoint scan_string (s : Units) : Units * Units :=
  match s with
  | [] => ([], [])
  | c :: r =>
      if (c =? 92)%N then
        match r with
        | [] => ([c], [])
        | d :: r' => let '(t, rest) := scan_string r' in (c :: d :: t, rest)
        end
      else if (c =? 34)%N then ([c], r)
      else let '(t, rest) := scan_string r in (c :: t, rest)
  end.

(** The longest run of digits at the front, and the rest. *)
Fixpoint digits (s : Units) : Units * Units :=
  match s with
  | c :: r => if is_digit c then let '(d, rest) := digits r in (c :: d, rest)
              else ([], s)
  | [] => ([], [])
  end.

(** An optional group of the number pattern: [lead] is what the group
    starts with, digits must follow. *)
Definition fraction (s : Units) : Units * Units :=
  match s with
  | c :: r =>
      if (c =? 46)%N then
        match digits r with
        | ([], _) => ([], s)
        | (d, rest) => (c :: d, rest)
        end
      else ([], s)
  | [] => ([], [])
  end.

Definition exponent (s : Units) : Units * Units :=
  match s with
  | c :: r =>
      if ((c =? 101) || (c =? 69))%N then
        let '(sign, r') :=
          match r with
          | g :: r'' =>
              if ((g =? 43) || (g =? 45))%N
              then match digits r'' with
                   | ([], _) => ([], r)
                   | _ => ([g], r'')
                   end
              else ([], r)
          | [] => ([], r)
          end in
        match digits r' with
        | ([], _) => ([], s)
        | (d, rest) => (c :: sign ++ d, rest)
        end
      else ([], s)
  | [] => ([], [])
  end.

(** [src.slice(i).match(/^-?\d+(\.\d+)?([eE][+-]?\d+)?/)]: the match and
    what follows it, or [None]. *)
Definition match_number (s : Units) : option (Units * Units) :=
  let '(sign, r) :=
    match s with
    | c :: r => if (c =? 45)%N then ([c], r) else ([], s)
    | [] => ([], s)
    end in
  match digits r with
  | ([], _) => None
  | (d, r1) =>
      let '(f, r2) := fraction r1 in
      let '(e, r3) := exponent r2 in
      Some (sign ++ d ++ f ++ e, r3)
  end.

(** [src.startsWith(word, i)]: the rest after the word, when it is there. *)
Fixpoint strip_prefix (word s : Units) : option Units :=
  match word, s with
  | [], _ => Some s
  | w :: word', c :: s' => if (w =? c)%N then strip_prefix word' s' else None
  | _ :: _, [] => None
  end.

(** ['{}[],:'.includes(ch)] *)
Definition is_punct (c : N) : bool :=
  ((c =? 123) || (c =? 125) || (c =? 91) || (c =? 93) || (c =? 44)
   || (c =? 58))%N.

(** One round of the loop of [colorizeJson] on the string from index [i]
    on: what is pushed and the string from the new index on. *)
Definition colorize_step (ch : N) (r : Units) : Styled * Units :=
  if is_ws ch then (text [ch], r)
  else if (ch =? 34)%N then
    let '(body, rest) := scan_string r in
    let token := ch :: body in
    let colour :=
      match skip_ws rest with
      | k :: _ => if (k =? 58)%N then blue else green
      | [] => green
      end in
    (chalk colour (text token), rest)
  else
    match match_number (ch :: r) with
    | Some (num, rest) => (chalk yellow (text num), rest)
    | None =>
        match strip_prefix (units_of "true") (ch :: r) with
        | Some rest => (chalk cyan (text (units_of "true")), rest)
        | None =>
        match strip_prefix (units_of "false") (ch :: r) with
        | Some rest => (chalk cyan (text (units_of "false")), rest)
        | None =>
        match strip_prefix (units_of "null") (ch :: r) with
        | Some rest => (chalk gray (text (units_of "null")), rest)
        | None =>
            if is_punct ch then (chalk dim (text [ch]), r)
            else (text [ch], r)
        end end end
    end.

(** The loop, at most [rounds] times. *)
Fixpoint colorize (rounds : nat) (s : Units) : Styled :=
  match rounds, s with
  | S n, ch :: r =>
      let '(pushed, rest) := colorize_step ch r in
      pushed ++ colorize n rest
  | _, _ => []
  end.

(** [colorizeJson(src)].  Every round moves the index forward, so the
    loop makes at most [src.length] rounds. *)
Definition colorizeJson (src : Units) : Styled := colorize (length src) src.

(** ** Left border *)

Definition styled_nl (x : list Style * N) : bool := is_nl (snd x).

(** [addLeftBorder(str, border)] *)
Definition addLeftBorder (str border : Styled) : Styled :=
  join_lines (text [10%N])
    (map (λ line, border ++ line) (split_lines styled_nl str)).

(** The body of a string literal: code units other than the quote and the
    backslash, and backslash escapes. *)
Inductive string_body : Units → Prop :=
| body_end : string_body []
| body_unit (c : N) (b : Units) :
    c ≠ 34%N → c ≠ 92%N → string_body b → string_body (c :: b)
| body_escape (d : N) (b : Units) :
    string_body b → string_body (92%N :: d :: b).

(** [src[k] === ':'] after the whitespace. *)
Definition colon_follows (s : Units) : bool :=
  match skip_ws s with
  | k :: _ => (k =? 58)%N
  | [] => false
  end.

(** The hash without wrap-around: the polynomial in 31 of the code
    units. *)
Definition polynomial (topic : Units) : Z :=
  foldl (λ h c, 31 * h + Z.of_N c)%Z 0%Z topic.

(** ** Payload and message formatting

    What the formatter takes from the runtime: the JSON parser and
    printer, the decoding of a payload, the clock behind
    [formatTimestamp], and the printing of the JSON-lines record. *)
Class Runtime := {
  Json : Type;
  JSON_parse : Units -> option Json;
  JSON_stringify : Json -> Units;
  JSON_stringify_indented : Json -> Units;
  Buffer_units : Buffer -> Units;
  formatTimestamp : string -> Units;
  JSON_record : Units -> Json + Units -> Packet -> nat -> Units
}.

Section Formatting.
Context `{Runtime}.

(** [formatPayload(payload, opts)] *)
Definition formatPayload (payload : Buffer) (o : Opts) : Styled :=
  let str := Buffer_units payload in
  if raw o then text str
  else
    match JSON_parse str with
    | Some obj =>
        if compact o || outputJson o then text (JSON_stringify obj)
        else colorizeJson (JSON_stringify_indented obj)
    | None => text str
    end.

(** [buildMeta(packet, payload)] *)
Definition buildMeta (packet : Packet) (payload : Buffer) : Styled :=
  let parts :=
    [text (units_of ("qos:" +:+ pretty (pk_qos packet)))]
    ++ (if pk_retain packet then [chalk yellow (text (units_of "retained"))]
        else [])
    ++ [text (units_of (pretty (length payload) +:+ "B"))] in
  text (units_of "(") ++ join_lines (text (units_of " ")) parts
  ++ text (units_of ")").

(** [.filter(Boolean)] on an array of strings and [null]s, [null] being
    the empty list here: the empty string goes as well. *)
Definition filter_Boolean (parts : list Styled) : list Styled :=
  List.filter (λ p, match p with [] => false | _ => true end) parts.

(** The header line of [formatMessage]. *)
Definition header (colour : Style) (topic : Units) (payload : Buffer)
    (packet : Packet) (o : Opts) : Styled :=
  join_lines (text (units_of "  "))
    (filter_Boolean
       [chalk colour (text [9654%N]) ++ text (units_of " ")
        ++ chalk bold (chalk colour (text topic));
        match timestamp o with
        | Some false => []
        | _ =>
            chalk dim
              (text (formatTimestamp
                       (default "local" (keep_truthy (timestampFormat o)))))
        end;
        if verbose o then chalk dim (buildMeta packet payload) else []]).

(** [formatMessage(topic, payload, packet, opts)]; [None] is the
    TypeError of calling an undefined colour. *)
Definition formatMessage (topic : Units) (payload : Buffer)
    (packet : Packet) (o : Opts) : option Styled :=
  if outputJson o then
    let str := Buffer_units payload in
    let parsed :=
      match JSON_parse str with
      | Some obj => inl obj
      | None => inr str
      end in
    Some (text (JSON_record topic parsed packet (length payload)))
  else
    match topicColor topic with
    | None => None
    | Some colour =>
        let h := header colour topic payload packet o in
        if compact o then
          Some (h ++ text (units_of "  ") ++ formatPayload payload o)
        else
          let body :=
            addLeftBorder (formatPayload payload o)
              (chalk colour (text [9474%N]) ++ text (units_of " ")) in
          Some (h ++ text [10%N] ++ body)
    end.

End Formatting.

End Formatter.

(** * Configuration: [src/config.js] *)

Module Config.

(** [s.trim()]: white space and line terminators go from both ends. *)
Definition trimEnd (s : Units) : Units := reverse (skip_ws (reverse s)).

Definition trim (s : Units) : Units := trimEnd (skip_ws s).

(** A trimmed string: nothing to take from either end. *)
Definition trimmed (m : Units) : Prop := skip_ws m = m ∧ trimEnd m = m.

(** [line.indexOf(sep)] with the two slices around it: what is before the
    first [sep] and what is after it; [None] is the index -1. *)
Fixpoint cut_at (sep : N) (s : Units) : option (Units * Units) :=
  match s with
  | [] => None
  | c :: r =>
      if (c =? sep)%N then Some ([], r)
      else match cut_at sep r with
           | Some (a, b) => Some (c :: a, b)
           | None => None
           end
  end.

(** A value that starts with a single or a double quote and ends with
    [val[0]] loses both: [val.slice(1, -1)]. *)
Definition unquote (val : Units) : Units :=
  match val with
  | q :: r =>
      if ((q =? 34) || (q =? 39))%N && bool_decide (last val = Some q)
      then take (length r - 1) r
      else val
  | [] => val
  end.

Definition proto_key : Units := units_of "__proto__".

(** [vars[key] = val] for a primitive [val] on a plain object: the key
    [__proto__] reaches the setter of [Object.prototype], which ignores a
    value that is no object, and no property is made. *)
Definition assign {V : Type} (vars : gmap Units V) (key : Units) (val : V)
    : gmap Units V :=
  if decide (key = proto_key) then vars else <[key := val]> vars.

(** One round of the loop of [readDotEnv]. *)
Definition dotenv_line (vars : gmap Units Units) (raw : Units)
    : gmap Units Units :=
  let line := trim raw in
  match line with
  | [] => vars
  | c :: _ =>
      if (c =? 35)%N then vars
      else
        match cut_at 61 line with
        | None => vars
        | Some (k, v) => assign vars (trim k) (unquote (trim v))
        end
  end.

(** [readDotEnv()], given what reading [.env] gave: [None] is a failed
    read, which the [catch] turns into the empty object. *)
Definition readDotEnv (file : option Units) : gmap Units Units :=
  match file with
  | Some content => foldl dotenv_line ∅ (split_lines is_nl content)
  | None => ∅
  end.


(** What one line assigns, if anything. *)
Definition dotenv_entry (raw : Units) : option (Units * Units) :=
  match trim raw with
  | [] => None
  | c :: _ =>
      if (c =? 35)%N then None
      else
        match cut_at 61 (trim raw) with
        | None => None
        | Some (k, v) =>
            if decide (trim k = proto_key) then None
            else Some (trim k, unquote (trim v))
        end
  end.

(** A key that a line can carry as it is. *)
Definition clean_key (k : Units) : Prop :=
  k ≠ proto_key ∧ Forall (λ c, c ≠ 61%N ∧ c ≠ 10%N) k ∧ trim k = k
  ∧ head k ≠ Some 35%N.

Definition is_quote (q : N) : bool := ((q =? 34) || (q =? 39))%N.

(** A value that starts with a quote and ends with the same one. *)
Definition wrapped (v : Units) : bool :=
  match v with
  | q :: _ => is_quote q && bool_decide (last v = Some q)
  | [] => false
  end.

(** A value that a line can carry without quotes. *)
Definition plain_value (v : Units) : Prop :=
  Forall (λ c, c ≠ 10%N) v ∧ trim v = v ∧ wrapped v = false.

(** Content after which a new line starts: nothing, or something that
    ends with a newline. *)
Definition ends_line (pre : Units) : bool :=
  match last pre with
  | Some c => is_nl c
  | None => true
  end.

(** The same content with Windows line ends. *)
Definition crlf (content : Units) : Units :=
  flat_map (λ c, if is_nl c then [13%N; 10%N] else [c]) content.

(** ** Environment and configuration file *)

(** What [config.js] takes from Node: JavaScript values with the
    primitives the loader makes, the properties a spread copies from a
    value, the JSON parser, [parseInt(s, 10)], the file system and the
    environment of the process. *)
Class Host := {
  Value : Type;
  of_string : Units → Value;
  of_number : Number → Value;
  of_boolean : bool → Value;
  own_properties : Value → gmap Units Value;
  JSON_parse : Units → option Value;
  parseInt10 : Units → Number;
  readFile_utf8 : Units → option Units;
  process_env : gmap Units Units;
  home_file : Units → Units;
  cwd_file : Units → Units
}.

Definition ENV_MAP : list (Units * Units) :=
  [(units_of "MQTT_HOST", units_of "host");
   (units_of "MQTT_PORT", units_of "port");
   (units_of "MQTT_USERNAME", units_of "username");
   (units_of "MQTT_PASSWORD", units_of "password");
   (units_of "MQTT_TLS", units_of "tls");
   (units_of "MQTT_CLIENT_ID", units_of "clientId");
   (units_of "MQTT_CA", units_of "ca");
   (units_of "MQTT_CERT", units_of "cert");
   (units_of "MQTT_KEY", units_of "key")].

Section Loading.
Context `{Host}.

(** [process.env[envKey] ?? dotEnv[envKey]] *)
Definition env_value (dotEnv : gmap Units Units) (envKey : Units)
    : option Units :=
  match process_env !! envKey with
  | Some v => Some v
  | None => dotEnv !! envKey
  end.

(** The loop of [readEnvVars]: every value is still a string. *)
Definition env_strings (dotEnv : gmap Units Units) : gmap Units Units :=
  foldl (λ config '(envKey, configKey),
           match env_value dotEnv envKey with
           | Some val => <[configKey := val]> config
           | None => config
           end) ∅ ENV_MAP.

(** [config.tls === 'true' || config.tls === '1'] *)
Definition tls_flag (s : Units) : bool :=
  bool_decide (s = units_of "true") || bool_decide (s = units_of "1").

(** [readEnvVars(dotEnv)] *)
Definition readEnvVars (dotEnv : gmap Units Units) : gmap Units Value :=
  let strings := env_strings dotEnv in
  let config := of_string <$> strings in
  let config :=
    match strings !! units_of "port" with
    | Some p => <[units_of "port" := of_number (parseInt10 p)]> config
    | None => config
    end in
  match strings !! units_of "tls" with
  | Some t => <[units_of "tls" := of_boolean (tls_flag t)]> config
  | None => config
  end.

(** The value [readEnvVars] stores under a configuration key for the
    string the environment gives. *)
Definition typed (configKey : Units) (s : Units) : Value :=
  if decide (configKey = units_of "port") then of_number (parseInt10 s)
  else if decide (configKey = units_of "tls") then of_boolean (tls_flag s)
  else of_string s.

(** The candidates of [readConfigFile]: an empty path is falsy. *)
Definition candidates (filePath : option Units) : list Units :=
  match filePath with
  | Some (c :: p) => [c :: p]
  | _ =>
      [home_file (units_of ".mqtttailrc.json");
       home_file (units_of ".mqtttailrc");
       cwd_file (units_of ".mqtttailrc.json")]
  end.

(** The loop of [readConfigFile]: the first candidate that can be read
    and parsed; [None] is the empty object of the last line. *)
Fixpoint first_parsed (cs : list Units) : option Value :=
  match cs with
  | [] => None
  | candidate :: cs' =>
      match readFile_utf8 candidate ≫= JSON_parse with
      | Some v => Some v
      | None => first_parsed cs'
      end
  end.

Definition readConfigFile (filePath : option Units) : option Value :=
  first_parsed (candidates filePath).

(** [loadConfig(configFile)]: [{ ...fileConfig, ...envConfig }] *)
Definition loadConfig (configFile : option Units) : gmap Units Value :=
  let fileConfig := from_option own_properties ∅ (readConfigFile configFile) in
  let dotEnv := readDotEnv (readFile_utf8 (cwd_file (units_of ".env"))) in
  let envConfig := readEnvVars dotEnv in
  envConfig ∪ fileConfig.

End Loading.

End Config.

(** * Command line: [src/index.js] *)

Module Cli.
Import Config.

(** An option value as commander stores it. *)
Inductive Flag :=
| FString (s : Units)
| FNumber (n : Number)
| FBoolean (b : bool).

(** An entry of [program.opts()] with [getOptionValueSource] of its key;
    [None] is [undefined]. *)
Record Entry := mkEntry {
  e_key : Units;
  e_value : option Flag;
  e_source : option string
}.

Section Merging.
Context `{Host}.

Definition of_flag (f : Flag) : Value :=
  match f with
  | FString s => of_string s
  | FNumber n => of_number n
  | FBoolean b => of_boolean b
  end.

(** One round of the loop over [Object.entries(cliOpts)]. *)
Definition overlay (merged : gmap Units Value) (e : Entry)
    : gmap Units Value :=
  match e_value e with
  | Some value =>
      if bool_decide (e_source e = Some "default") then merged
      else assign merged (e_key e) (of_flag value)
  | None => merged
  end.

(** [merged], which goes to [connect]. *)
Definition merge (configFile : option Units) (cliOpts : list Entry)
    : gmap Units Value :=
  foldl overlay (loadConfig configFile) cliOpts.

(** What the command line says for a key, when it says it itself. *)
Definition explicit (cliOpts : list Entry) (key : Units) : option Flag :=
  e ← list_find (λ e, e_key e = key) cliOpts;
  if bool_decide (e_source e.2 = Some "default") then None
  else e_value e.2.

End Merging.

End Cli.

(** * Setup wizard: [src/setup.js] *)

Module Setup.
Import Config.





Section Saving.
Context `{Platform}.




End Saving.

End Setup.

(** * A concrete runtime for the formatter and the loader *)

Module Desk.
Import Formatter Config Cli Setup.

(** A string literal of JSON: the text between two double quotes. *)
Definition quoted (s : string) : Units := 34%N :: units_of s ++ [34%N].

(** The one JSON text this runtime parses: an object with a user name. *)
Definition user_json : Units :=
  [123%N] ++ quoted "username" ++ [58%N] ++ quoted "alice" ++ [125%N].

Definition desk_JSON_parse (u : Units) : option Units :=
  if decide (trim u = user_json) then Some user_json else None.

Definition desk : Runtime :=
  {| Json := Units;
     Formatter.JSON_parse := desk_JSON_parse;
     JSON_stringify := λ j, j;
     JSON_stringify_indented := λ j,
       [123%N; 10%N; 32%N; 32%N] ++ quoted "username" ++ [58%N; 32%N]
       ++ quoted "alice" ++ [10%N; 125%N];
     Buffer_units := map Byte.to_N;
     formatTimestamp := λ _, units_of "12:00:00.000";
     JSON_record := λ topic parsed packet size, topic |}.

Inductive LabValue :=
| LString (s : Units)
| LNumber (n : Number)
| LBoolean (b : bool)
| LObject (props : list (Units * Units)).

Definition lab_parseInt (s : Units) : Number :=
  match digits s with
  | ([], _) => NaN
  | (d, _) => Int (foldl (λ a c, 10 * a + Z.of_N (c - 48))%Z 0%Z d)
  end.

Definition lab_own_properties (v : LabValue) : gmap Units LabValue :=
  match v with
  | LObject props => list_to_map (map (λ p, (p.1, LString p.2)) props)
  | _ => ∅
  end.

Definition lab_readFile (path : Units) : option Units :=
  if decide (path = units_of "/work/.env")
  then Some (units_of "MQTT_HOST=from-dotenv" ++ [10%N]
             ++ units_of "MQTT_PORT=8883" ++ [10%N])
  else if decide (path = units_of "/home/u/.mqtttailrc.json")
  then Some user_json
  else None.

Definition lab : Host :=
  {| Value := LabValue;
     of_string := LString;
     of_number := LNumber;
     of_boolean := LBoolean;
     own_properties := lab_own_properties;
     Config.JSON_parse := λ u,
       if decide (u = user_json)
       then Some (LObject [(units_of "username", units_of "alice")])
       else None;
     parseInt10 := lab_parseInt;
     readFile_utf8 := lab_readFile;
     process_env := {[ units_of "MQTT_TLS" := units_of "1" ]};
     home_file := λ name, units_of "/home/u/" ++ name;
     cwd_file := λ name, units_of "/work/" ++ name |}.

(** A command line with a host given, the default port and no user. *)
Definition given : list Entry :=
  [mkEntry (units_of "host") (Some (FString (units_of "cli.example")))
     (Some "cli");
   mkEntry (units_of "port") (Some (FString (units_of "1883")))
     (Some "default");
   mkEntry (units_of "qos") (Some (FString (units_of "0"))) (Some "default");
   mkEntry (units_of "username") None None].


End Desk.

(** * Properties *)

Lemma dbg_verbose (o : Opts) :
  verbose o = true → dbg o = λ d s, stderr_write (Diagnostic d) s.
Proof. intros V. unfold dbg. by rewrite V. Qed.

Lemma dbg_quiet (o : Opts) : verbose o = false → dbg o = λ d s, s.
Proof. intros V. unfold dbg. by rewrite V. Qed.

(** The field updates of a state given by its fields, computed inside
    out. *)
Ltac eval_updates :=
  cbv beta iota zeta delta
    [write stderr_write stdout_write set_messageCount set_reconnectCount
     set_everConnected set_offlineShown process_exit call client_subscribe
     client_end append_output messageCount reconnectCount everConnected
     offlineShown output calls subscribePending endPending exited negb].

(** ** Numbers and their strings *)

Lemma digit_of_char (d : N) :
  (d < 10)%N → digit_of (pretty_N_char d) = Some (Z.of_N d).
Proof.
  intros L. destruct d as [|p]; [done|].
  do 4 (destruct p as [p|p|]; try done); lia.
Qed.

(** Reading the digits [pretty_N_go] writes for [x] shifts what was read
    before and adds [x]. *)
Lemma pretty_N_go_read (x : N) :
  (0 < x)%N →
  ∀ a, ∃ k : nat, ∀ s,
    leading_digits (pretty_N_go x s) a
    = leading_digits s (Some (default 0 a * 10 ^ Z.of_nat k + Z.of_N x)%Z).
Proof.
  induction (N.lt_wf_0 x) as [x _ IH]. intros Hx a.
  assert (Hd : (x `mod` 10 < 10)%N) by (apply N.mod_lt; lia).
  destruct (decide (x `div` 10 = 0)%N) as [Hq|Hq].
  - exists 1. intros s. rewrite pretty_N_go_step, Hq, pretty_N_go_0 by done.
    simpl. rewrite (digit_of_char _ Hd). do 2 f_equal.
    assert (x = x `mod` 10)%N as E.
    { rewrite (N.div_mod x 10) at 1 by lia. rewrite Hq. lia. }
    rewrite <- E. change (Z.of_nat 1) with 1%Z. rewrite Z.pow_1_r. lia.
  - destruct (IH (x `div` 10)%N) with (a := a) as [k Hk].
    + apply N.div_lt; lia.
    + by apply N.neq_0_lt_0.
    + exists (S k). intros s. rewrite pretty_N_go_step, Hk by done.
      simpl. rewrite (digit_of_char _ Hd). do 2 f_equal.
      rewrite Nat2Z.inj_succ, Z.pow_succ_r by lia.
      rewrite (N.div_mod x 10) at 3 by lia.
      rewrite N2Z.inj_add, N2Z.inj_mul. lia.
Qed.

Lemma pretty_N_go_first (x : N) (s : string) :
  (0 < x)%N →
  ∃ d r, (d < 10)%N ∧ pretty_N_go x s = String (pretty_N_char d) r.
Proof.
  revert s. induction (N.lt_wf_0 x) as [x _ IH]. intros s Hx.
  rewrite pretty_N_go_step by done.
  destruct (decide (x `div` 10 = 0)%N) as [Hq|Hq].
  - rewrite Hq, pretty_N_go_0. exists (x `mod` 10)%N, s.
    split; [apply N.mod_lt; lia|done].
  - apply IH; [apply N.div_lt; lia|by apply N.neq_0_lt_0].
Qed.

Lemma parseInt_str_positive (p : positive) (neg : bool) :
  parseInt_str ((if neg then "-" else EmptyString) +:+ pretty (Npos p))
  = Int (if neg then Z.neg p else Z.pos p).
Proof.
  assert (pretty (Npos p) = pretty_N_go (Npos p) EmptyString) as ->
    by done.
  destruct (pretty_N_go_first (Npos p) EmptyString) as (d & r & Hd & E);
    [lia|].
  destruct (pretty_N_go_read (Npos p)) with (a := @None Z) as [k Hk]; [lia|].
  specialize (Hk EmptyString). rewrite E in Hk. simpl in Hk.
  assert (is_space (pretty_N_char d) = false
          ∧ (nat_of_ascii (pretty_N_char d) =? 45) = false
          ∧ (nat_of_ascii (pretty_N_char d) =? 43) = false) as (S1 & S2 & S3).
  { destruct d as [|q]; [done|].
    do 4 (destruct q as [q|q|]; try done). }
  unfold parseInt_str. rewrite E. destruct neg; simpl.
  - by rewrite Hk.
  - rewrite S1, S2, S3. simpl. by rewrite Hk.
Qed.

(** Reading back the decimal string of an integer gives the integer. *)
Lemma parseInt_str_pretty (z : Z) : parseInt_str (pretty z) = Int z.
Proof.
  destruct z as [|p|p]; [done| |].
  - apply (parseInt_str_positive p false).
  - apply (parseInt_str_positive p true).
Qed.

Section Numbers.
Context `{Platform}.

Lemma Number_toString_small (z : Z) :
  (Z.abs z < 10 ^ 21)%Z → Number_toString (Int z) = pretty z.
Proof.
  intros L. unfold Number_toString.
  by destruct (Z.ltb_spec (Z.abs z) (10 ^ 21)); [|lia].
Qed.

(** [parseInt] of a number that is an integer below 10^21 in absolute
    value is the number itself. *)
Lemma parseInt_small (z : Z) :
  (Z.abs z < 10 ^ 21)%Z → parseInt (VNum (Int z)) = Int z.
Proof.
  intros L. unfold parseInt, show_val.
  by rewrite (Number_toString_small z L), parseInt_str_pretty.
Qed.

End Numbers.

(** From 10^21 on a number is written in exponent form, and [parseInt]
    reads the digits before the point of that string. *)
Example exponent_form_read :
  show_val (H:=bench) (VNum (Int (10 ^ 21))) = "1e+21"
  ∧ show_val (H:=bench) (VNum (Int (- 25 * 10 ^ 22))) = "-2.5e+23"
  ∧ show_val (H:=bench) (VNum (Int (10 ^ 21 - 1))) = "999999999999999999999"
  ∧ parseInt (H:=bench) (VNum (Int (10 ^ 21))) = Int 1
  ∧ parseInt (H:=bench) (VNum (Int (- 25 * 10 ^ 22))) = Int (-2)
  ∧ parseInt (H:=bench) (VNum Infinity) = NaN
  ∧ limit_of (H:=bench) (with_count (10 ^ 21) no_opts) = Int 1
  ∧ buildBrokerUrl (H:=bench) (with_port (10 ^ 21) no_opts)
    = "mqtt://localhost:1e+21".
Proof. by vm_compute. Qed.

Lemma on_channel_app (c : Channel) (a b : list Written) :
  on_channel c (a ++ b) = on_channel c a ++ on_channel c b.
Proof. apply omap_app. Qed.

Lemma offline_notices_app (a b : list Written) :
  offline_notices (a ++ b) = offline_notices a ++ offline_notices b.
Proof. apply omap_app. Qed.

Lemma connect_statuses_app (a b : list Written) :
  connect_statuses (a ++ b) = connect_statuses a ++ connect_statuses b.
Proof. apply omap_app. Qed.

Lemma status_lines_app (a b : list Written) :
  status_lines (a ++ b) = status_lines a ++ status_lines b.
Proof. apply omap_app. Qed.

Lemma end_calls_app (a b : list ClientCall) :
  end_calls (a ++ b) = end_calls a + end_calls b.
Proof. unfold end_calls. by rewrite omap_app, length_app. Qed.

Lemma graceful_ends_app (a b : list ClientCall) :
  graceful_ends (a ++ b) = graceful_ends a + graceful_ends b.
Proof. unfold graceful_ends. by rewrite List.filter_app, length_app. Qed.

Lemma watch_lines_stdout (o : Opts) (gs : list Granted) :
  on_channel Stdout (watch_lines o gs) = [].
Proof.
  induction gs as [|g gs IH]; [done|]. unfold watch_lines in *; simpl.
  rewrite !on_channel_app, IH. by destruct (verbose o).
Qed.

Lemma watch_lines_notices (o : Opts) (gs : list Granted) :
  offline_notices (watch_lines o gs) = [].
Proof.
  induction gs as [|g gs IH]; [done|]. unfold watch_lines in *; simpl.
  rewrite !offline_notices_app, IH. by destruct (verbose o).
Qed.

Lemma watch_lines_statuses (o : Opts) (gs : list Granted) :
  connect_statuses (watch_lines o gs) = [].
Proof.
  induction gs as [|g gs IH]; [done|]. unfold watch_lines in *; simpl.
  rewrite !connect_statuses_app, IH. by destruct (verbose o).
Qed.

Lemma watch_lines_channels (o : Opts) (gs : list Granted) :
  Forall channel_ok (watch_lines o gs).
Proof.
  induction gs as [|g gs IH]; [constructor|]. unfold watch_lines in *; simpl.
  rewrite !Forall_app. repeat split; [|by repeat constructor|done].
  destruct (verbose o); by repeat constructor.
Qed.

(** What the observations see of an appended output. *)
Ltac observe :=
  rewrite ?on_channel_app, ?offline_notices_app, ?connect_statuses_app,
    ?status_lines_app, ?end_calls_app, ?graceful_ends_app,
    ?watch_lines_stdout,
    ?watch_lines_notices, ?watch_lines_statuses;
  simpl; rewrite ?app_nil_r, ?Nat.add_0_r.

Section Basics.
Context `{Platform}.
Variable ctx : Ctx.

Lemma foldl_watching (gs : list Granted) (s : RunState) :
  foldl (watching ctx) s gs = append_output (watch_lines (opts ctx) gs) s.
Proof.
  revert s; induction gs as [|g gs IH]; intros s; simpl.
  - destruct s; unfold append_output; simpl. by rewrite app_nil_r.
  - rewrite IH. unfold watching, dbg, stderr_write, write, append_output.
    destruct s; simpl. destruct (verbose (opts ctx)); simpl;
      by rewrite <- !app_assoc.
Qed.

Lemma dispatch_exited (s : RunState) (e : Event) (c : nat) :
  exited s = Some c → dispatch ctx s e = s.
Proof. intros E. unfold dispatch. by rewrite E. Qed.

Lemma dispatch_running (s : RunState) (e : Event) :
  exited s = None →
  dispatch ctx s e
  = match e with
    | EvConnect connack => on_connect ctx connack s
    | EvSubscribed r => on_subscribe_answer ctx r s
    | EvReconnect => on_reconnect ctx s
    | EvError err => on_error ctx err s
    | EvClose => on_close ctx s
    | EvDisconnect rc => on_disconnect ctx rc s
    | EvOffline => on_offline ctx s
    | EvMessage topic payload packet => on_message ctx topic payload packet s
    | EvEnded => on_ended s
    | EvSignal _ => shutdown ctx s
    end.
Proof. intros E. unfold dispatch. by rewrite E. Qed.

Lemma run_exited (evs : list Event) (s : RunState) (c : nat) :
  exited s = Some c → run ctx s evs = s.
Proof.
  revert s; induction evs as [|e evs IH]; intros s E; simpl; [done|].
  rewrite (dispatch_exited s e c E). by apply IH.
Qed.

Lemma run_app (a b : list Event) (s : RunState) :
  run ctx s (a ++ b) = run ctx (run ctx s a) b.
Proof. revert s; induction a as [|e a IH]; intros s; simpl; [done|apply IH]. Qed.

Lemma alive_before (evs : list Event) (s : RunState) :
  exited (run ctx s evs) = None → exited s = None.
Proof.
  intros E. destruct (exited s) as [c|] eqn:Es; [|done].
  by rewrite (run_exited evs s c Es), Es in E.
Qed.

End Basics.

(** Case analysis on the conditions a handler is stuck on. *)
Ltac split_conditions :=
  repeat match goal with
  | |- context [if ?c then _ else _] =>
      lazymatch type of c with bool => destruct c eqn:? end
  | |- context [match ?c with Some _ => _ | None => _ end] =>
      lazymatch type of c with option _ => destruct c eqn:? end
  | |- context [match ?c with O => _ | S _ => _ end] =>
      lazymatch type of c with nat => is_var c; destruct c end
  | |- context [match ?c with nil => _ | cons _ _ => _ end] =>
      lazymatch type of c with list _ => is_var c; destruct c end
  end.

(** One step on a running state given by its fields: the verbosity is
    fixed, the handler is opened, [dbg] is replaced by what it does at that
    verbosity, the updates are computed and the conditions the handler
    branches on are split. *)
Ltac step_eval ctx :=
  let V := fresh "V" in
  destruct (verbose (opts ctx)) eqn:V;
  unfold on_connect, on_subscribe_answer, on_subscribed, on_reconnect,
    on_error, on_close, on_disconnect, on_offline, on_message, on_ended,
    shutdown;
  cbn [subscribePending endPending];
  repeat match goal with
  | |- context [match ?c with O => _ | S _ => _ end] => is_var c; destruct c
  | |- context [match ?c with nil => _ | cons _ _ => _ end] =>
      is_var c; destruct c
  end;
  rewrite ?foldl_watching, ?(dbg_verbose _ V), ?(dbg_quiet _ V), ?V;
  eval_updates;
  repeat match goal with
  | |- context [drops_retained ctx ?pk] =>
      destruct (drops_retained ctx pk) eqn:?
  | |- context [rejects ?f ?t] => destruct (rejects f t) eqn:?
  | |- context [count_ge ?a ?b] => destruct (count_ge a b) eqn:?
  end;
  cbv beta iota delta [andb orb negb];
  split_conditions; cbv beta iota.

Section Steps.
Context `{Platform}.
Variable ctx : Ctx.

Lemma traffic_step (s : RunState) (e : Event) :
  exited s = None → is_traffic e = true →
  let r := dispatch ctx s e in
  let hit := eligible ctx e && count_ge (S (messageCount s)) (maxMessages ctx) in
  exited r = None
  ∧ on_channel Stdout (output r)
    = on_channel Stdout (output s) ++ (if eligible ctx e then rendering ctx e else [])
  ∧ messageCount r = messageCount s + (if eligible ctx e then 1 else 0)
  ∧ endPending r = endPending s ++ (if hit then [0] else [])
  ∧ end_calls (calls r) = end_calls (calls s) + (if hit then 1 else 0).
Proof.
  intros E T. cbv zeta. rewrite (dispatch_running ctx s e E).
  destruct s as [mc rc ec os out cl sp ep ex]; simpl in E; subst ex.
  destruct e as [k|[m|gs]| |err| |rc'| |t p pk| |sg]; try discriminate T;
    destruct ec, os; unfold eligible, rendering; step_eval ctx.
  all: observe.
  all: repeat split; try done; try lia.
Qed.

End Steps.

Section Graceful.
Context `{Platform}.
Variable ctx : Ctx.

(** Every disconnect the controller asks for is a graceful one. *)
Lemma graceful_step (s : RunState) (e : Event) :
  graceful_ends (calls s) = end_calls (calls s) →
  graceful_ends (calls (dispatch ctx s e))
  = end_calls (calls (dispatch ctx s e)).
Proof.
  intros G. destruct (exited s) as [c|] eqn:E.
  { by rewrite (dispatch_exited ctx s e c E). }
  rewrite (dispatch_running ctx s e E). revert G.
  destruct s as [mc rc ec os out cl sp ep ex]; simpl in E; subst ex.
  destruct e as [k|[m|gs]| |err| |rc'| |t p pk| |sg];
    destruct ec, os; step_eval ctx; cbn [calls];
    rewrite ?graceful_ends_app, ?end_calls_app; simpl; intros G;
    rewrite ?G; done.
Qed.

Lemma graceful_run (evs : list Event) (s : RunState) :
  graceful_ends (calls s) = end_calls (calls s) →
  graceful_ends (calls (run ctx s evs)) = end_calls (calls (run ctx s evs)).
Proof.
  revert s; induction evs as [|e evs IH]; intros s G; simpl; [done|].
  by apply IH, graceful_step.
Qed.

End Graceful.

Section Traffic.
Context `{Platform}.
Variable ctx : Ctx.

Lemma forwarded_cons (e : Event) (evs : list Event) :
  forwarded ctx (e :: evs)
  = (if eligible ctx e then rendering ctx e else []) ++ forwarded ctx evs.
Proof. done. Qed.

Lemma rendering_eligible (e : Event) :
  eligible ctx e = true → length (rendering ctx e) = 1.
Proof. by destruct e. Qed.

Lemma traffic_run (evs : list Event) (s : RunState) :
  exited s = None → Forall (λ e, is_traffic e = true) evs →
  let r := run ctx s evs in
  let k := length (forwarded ctx evs) in
  exited r = None
  ∧ on_channel Stdout (output r) = on_channel Stdout (output s) ++ forwarded ctx evs
  ∧ messageCount r = messageCount s + k
  ∧ endPending r
    = endPending s ++ replicate (requests (maxMessages ctx) (messageCount s) k) 0
  ∧ end_calls (calls r)
    = end_calls (calls s) + requests (maxMessages ctx) (messageCount s) k.
Proof.
  revert s; induction evs as [|e evs IH]; intros s E T; cbv zeta.
  - simpl. rewrite !app_nil_r. repeat split; try done; lia.
  - inversion T as [|? ? Te Tr]; subst. cbn [run].
    destruct (traffic_step ctx s e E Te) as (E1 & O1 & M1 & P1 & C1).
    destruct (IH _ E1 Tr) as (E2 & O2 & M2 & P2 & C2).
    rewrite forwarded_cons, E2, O2, M2, P2, C2, O1, M1, P1, C1.
    destruct (eligible ctx e) eqn:El.
    + rewrite length_app, (rendering_eligible e El).
      replace (messageCount s + 1) with (S (messageCount s)) by lia.
      cbn [andb Nat.add requests].
      destruct (count_ge (S (messageCount s)) (maxMessages ctx)); simpl;
        rewrite <- !app_assoc; repeat split; try done; lia.
    + simpl. rewrite ?app_nil_r, ?Nat.add_0_r.
      repeat split; try done; lia.
Qed.

Lemma requests_infinity (mc k : nat) : requests Infinity mc k = 0.
Proof. revert mc; induction k as [|k IH]; intros mc; simpl; [done|apply IH]. Qed.

Lemma requests_below (n mc k : nat) :
  mc + k < n → requests (Int (Z.of_nat n)) mc k = 0.
Proof.
  revert mc; induction k as [|k IH]; intros mc L; simpl; [done|].
  rewrite IH by lia.
  destruct (Z.leb_spec (Z.of_nat n) (Z.of_nat (S mc))); [lia|done].
Qed.

Lemma requests_from (n mc k : nat) :
  n ≤ S mc → requests (Int (Z.of_nat n)) mc k = k.
Proof.
  revert mc; induction k as [|k IH]; intros mc L; simpl; [done|].
  rewrite IH by lia.
  destruct (Z.leb_spec (Z.of_nat n) (Z.of_nat (S mc))); [done|lia].
Qed.

Lemma requests_split (limit : Number) (mc a b : nat) :
  requests limit mc (a + b) = requests limit mc a + requests limit (mc + a) b.
Proof.
  revert mc; induction a as [|a IH]; intros mc; simpl.
  - by rewrite Nat.add_0_r.
  - rewrite IH. replace (S mc + a) with (mc + S a) by lia. lia.
Qed.

(** Counting from [mc] below the limit [n], the messages up to the one
    that reaches [n] ask for nothing and every one from there on asks for
    one disconnect. *)
Lemma requests_exact (n mc k : nat) :
  mc < n → requests (Int (Z.of_nat n)) mc k = (mc + k + 1) - n.
Proof.
  intros L. destruct (decide (mc + k < n)) as [B|B].
  - rewrite requests_below by done. lia.
  - replace k with ((n - 1 - mc) + (k - (n - 1 - mc))) at 1 by lia.
    rewrite requests_split, requests_below, requests_from by lia. lia.
Qed.

End Traffic.

Section Setup.
Context `{Platform}.

Lemma connect_returned (tps : list string) (o : Opts) (s : RunState)
    (ctx : Ctx) :
  connect tps o = (s, Returned ctx) →
  messageCount s = 0 ∧ everConnected s = false ∧ offlineShown s = false
  ∧ exited s = None ∧ endPending s = [] ∧ subscribePending s = 0
  ∧ on_channel Stdout (output s) = []
  ∧ calls s = [MqttConnect (brokerUrl ctx) (connectOpts ctx)]
  ∧ opts ctx = o ∧ topics ctx = tps ∧ maxMessages ctx = limit_of o.
Proof.
  unfold connect, compileFilter, has_exited, initial, dbg.
  destruct (verbose o), (buildConnectOptions o) as [msg|co];
    try discriminate.
  all: destruct (keep_truthy (filter o)) as [p1|];
    [destruct (RegExp_new p1)|];
    (destruct (keep_truthy (payloadFilter o)) as [p2|];
     [destruct (RegExp_new p2)|]).
  all: eval_updates; intros E; simplify_eq; simpl; done.
Qed.

End Setup.

Section CountLimit.
Context `{Platform}.

(** The count limit where nothing is in flight: with a configured maximum
    N >= 1 (a number below 10^21, which [parseInt] reads as itself, or the
    decimal string of N, as a configuration file may hold it), no
    disconnect is requested while fewer than N messages have been
    forwarded; from the N-th forwarded message on, each one is followed by
    the request of a graceful disconnect, and the confirmation of the
    disconnect ends the process with exit code 0, after which nothing is
    handled.  When the N-th eligible message is the last one delivered
    before the confirmation, exactly N are forwarded and one graceful
    disconnect is requested. *)
Theorem count_limit_reached (tps : list string) (o : Opts) (n : nat)
    (v : JsVal) (s : RunState) (ctx : Ctx) (pre post : list Event) :
  1 ≤ n →
  count o = Some v →
  v = VNum (Int (Z.of_nat n)) ∧ (Z.of_nat n < 10 ^ 21)%Z
  ∨ v = VStr (pretty (Z.of_nat n)) →
  connect tps o = (s, Returned ctx) →
  Forall (λ e, is_traffic e = true) pre →
  n ≤ length (forwarded ctx pre) →
  let r := run ctx s (pre ++ EvEnded :: post) in
  on_channel Stdout (output r) = forwarded ctx pre
  ∧ messageCount r = length (forwarded ctx pre)
  ∧ end_calls (calls r) = length (forwarded ctx pre) + 1 - n
  ∧ graceful_ends (calls r) = length (forwarded ctx pre) + 1 - n
  ∧ exited r = Some 0
  ∧ ∀ a b, pre = a ++ b → length (forwarded ctx a) < n →
      end_calls (calls (run ctx s a)) = 0 ∧ exited (run ctx s a) = None.
Proof.
  intros N C V K T L r.
  destruct (connect_returned _ _ _ _ K)
    as (M0 & _ & _ & E0 & P0 & _ & O0 & C0 & _ & _ & Lim).
  assert (Lim' : maxMessages ctx = Int (Z.of_nat n)).
  { rewrite Lim. unfold limit_of. rewrite C.
    destruct V as [[-> B]| ->].
    - cbn [truthy_val truthy_num from_option].
      destruct (Z.eqb_spec (Z.of_nat n) 0); [lia|]. cbn [negb].
      apply parseInt_small. lia.
    - pose proof (parseInt_str_pretty (Z.of_nat n)) as R.
      unfold parseInt, show_val. cbn [truthy_val from_option].
      by destruct (pretty (Z.of_nat n)). }
  assert (Cs : end_calls (calls s) = 0) by (by rewrite C0).
  assert (Gs : graceful_ends (calls s) = end_calls (calls s))
    by (by rewrite C0).
  pose proof (graceful_run ctx (pre ++ EvEnded :: post) s Gs) as G.
  fold r in G. rewrite G.
  destruct (traffic_run ctx pre s E0 T) as (E1 & O1 & M1 & P1 & C1).
  rewrite Lim', M0, requests_exact in P1, C1 by lia.
  rewrite P0 in P1. simpl in P1, M1, C1.
  destruct (length (forwarded ctx pre) + 1 - n) as [|q] eqn:Q; [lia|].
  simpl in P1.
  assert (R : r = process_exit 0
                    (mkRunState (messageCount (run ctx s pre))
                       (reconnectCount (run ctx s pre))
                       (everConnected (run ctx s pre))
                       (offlineShown (run ctx s pre))
                       (output (run ctx s pre)) (calls (run ctx s pre))
                       (subscribePending (run ctx s pre)) (replicate q 0)
                       (exited (run ctx s pre)))).
  { unfold r. rewrite run_app. simpl.
    unfold dispatch at 1. rewrite E1. unfold on_ended. rewrite P1.
    by apply (run_exited ctx post _ 0). }
  rewrite R; simpl. rewrite O1, O0, M1, M0, C1, Cs.
  do 5 (split; [done|]).
  intros a b -> La. apply Forall_app in T as [Ta _].
  destruct (traffic_run ctx a s E0 Ta) as (Ea & _ & _ & _ & Ca).
  split; [|done]. rewrite Ca, Cs, Lim', M0, requests_below by lia. done.
Qed.

(** C10: without a count, or with the count 0, the limit is [Infinity]:
    whatever is delivered, no disconnect is ever requested, the process
    keeps running and every eligible message is forwarded. *)
Theorem no_count_no_limit (tps : list string) (o : Opts) (s : RunState)
    (ctx : Ctx) (evs : list Event) :
  count o = None ∨ count o = Some (VNum (Int 0)) →
  connect tps o = (s, Returned ctx) →
  Forall (λ e, is_traffic e = true) evs →
  let r := run ctx s evs in
  maxMessages ctx = Infinity
  ∧ exited r = None
  ∧ end_calls (calls r) = 0
  ∧ endPending r = []
  ∧ on_channel Stdout (output r) = forwarded ctx evs
  ∧ messageCount r = length (forwarded ctx evs).
Proof.
  intros C K T r.
  destruct (connect_returned _ _ _ _ K)
    as (M0 & _ & _ & E0 & P0 & _ & O0 & C0 & _ & _ & Lim).
  assert (Lim' : maxMessages ctx = Infinity).
  { rewrite Lim. unfold limit_of. by destruct C as [-> | ->]. }
  destruct (traffic_run ctx evs s E0 T) as (E1 & O1 & M1 & P1 & C1).
  rewrite Lim', requests_infinity in P1, C1.
  unfold r. rewrite E1, O1, O0, M1, M0, P1, P0, C1, C0. done.
Qed.

End CountLimit.

Lemma count_limit_reached_witness :
  let o := with_count 2 no_opts in
  let ctx := bench_ctx o None None in
  let pre := [ack; granted_all; msg "t/a" "1" false; EvOffline;
              msg "t/b" "2" false] in
  let r := run ctx bench_start (pre ++ EvEnded :: [msg "t/c" "3" false]) in
  on_channel Stdout (output r) = forwarded ctx pre
  ∧ messageCount r = length (forwarded ctx pre)
  ∧ end_calls (calls r) = length (forwarded ctx pre) + 1 - 2
  ∧ graceful_ends (calls r) = length (forwarded ctx pre) + 1 - 2
  ∧ exited r = Some 0
  ∧ ∀ a b, pre = a ++ b →
      length (forwarded ctx a) < 2 →
      end_calls (calls (run ctx bench_start a)) = 0
      ∧ exited (run ctx bench_start a) = None.
Proof.
  apply (count_limit_reached (H:=bench) ["#"] (with_count 2 no_opts) 2
           (VNum (Int 2))).
  - lia.
  - reflexivity.
  - left. split; [reflexivity|]. vm_compute. reflexivity.
  - reflexivity.
  - repeat constructor.
  - vm_compute. lia.
Defined.

(** The scenario of the count 3 and three eligible messages in sequence:
    three lines on the message channel, then exit code 0. *)
Example three_then_exit :
  let r := session (H:=bench) ["#"] (with_count 3 no_opts)
             [ack; granted_all; msg "t/a" "1" false; msg "t/b" "2" false;
              msg "t/c" "3" false; EvEnded] in
  on_channel Stdout (output r)
  = [Formatted ("t/a 1" +:+ newline); Formatted ("t/b 2" +:+ newline);
     Formatted ("t/c 3" +:+ newline)]
  ∧ end_calls (calls r) = 1
  ∧ exited r = Some 0.
Proof. by vm_compute. Qed.

Lemma no_count_no_limit_witness :
  let o := with_count 0 no_opts in
  let evs := [ack; granted_all; msg "t/a" "1" false; msg "t/b" "2" false] in
  let r := run (bench_ctx o None None) bench_start evs in
  maxMessages (bench_ctx o None None) = Infinity
  ∧ exited r = None
  ∧ end_calls (calls r) = 0
  ∧ endPending r = []
  ∧ on_channel Stdout (output r) = forwarded (bench_ctx o None None) evs
  ∧ messageCount r = length (forwarded (bench_ctx o None None) evs).
Proof.
  apply (no_count_no_limit (H:=bench) ["#"] (with_count 0 no_opts)).
  - right. reflexivity.
  - reflexivity.
  - repeat constructor.
Defined.

(** C1 at the count 1 ([mqtt-tail -n 1]) with two eligible messages
    delivered before the client confirms the disconnect: the first message
    reaches the limit and the graceful disconnect is requested; the
    handler compares the count with the limit only after printing, so the
    second message is printed too.  Two messages are forwarded for the
    maximum 1, then the process ends with exit code 0. *)
Theorem count_limit_overrun :
  let o := with_count 1 no_opts in
  let evs := [ack; granted_all; msg "t/a" "1" false; msg "t/b" "2" false;
              EvEnded] in
  let first := session (H:=bench) ["#"] o
                 [ack; granted_all; msg "t/a" "1" false] in
  let r := session (H:=bench) ["#"] o evs in
  count o = Some (VNum (Int 1))
  ∧ limit_of (H:=bench) o = Int 1
  ∧ 1 ≤ length (forwarded (bench_ctx o None None) evs)
  ∧ messageCount first = 1
  ∧ calls first
    = [MqttConnect bench_url bench_connectOpts;
       ClientSubscribe {[ "#" := Int 0 ]}; ClientEnd false]
  ∧ exited r = Some 0
  ∧ on_channel Stdout (output r)
    = [Formatted ("t/a 1" +:+ newline); Formatted ("t/b 2" +:+ newline)]
  ∧ messageCount r = 2
  ∧ length (on_channel Stdout (output r)) ≠ 1.
Proof. vm_compute. repeat split; try done; lia. Qed.

Section Shutdown.
Context `{Platform}.
Variable ctx : Ctx.

Lemma signal_step (s : RunState) (sg : Signal) :
  exited s = None →
  let r := dispatch ctx s (EvSignal sg) in
  exited r = None
  ∧ end_calls (calls r) = end_calls (calls s) + 1
  ∧ endPending r = endPending s ++ [0]
  ∧ status_lines (output r) = status_lines (output s) ++ [Disconnecting]
  ∧ on_channel Stdout (output r) = on_channel Stdout (output s)
  ∧ messageCount r = messageCount s
  ∧ calls r = calls s ++ [ClientEnd false].
Proof.
  intros E. cbv zeta. rewrite (dispatch_running ctx s _ E).
  destruct s as [mc rc ec os out cl sp ep ex]; simpl in E; subst ex.
  step_eval ctx; observe; rewrite <- ?app_assoc; done.
Qed.

Lemma signals_run (sgs : list Signal) (s : RunState) :
  exited s = None →
  let r := run ctx s (map EvSignal sgs) in
  exited r = None
  ∧ end_calls (calls r) = end_calls (calls s) + length sgs
  ∧ endPending r = endPending s ++ replicate (length sgs) 0
  ∧ status_lines (output r)
    = status_lines (output s) ++ replicate (length sgs) Disconnecting
  ∧ calls r = calls s ++ replicate (length sgs) (ClientEnd false).
Proof.
  revert s; induction sgs as [|sg sgs IH]; intros s E; simpl.
  - rewrite !app_nil_r. repeat split; try done; lia.
  - destruct (signal_step s sg E) as (E1 & C1 & P1 & L1 & _ & _ & K1).
    destruct (IH _ E1) as (E2 & C2 & P2 & L2 & K2).
    rewrite E2, C2, P2, L2, K2, C1, P1, L1, K1, <- !app_assoc. simpl.
    repeat split; try done; lia.
Qed.

(** C3 (as amended): the controller keeps no shutting-down flag.  Every
    interrupt or terminate signal that reaches the running process writes
    one "Disconnecting..." line and makes one call [client.end(false, ...)],
    a graceful disconnect, and no other call: k signals in succession add
    k such calls to the calls made before.  The process exits once, with
    code 0, when the client confirms, and handles nothing after that. *)
Theorem shutdown_per_signal (s : RunState) (sgs : list Signal)
    (post : list Event) :
  exited s = None →
  endPending s = [] →
  sgs ≠ [] →
  let mid := run ctx s (map EvSignal sgs) in
  let r := run ctx s (map EvSignal sgs ++ EvEnded :: post) in
  calls mid = calls s ++ replicate (length sgs) (ClientEnd false)
  ∧ graceful_ends (calls mid) = graceful_ends (calls s) + length sgs
  ∧ status_lines (output mid)
    = status_lines (output s) ++ replicate (length sgs) Disconnecting
  ∧ exited mid = None
  ∧ exited r = Some 0
  ∧ output r = output mid
  ∧ calls r = calls mid.
Proof.
  intros E P NE mid r.
  destruct (signals_run sgs s E) as (E1 & C1 & P1 & L1 & K1).
  fold mid in E1, C1, P1, L1, K1.
  assert (G : graceful_ends (calls mid) = graceful_ends (calls s) + length sgs).
  { rewrite K1, graceful_ends_app. f_equal. clear.
    induction (length sgs) as [|k IH]; [done|].
    simpl. unfold graceful_ends in *. simpl. by rewrite IH. }
  repeat split; try done.
  all: unfold r; rewrite run_app; fold mid; simpl.
  all: unfold dispatch at 1; rewrite E1; unfold on_ended; rewrite P1, P.
  all: destruct sgs as [|sg sgs]; [done|]; simpl.
  all: by erewrite run_exited.
Qed.

(** C4 (as amended): the controller keeps no shutting-down flag.  While
    a requested disconnect is not yet confirmed and the count is below the
    configured maximum, as after a signal, a delivered message goes
    through the same filters and, when eligible, is written and counted
    like any other, which leaves the count within the maximum; only once
    the process has exited is nothing handled any more. *)
Theorem message_while_disconnecting (s : RunState) (topic : string)
    (payload : Buffer) (packet : Packet) :
  exited s = None →
  endPending s ≠ [] →
  count_ge (messageCount s) (maxMessages ctx) = false →
  let e := EvMessage topic payload packet in
  let r := dispatch ctx s e in
  on_channel Stdout (output r)
  = on_channel Stdout (output s) ++ (if eligible ctx e then rendering ctx e else [])
  ∧ messageCount r = messageCount s + (if eligible ctx e then 1 else 0)
  ∧ exited r = None
  ∧ (∀ z, maxMessages ctx = Int z → (Z.of_nat (messageCount r) ≤ z)%Z)
  ∧ ∀ s' c e', exited s' = Some c → dispatch ctx s' e' = s'.
Proof.
  intros E _ B e r.
  destruct (traffic_step ctx s e E eq_refl) as (E1 & O1 & M1 & _).
  repeat split; try done.
  - intros z Z. rewrite Z in B. simpl in B. apply Z.leb_gt in B.
    fold r in M1. rewrite M1. destruct (eligible ctx e); lia.
  - intros s' c e' Ex. by apply (dispatch_exited ctx s' e' c).
Qed.

End Shutdown.

Lemma shutdown_per_signal_witness :
  let ctx := bench_ctx no_opts None None in
  let sgs := [SIGINT; SIGTERM] in
  let mid := run ctx bench_start (map EvSignal sgs) in
  let r := run ctx bench_start (map EvSignal sgs ++ EvEnded :: [EvSignal SIGINT]) in
  calls mid = calls bench_start ++ replicate 2 (ClientEnd false)
  ∧ graceful_ends (calls mid) = graceful_ends (calls bench_start) + 2
  ∧ status_lines (output mid)
    = status_lines (output bench_start) ++ replicate 2 Disconnecting
  ∧ exited mid = None
  ∧ exited r = Some 0
  ∧ output r = output mid
  ∧ calls r = calls mid.
Proof.
  apply (shutdown_per_signal (H:=bench) (bench_ctx no_opts None None)
           bench_start [SIGINT; SIGTERM] [EvSignal SIGINT]).
  - reflexivity.
  - reflexivity.
  - discriminate.
Defined.

(** C3, as stated, fails: two signals in succession make two graceful
    disconnect requests and write two "Disconnecting..." lines. *)
Lemma two_signals_two_disconnects :
  let r := session (H:=bench) ["#"] no_opts
             [ack; granted_all; EvSignal SIGINT; EvSignal SIGINT] in
  exited r = None
  ∧ calls r
    = [MqttConnect bench_url bench_connectOpts;
       ClientSubscribe {[ "#" := Int 0 ]}; ClientEnd false; ClientEnd false]
  ∧ graceful_ends (calls r) = 2
  ∧ graceful_ends (calls r) ≠ 1
  ∧ status_lines (output r)
    = [Connecting bench_url None; Connected bench_url; Watching "#" 0;
       BlankLine; Disconnecting; Disconnecting].
Proof. vm_compute. repeat split; try done. Qed.

(** The state a signal leaves does not depend on the count option. *)
Example stopping_on_bench :
  session (H:=bench) ["#"] (with_count 2 no_opts)
    [ack; granted_all; EvSignal SIGTERM]
  = bench_stopping
  ∧ maxMessages (bench_ctx (with_count 2 no_opts) None None) = Int 2.
Proof. by vm_compute. Qed.

Lemma message_while_disconnecting_witness :
  let ctx := bench_ctx (with_count 2 no_opts) None None in
  let e := msg "t/b" "2" false in
  let r := dispatch ctx bench_stopping e in
  on_channel Stdout (output r)
  = on_channel Stdout (output bench_stopping)
    ++ (if eligible ctx e then rendering ctx e else [])
  ∧ messageCount r
    = messageCount bench_stopping + (if eligible ctx e then 1 else 0)
  ∧ exited r = None
  ∧ (∀ z, maxMessages ctx = Int z → (Z.of_nat (messageCount r) ≤ z)%Z)
  ∧ ∀ s' c e', exited s' = Some c → dispatch ctx s' e' = s'.
Proof.
  apply (message_while_disconnecting (H:=bench)
           (bench_ctx (with_count 2 no_opts) None None) bench_stopping
           "t/b" (String.list_byte_of_string "2") (mkPacket 0 false)).
  - reflexivity.
  - vm_compute. discriminate.
  - reflexivity.
Defined.

(** C4, as stated, fails: a signal asks for the disconnect; a message
    delivered before the client confirms it is written and counted. *)
Lemma forwarded_after_signal :
  let first := session (H:=bench) ["#"] no_opts
                 [ack; granted_all; EvSignal SIGINT] in
  let r := session (H:=bench) ["#"] no_opts
             [ack; granted_all; EvSignal SIGINT; msg "t/a" "1" false] in
  exited first = None
  ∧ endPending first = [0]
  ∧ calls first
    = [MqttConnect bench_url bench_connectOpts;
       ClientSubscribe {[ "#" := Int 0 ]}; ClientEnd false]
  ∧ on_channel Stdout (output first) = []
  ∧ messageCount first = 0
  ∧ on_channel Stdout (output r) = [Formatted ("t/a 1" +:+ newline)]
  ∧ messageCount r = 1.
Proof. vm_compute. repeat split; done. Qed.

Section Notices.
Context `{Platform}.
Variable ctx : Ctx.

(** One event of an offline interval. *)
Lemma offline_step (s : RunState) (e : Event) :
  is_connect e = false →
  exited (dispatch ctx s e) = None →
  let r := dispatch ctx s e in
  offlineShown r = offlineShown s || is_offline e
  ∧ everConnected r = everConnected s
  ∧ offline_notices (output r)
    = offline_notices (output s)
      ++ (if is_offline e && negb (offlineShown s)
          then [offline_notice ctx (everConnected s)] else []).
Proof.
  intros NC E.
  assert (E0 : exited s = None).
  { destruct (exited s) as [c|] eqn:Es; [|done].
    by rewrite (dispatch_exited ctx s e c Es), Es in E. }
  revert E. cbv zeta. rewrite (dispatch_running ctx s e E0).
  unfold offline_notice.
  destruct s as [mc rc ec os out cl sp ep ex]; simpl in E0; subst ex.
  destruct e as [k|[m|gs]| |err| |rc'| |t p pk| |sg]; try discriminate NC;
    destruct ec, os; step_eval ctx; observe; done.
Qed.

Lemma offline_interval (evs : list Event) (s : RunState) :
  Forall (λ e, is_connect e = false) evs →
  exited (run ctx s evs) = None →
  let r := run ctx s evs in
  offlineShown r = offlineShown s || existsb is_offline evs
  ∧ everConnected r = everConnected s
  ∧ offline_notices (output r)
    = offline_notices (output s)
      ++ (if existsb is_offline evs && negb (offlineShown s)
          then [offline_notice ctx (everConnected s)] else []).
Proof.
  revert s; induction evs as [|e evs IH]; intros s NC E; simpl.
  - by rewrite orb_false_r, app_nil_r.
  - inversion NC as [|? ? Ne Nr]; subst. simpl in E.
    destruct (IH _ Nr E) as (S2 & V2 & N2).
    destruct (offline_step s e Ne (alive_before ctx evs _ E)) as (S1 & V1 & N1).
    rewrite S2, V2, N2, S1, V1, N1.
    destruct (is_offline e), (existsb is_offline evs), (offlineShown s);
      simpl; rewrite <- ?app_assoc, ?app_nil_r; done.
Qed.

(** C5: over an offline interval (events without a handshake, the process
    still running at its end) that starts with no notice shown and holds at
    least one loss signal, exactly one offline notice is written, however
    many loss signals and reconnect attempts the interval holds: "lost
    connection" when the controller has connected before, "cannot reach"
    otherwise.  The flag is then set, a further loss signal writes nothing
    but its [dbg] diagnostic, and the next handshake clears the flag. *)
Theorem offline_notice_once (s : RunState) (evs : list Event) :
  offlineShown s = false →
  Forall (λ e, is_connect e = false) evs →
  existsb is_offline evs = true →
  exited (run ctx s evs) = None →
  let r := run ctx s evs in
  offline_notices (output r)
  = offline_notices (output s)
    ++ [if everConnected s then LostConnection (brokerUrl ctx)
        else CannotReach (brokerUrl ctx)]
  ∧ offlineShown r = true
  ∧ status_lines (output (dispatch ctx r EvOffline)) = status_lines (output r)
  ∧ ∀ connack, offlineShown (dispatch ctx r (EvConnect connack)) = false.
Proof.
  intros S0 NC X E r.
  destruct (offline_interval evs s NC E) as (S1 & V1 & N1).
  fold r in S1, V1, N1. rewrite S0, X in S1, N1. simpl in S1, N1.
  repeat split; try done.
  - fold r in E. rewrite (dispatch_running ctx r _ E).
    destruct r as [mc rc ec os out cl sp ep ex]; simpl in E, S1; subst.
    destruct ec; step_eval ctx; observe; done.
  - intros connack. fold r in E. rewrite (dispatch_running ctx r _ E).
    destruct r as [mc rc ec os out cl sp ep ex]; simpl in E; subst.
    destruct ec; step_eval ctx; done.
Qed.

(** One event, as far as the connection statuses go. *)
Lemma status_step (s : RunState) (e : Event) :
  exited (dispatch ctx s e) = None →
  let r := dispatch ctx s e in
  everConnected r = everConnected s || is_connect e
  ∧ connect_statuses (output r)
    = connect_statuses (output s)
      ++ (if is_connect e then [connect_status ctx (everConnected s)] else []).
Proof.
  intros E.
  assert (E0 : exited s = None).
  { destruct (exited s) as [c|] eqn:Es; [|done].
    by rewrite (dispatch_exited ctx s e c Es), Es in E. }
  revert E. cbv zeta. rewrite (dispatch_running ctx s e E0).
  unfold connect_status.
  destruct s as [mc rc ec os out cl sp ep ex]; simpl in E0; subst ex.
  destruct e as [k|[m|gs]| |err| |rc'| |t p pk| |sg];
    destruct ec, os; step_eval ctx; observe; done.
Qed.

Lemma status_run (evs : list Event) (s : RunState) :
  exited (run ctx s evs) = None →
  let r := run ctx s evs in
  everConnected r = everConnected s || bool_decide (connects evs ≠ 0)
  ∧ connect_statuses (output r)
    = connect_statuses (output s)
      ++ (if everConnected s
          then replicate (connects evs) (Reconnected (brokerUrl ctx))
          else connect_trail (brokerUrl ctx) (connects evs)).
Proof.
  revert s; induction evs as [|e evs IH]; intros s E; simpl.
  - rewrite orb_false_r. destruct (everConnected s); by rewrite app_nil_r.
  - simpl in E. destruct (IH _ E) as (V2 & L2).
    destruct (status_step s e (alive_before ctx evs _ E)) as (V1 & L1).
    rewrite V2, L2, V1, L1. unfold connects, connect_status in *; simpl.
    destruct (is_connect e), (everConnected s); simpl;
      rewrite <- ?app_assoc, ?app_nil_r; simpl; done.
Qed.

(** C6: a handshake writes exactly one status, "Reconnected" when the
    controller has connected before and "Connected" otherwise, and sets
    [everConnected]; over a whole run from a controller that has not yet
    connected, the handshakes write "Connected" once, for the first, and
    "Reconnected" once for each later one. *)
Theorem connect_status_once (s : RunState) (connack : Connack)
    (evs : list Event) :
  everConnected s = false →
  exited (run ctx s evs) = None →
  let r := run ctx s evs in
  let next := dispatch ctx r (EvConnect connack) in
  connect_statuses (output r)
  = connect_statuses (output s) ++ connect_trail (brokerUrl ctx) (connects evs)
  ∧ status_lines (output next)
    = status_lines (output r)
      ++ [if everConnected r then Reconnected (brokerUrl ctx)
          else Connected (brokerUrl ctx)]
  ∧ everConnected next = true
  ∧ offlineShown next = false.
Proof.
  intros V0 E r next.
  destruct (status_run evs s E) as (V1 & L1). fold r in V1, L1.
  rewrite V0 in L1. split; [done|].
  unfold next. fold r in E. rewrite (dispatch_running ctx r _ E).
  destruct r as [mc rc ec os out cl sp ep ex]; simpl in E; subst.
  destruct ec; step_eval ctx; observe; done.
Qed.

End Notices.

Section Pipeline_properties.
Context `{Platform}.
Variable ctx : Ctx.

(** C2: a delivered message goes through the three stages in the order
    retained-drop, topic filter, payload filter.  The first stage that
    fails drops it: nothing but the two diagnostics (the message seen, the
    reason of that stage) is written.  A message no stage fails is
    formatted, written to the message channel and counted; and a message
    is counted exactly when it passes the three stages. *)
Theorem filter_pipeline (s : RunState) (topic : string) (payload : Buffer)
    (packet : Packet) :
  exited s = None →
  let r := dispatch ctx s (EvMessage topic payload packet) in
  let seen :=
    dbg (opts ctx)
      (DMessage topic (length payload) (pk_qos packet) (pk_retain packet)) s in
  let fails := stage_fails ctx topic payload packet in
  (∀ st, first_failure ctx topic payload packet = Some st →
     r = dbg (opts ctx) (drop_note st) seen
     ∧ on_channel Stdout (output r) = on_channel Stdout (output s)
     ∧ messageCount r = messageCount s)
  ∧ (first_failure ctx topic payload packet = None →
     on_channel Stdout (output r)
     = on_channel Stdout (output s)
       ++ [Formatted (formatMessage topic payload packet (opts ctx) +:+ newline)]
     ∧ messageCount r = S (messageCount s))
  ∧ (messageCount r = S (messageCount s)
     ↔ fails RetainedDrop = false ∧ fails TopicFilter = false
       ∧ fails PayloadFilter = false).
Proof.
  intros E. cbv zeta. rewrite (dispatch_running ctx s _ E).
  destruct s as [mc rc ec os out cl sp ep ex]; simpl in E; subst ex.
  unfold first_failure, stage_order, List.find, stage_fails, allow_retained,
    drop_note, on_message, drops_retained, rejects.
  destruct (retained (opts ctx)) as [[|]|], (pk_retain packet),
    (topicFilter ctx) as [tf|], (payloadFilterRe ctx) as [pf|];
    try destruct (RegExp_test tf topic);
    try destruct (RegExp_test pf (Buffer_toString payload)).
  all: step_eval ctx; observe.
  all: repeat split; intros; simplify_eq; observe; try done; try lia.
  all: try (repeat split; done).
Qed.

(** C7: when the client answers the subscribe request with an error, the
    callback writes one error line to the status channel and ends the
    process with exit code 1; it makes no further call on the client (the
    request is not retried), forwards nothing, and nothing is handled
    afterwards. *)
Theorem subscribe_failure_fatal (s : RunState) (message : string)
    (evs : list Event) :
  exited s = None →
  subscribePending s ≠ 0 →
  let r := dispatch ctx s (EvSubscribed (inl message)) in
  exited r = Some 1
  ∧ output r = output s ++ [(Stderr, Status (SubscribeError message))]
  ∧ calls r = calls s
  ∧ messageCount r = messageCount s
  ∧ run ctx r evs = r.
Proof.
  intros E P. cbv zeta.
  assert (X : exited (dispatch ctx s (EvSubscribed (inl message))) = Some 1).
  { rewrite (dispatch_running ctx s _ E).
    destruct s as [mc rc ec os out cl sp ep ex]; simpl in E, P; subst ex.
    destruct sp; [done|]. step_eval ctx; done. }
  split; [done|]. rewrite (run_exited ctx evs _ 1 X).
  rewrite (dispatch_running ctx s _ E).
  destruct s as [mc rc ec os out cl sp ep ex]; simpl in E, P; subst ex.
  destruct sp; [done|]. step_eval ctx; done.
Qed.

(** Every handler writes each kind of text on its own channel. *)
Lemma channel_step (s : RunState) (e : Event) :
  Forall channel_ok (output s) → Forall channel_ok (output (dispatch ctx s e)).
Proof.
  intros F. destruct (exited s) as [c|] eqn:E.
  { by rewrite (dispatch_exited ctx s e c E). }
  rewrite (dispatch_running ctx s e E). revert F.
  destruct s as [mc rc ec os out cl sp ep ex]; simpl in E; subst ex.
  destruct e as [k|[m|gs]| |err| |rc'| |t p pk| |sg];
    destruct ec, os; step_eval ctx; cbn [output]; intros F;
    rewrite ?Forall_app; repeat split;
    auto using watch_lines_channels; by repeat constructor.
Qed.

Lemma channel_run (evs : list Event) (s : RunState) :
  Forall channel_ok (output s) → Forall channel_ok (output (run ctx s evs)).
Proof.
  revert s; induction evs as [|e evs IH]; intros s F; simpl; [done|].
  by apply IH, channel_step.
Qed.

(** The only thing a handler writes on [process.stdout] is the rendering
    of the message it handles. *)
Lemma stdout_step (s : RunState) (e : Event) (x : Text) :
  x ∈ on_channel Stdout (output (dispatch ctx s e)) →
  x ∈ on_channel Stdout (output s) ∨ x ∈ rendering ctx e.
Proof.
  destruct (exited s) as [c|] eqn:E.
  { rewrite (dispatch_exited ctx s e c E). by left. }
  rewrite (dispatch_running ctx s e E).
  destruct s as [mc rc ec os out cl sp ep ex]; simpl in E; subst ex.
  destruct e as [k|[m|gs]| |err| |rc'| |t p pk| |sg];
    destruct ec, os; unfold rendering; step_eval ctx; observe;
    rewrite ?elem_of_app; tauto.
Qed.

(** What a delivered message puts on [process.stderr]: nothing without
    [--verbose], and with it the diagnostics of [message_notes]. *)
Lemma message_stderr (s : RunState) (topic : string) (payload : Buffer)
    (packet : Packet) :
  exited s = None →
  on_channel Stderr
    (output (dispatch ctx s (EvMessage topic payload packet)))
  = on_channel Stderr (output s)
    ++ (if verbose (opts ctx)
        then map (λ d, Status (Diagnostic d))
               (message_notes ctx (messageCount s) topic payload packet)
        else []).
Proof.
  intros E. rewrite (dispatch_running ctx s _ E).
  destruct s as [mc rc ec os out cl sp ep ex]; simpl in E; subst ex.
  unfold message_notes, first_failure, stage_order, List.find, stage_fails,
    allow_retained, drop_note, on_message, drops_retained, rejects.
  cbn [messageCount].
  destruct (retained (opts ctx)) as [[|]|], (pk_retain packet),
    (topicFilter ctx) as [tf|], (payloadFilterRe ctx) as [pf|];
    try destruct (RegExp_test tf topic);
    try destruct (RegExp_test pf (Buffer_toString payload)).
  all: step_eval ctx; observe; rewrite <- ?app_assoc; done.
Qed.

Lemma stdout_run (evs : list Event) (s : RunState) (x : Text) :
  x ∈ on_channel Stdout (output (run ctx s evs)) →
  x ∈ on_channel Stdout (output s) ∨ ∃ e, e ∈ evs ∧ x ∈ rendering ctx e.
Proof.
  revert s; induction evs as [|e evs IH]; intros s X; simpl in X; [by left|].
  destruct (IH _ X) as [X1|(e' & In' & R)].
  - destruct (stdout_step s e x X1) as [X0|R]; [by left|].
    right. exists e. split; [apply elem_of_cons; by left|done].
  - right. exists e'. split; [apply elem_of_cons; by right|done].
Qed.

End Pipeline_properties.

Section Setup_errors.
Context `{Platform}.

Lemma connect_channels (tps : list string) (o : Opts) :
  Forall channel_ok (output (connect tps o).1).
Proof.
  unfold connect, compileFilter, has_exited, initial, dbg.
  destruct (verbose o), (buildConnectOptions o) as [msg|co].
  all: try (destruct (keep_truthy (filter o)) as [p1|];
    [destruct (RegExp_new p1)|];
    (destruct (keep_truthy (payloadFilter o)) as [p2|];
     [destruct (RegExp_new p2)|])).
  all: eval_updates; simpl; by repeat constructor.
Qed.

Lemma connect_stdout (tps : list string) (o : Opts) :
  on_channel Stdout (output (connect tps o).1) = [].
Proof.
  unfold connect, compileFilter, has_exited, initial, dbg.
  destruct (verbose o), (buildConnectOptions o) as [msg|co].
  all: try (destruct (keep_truthy (filter o)) as [p1|];
    [destruct (RegExp_new p1)|];
    (destruct (keep_truthy (payloadFilter o)) as [p2|];
     [destruct (RegExp_new p2)|])).
  all: eval_updates; done.
Qed.

(** C9 (as amended): in every session, whatever the options and the
    delivered events, the rendering of a message is written to
    [process.stdout] only and every line about the connection (status,
    diagnostic, error) to [process.stderr] only, and what is on
    [process.stdout] is nothing but renderings of delivered messages.  A
    delivered message writes nothing to [process.stderr] without
    [--verbose]; with it, the handler writes there the diagnostics of
    [message_notes], which carry the topic, the payload size, the QoS and
    the retain flag of the message, the stage that dropped it or the
    running count and the limit, and never the payload. *)
Theorem channels_separated (tps : list string) (o : Opts)
    (evs : list Event) :
  Forall channel_ok (output (session tps o evs))
  ∧ (∀ x, x ∈ on_channel Stdout (output (session tps o evs)) →
      ∃ topic payload packet,
        EvMessage topic payload packet ∈ evs
        ∧ x = Formatted (formatMessage topic payload packet o +:+ newline))
  ∧ ∀ (ctx : Ctx) (s : RunState) topic payload packet,
      exited s = None →
      on_channel Stderr
        (output (dispatch ctx s (EvMessage topic payload packet)))
      = on_channel Stderr (output s)
        ++ (if verbose (opts ctx)
            then map (λ d, Status (Diagnostic d))
                   (message_notes ctx (messageCount s) topic payload packet)
            else []).
Proof.
  split; [|split; [|intros ctx s; apply message_stderr]].
  all: unfold session; pose proof (connect_channels tps o) as F.
  all: pose proof (connect_stdout tps o) as O.
  all: destruct (connect tps o) as [s [ctx|msg|]] eqn:K; simpl in F, O.
  - by apply channel_run.
  - unfold process_exit, stderr_write, write. cbn [output].
    apply Forall_app. split; [done|]. by repeat constructor.
  - done.
  - intros x X.
    destruct (stdout_run ctx evs s x X) as [X0|(e & In' & R)].
    { rewrite O in X0. by apply elem_of_nil in X0. }
    destruct (connect_returned _ _ _ _ K) as (_&_&_&_&_&_&_&_& Oc &_).
    destruct e; simpl in R; try by apply elem_of_nil in R.
    apply list_elem_of_singleton in R. rewrite Oc in R. eauto.
  - unfold process_exit, stderr_write, write. cbn [output].
    rewrite on_channel_app, O. simpl.
    intros x X. by apply elem_of_nil in X.
  - intros x X. rewrite O in X. by apply elem_of_nil in X.
Qed.

(** A topic pattern the engine rejects: one error line on the status
    channel, exit code 1, and [mqttConnect] is never called. *)
Lemma invalid_filter_fatal (tps : list string) (o : Opts) (co : ConnectOpts)
    (p message : string) :
  buildConnectOptions o = inr co →
  keep_truthy (filter o) = Some p →
  RegExp_new p = inl message →
  ∃ s, connect tps o = (s, Exited)
       ∧ exited s = Some 1
       ∧ status_lines (output s) = [InvalidRegex "--filter" p message]
       ∧ on_channel Stdout (output s) = []
       ∧ calls s = [].
Proof.
  intros B F R. unfold connect, compileFilter, has_exited, initial, dbg.
  rewrite B, F, R. destruct (verbose o); eval_updates; eexists; by repeat split.
Qed.

(** The same for the payload pattern. *)
Lemma invalid_payload_filter_fatal (tps : list string) (o : Opts)
    (co : ConnectOpts) (tf : option RegExp) (p message : string) :
  buildConnectOptions o = inr co →
  (∀ s, compileFilter (filter o) "--filter" s = (s, tf)) →
  keep_truthy (payloadFilter o) = Some p →
  RegExp_new p = inl message →
  ∃ s, connect tps o = (s, Exited)
       ∧ exited s = Some 1
       ∧ status_lines (output s) = [InvalidRegex "--payload-filter" p message]
       ∧ on_channel Stdout (output s) = []
       ∧ calls s = [].
Proof.
  intros B T F R. unfold connect. rewrite B, T.
  unfold compileFilter, has_exited, initial, dbg. rewrite F, R.
  destruct (verbose o); eval_updates; eexists; by repeat split.
Qed.

(** A TLS file that cannot be read: the promise of [connect] rejects with
    the read error; the controller has written no error line and has not
    ended the process. *)
Lemma unreadable_material_rejects (tps : list string) (o : Opts)
    (message : string) :
  buildConnectOptions o = inl message →
  ∃ s, connect tps o = (s, Threw message)
       ∧ exited s = None
       ∧ status_lines (output s) = []
       ∧ calls s = [].
Proof.
  intros B. unfold connect, initial, dbg. rewrite B.
  destruct (verbose o); eval_updates; eexists; by repeat split.
Qed.

End Setup_errors.

(** C8 at an unreadable CA file: [connect] ends with its promise rejected,
    nothing written to either channel and no exit code set. *)
Theorem unreadable_ca_escapes :
  connect (H:=bench) ["#"] (with_ca "/etc/mqtt/missing.pem" no_opts)
  = (initial,
     Threw "ENOENT: no such file or directory, open '/etc/mqtt/missing.pem'").
Proof. reflexivity. Qed.

(** C8 at an unterminated group: reported on the status channel, exit code
    1, before any connect attempt. *)
Example unterminated_group_reported :
  connect (H:=bench) ["#"] (with_filter "(" no_opts)
  = (mkRunState 0 0 false false
       [(Stderr,
         Status
           (InvalidRegex "--filter" "("
              "Invalid regular expression: /(/: Unterminated group"))]
       [] 0 [] (Some 1),
     Exited).
Proof. reflexivity. Qed.

Lemma channels_separated_witness :
  let evs := [ack; granted_all; msg "t/a" "1" false; EvOffline;
              EvSignal SIGTERM; EvEnded] in
  Forall channel_ok (output (session (H:=bench) ["#"] no_opts evs))
  ∧ (∀ x, x ∈ on_channel Stdout
                (output (session (H:=bench) ["#"] no_opts evs)) →
      ∃ topic payload packet,
        EvMessage topic payload packet ∈ evs
        ∧ x = Formatted
                (formatMessage (Platform:=bench) topic payload packet no_opts
                 +:+ newline))
  ∧ ∀ (ctx : @Ctx bench) (s : RunState) topic payload packet,
      exited s = None →
      on_channel Stderr
        (output (dispatch ctx s (EvMessage topic payload packet)))
      = on_channel Stderr (output s)
        ++ (if verbose (opts ctx)
            then map (λ d, Status (Diagnostic d))
                   (message_notes ctx (messageCount s) topic payload packet)
            else []).
Proof.
  apply (channels_separated (H:=bench) ["#"] no_opts
           [ack; granted_all; msg "t/a" "1" false; EvOffline;
            EvSignal SIGTERM; EvEnded]).
Defined.

(** C9, as stated, fails: with [--verbose] a forwarded message leaves on
    [process.stderr] diagnostics that carry its topic and the size of its
    payload. *)
Lemma topic_on_status_channel :
  let r := session (H:=bench) ["#"] (with_verbose no_opts)
             [ack; granted_all; msg "t/a" "1" false] in
  on_channel Stdout (output r) = [Formatted ("t/a 1" +:+ newline)]
  ∧ message_diagnostics (output r) = [DMessage "t/a" 1 0 false; DPrinted 1].
Proof. by vm_compute. Qed.

(** The scenario of a subscribe request that fails after a successful
    handshake: exit code 1 and nothing on the message channel. *)
Example subscribe_rejected :
  let r := session (H:=bench) ["#"] no_opts
             [ack; EvSubscribed (inl "Not authorized"); msg "t/a" "1" false] in
  exited r = Some 1
  ∧ on_channel Stdout (output r) = []
  ∧ status_lines (output r)
    = [Connecting bench_url None; Connected bench_url;
       SubscribeError "Not authorized"].
Proof. by vm_compute. Qed.

(** The concrete states and contexts are what [connect] returns. *)
Example connect_on_bench :
  connect (H:=bench) ["#"] (with_count 1 no_opts)
  = (bench_start, Returned (bench_ctx (with_count 1 no_opts) None None))
  ∧ connect (H:=bench) ["#"] (with_filter "temp" (with_retained false no_opts))
    = (bench_start, Returned bench_filtered).
Proof. by split. Qed.

Lemma filter_pipeline_witness :
  let topic := "sensors/humidity" in
  let payload := String.list_byte_of_string "61" in
  let packet := mkPacket 0 true in
  let s := bench_start in
  let r := dispatch bench_filtered s (EvMessage topic payload packet) in
  let seen :=
    dbg (opts bench_filtered)
      (DMessage topic (length payload) (pk_qos packet) (pk_retain packet)) s in
  let fails := stage_fails bench_filtered topic payload packet in
  (∀ st, first_failure bench_filtered topic payload packet = Some st →
     r = dbg (opts bench_filtered) (drop_note st) seen
     ∧ on_channel Stdout (output r) = on_channel Stdout (output s)
     ∧ messageCount r = messageCount s)
  ∧ (first_failure bench_filtered topic payload packet = None →
     on_channel Stdout (output r)
     = on_channel Stdout (output s)
       ++ [Formatted
             (formatMessage (Platform:=bench) topic payload packet
                (opts bench_filtered) +:+ newline)]
     ∧ messageCount r = S (messageCount s))
  ∧ (messageCount r = S (messageCount s)
     ↔ fails RetainedDrop = false ∧ fails TopicFilter = false
       ∧ fails PayloadFilter = false).
Proof.
  apply (filter_pipeline (H:=bench) bench_filtered bench_start
           "sensors/humidity" (String.list_byte_of_string "61")
           (mkPacket 0 true)).
  reflexivity.
Defined.

(** The stage that drops the message of the witness is the first in order,
    although the topic filter fails on it as well. *)
Example first_failure_is_first :
  first_failure bench_filtered "sensors/humidity"
    (String.list_byte_of_string "61") (mkPacket 0 true) = Some RetainedDrop
  ∧ stage_fails bench_filtered "sensors/humidity"
      (String.list_byte_of_string "61") (mkPacket 0 true) TopicFilter = true.
Proof. by vm_compute. Qed.

Lemma subscribe_failure_fatal_witness :
  let ctx := bench_ctx no_opts None None in
  let s := bench_subscribing in
  let r := dispatch ctx s (EvSubscribed (inl "Not authorized")) in
  exited r = Some 1
  ∧ output r = output s ++ [(Stderr, Status (SubscribeError "Not authorized"))]
  ∧ calls r = calls s
  ∧ messageCount r = messageCount s
  ∧ run ctx r [msg "t/a" "1" false; EvEnded] = r.
Proof.
  apply (subscribe_failure_fatal (H:=bench) (bench_ctx no_opts None None)
           bench_subscribing "Not authorized" [msg "t/a" "1" false; EvEnded]).
  - reflexivity.
  - vm_compute. discriminate.
Defined.

Lemma offline_notice_once_witness :
  let ctx := bench_ctx no_opts None None in
  let s := bench_connected in
  let evs := [EvOffline; EvClose; EvReconnect; EvOffline; EvReconnect;
              EvError (mkMqttError "connect ECONNREFUSED" (Some "ECONNREFUSED")
                         None None);
              EvOffline] in
  let r := run ctx s evs in
  offline_notices (output r)
  = offline_notices (output s)
    ++ [if everConnected s then LostConnection (brokerUrl ctx)
        else CannotReach (brokerUrl ctx)]
  ∧ offlineShown r = true
  ∧ status_lines (output (dispatch ctx r EvOffline)) = status_lines (output r)
  ∧ ∀ connack, offlineShown (dispatch ctx r (EvConnect connack)) = false.
Proof.
  apply (offline_notice_once (H:=bench) (bench_ctx no_opts None None)
           bench_connected).
  - reflexivity.
  - repeat constructor.
  - reflexivity.
  - reflexivity.
Defined.

Lemma connect_status_once_witness :
  let ctx := bench_ctx no_opts None None in
  let s := bench_start in
  let evs := [ack; granted_all; EvOffline; EvReconnect; ack; granted_all] in
  let r := run ctx s evs in
  let next := dispatch ctx r (EvConnect (mkConnack true (Some 0))) in
  connect_statuses (output r)
  = connect_statuses (output s) ++ connect_trail (brokerUrl ctx) (connects evs)
  ∧ status_lines (output next)
    = status_lines (output r)
      ++ [if everConnected r then Reconnected (brokerUrl ctx)
          else Connected (brokerUrl ctx)]
  ∧ everConnected next = true
  ∧ offlineShown next = false.
Proof.
  apply (connect_status_once (H:=bench) (bench_ctx no_opts None None)
           bench_start (mkConnack true (Some 0))
           [ack; granted_all; EvOffline; EvReconnect; ack; granted_all]).
  - reflexivity.
  - reflexivity.
Defined.

(** The scenario of a connection lost and restored: one "lost connection"
    notice, then one "reconnected", and "connected" only once. *)
Example lost_then_restored :
  status_lines
    (output (session (H:=bench) ["#"] no_opts
               [ack; granted_all; EvOffline; EvReconnect; EvOffline; ack;
                granted_all]))
  = [Connecting bench_url None; Connected bench_url; Watching "#" 0;
     BlankLine; LostConnection bench_url; Reconnected bench_url;
     Watching "#" 0; BlankLine].
Proof. reflexivity. Qed.

(** * Further properties of the controller *)

Lemma subscribe_requests_app (a b : list ClientCall) :
  subscribe_requests (a ++ b) = subscribe_requests a ++ subscribe_requests b.
Proof. apply omap_app. Qed.

Section More_steps.
Context `{Platform}.
Variable ctx : Ctx.

Lemma trouble_step (s : RunState) (e : Event) :
  exited s = None → is_trouble e = true →
  let r := dispatch ctx s e in
  exited r = None ∧ calls r = calls s
  ∧ on_channel Stdout (output r) = on_channel Stdout (output s)
  ∧ messageCount r = messageCount s
  ∧ endPending r = endPending s
  ∧ subscribePending r = subscribePending s
  ∧ reconnectCount r = reconnectCount s + (if is_reconnect e then 1 else 0).
Proof.
  intros E T. cbv zeta. rewrite (dispatch_running ctx s e E).
  destruct s as [mc rc ec os out cl sp ep ex]; simpl in E; subst ex.
  destruct e as [k|[m|gs]| |err| |rc'| |t p pk| |sg]; try discriminate T;
    destruct ec, os; step_eval ctx; observe; repeat split; try done; lia.
Qed.

(** While the connection is in trouble the controller only watches: it
    keeps running, makes no call on the client, forwards nothing and
    counts the reconnect attempts, however many there are. *)
Theorem trouble_never_fatal (s : RunState) (evs : list Event) :
  exited s = None →
  Forall (λ e, is_trouble e = true) evs →
  let r := run ctx s evs in
  exited r = None
  ∧ calls r = calls s
  ∧ on_channel Stdout (output r) = on_channel Stdout (output s)
  ∧ messageCount r = messageCount s
  ∧ endPending r = endPending s
  ∧ reconnectCount r = reconnectCount s + reconnects evs.
Proof.
  revert s; induction evs as [|e evs IH]; intros s E T; cbv zeta.
  - simpl. repeat split; try done; unfold reconnects; simpl; lia.
  - inversion T as [|? ? Te Tr]; subst. cbn [run].
    destruct (trouble_step s e E Te) as (E1 & C1 & O1 & M1 & P1 & _ & R1).
    destruct (IH _ E1 Tr) as (E2 & C2 & O2 & M2 & P2 & R2).
    rewrite E2, C2, O2, M2, P2, R2, C1, O1, M1, P1, R1.
    repeat split; try done. unfold reconnects; simpl.
    destruct (is_reconnect e); simpl; lia.
Qed.

End More_steps.

Section Subscriptions.
Context `{Platform}.
Variable ctx : Ctx.

Lemma subscribe_fold (ts : list string) (q : Number)
    (m : gmap string Number) (t : string) :
  foldl (λ m t, <[t := q]> m) m ts !! t
  = if decide (t ∈ ts) then Some q else m !! t.
Proof.
  revert m; induction ts as [|u ts IH]; intros m; simpl.
  - destruct (decide (t ∈ [])) as [X|_]; [by apply elem_of_nil in X|done].
  - rewrite IH. destruct (decide (t ∈ ts)) as [I|N].
    + rewrite decide_True; [done|]. apply elem_of_cons; by right.
    + destruct (decide (u = t)) as [->|D].
      * rewrite lookup_insert_eq, decide_True; [done|].
        apply elem_of_cons; by left.
      * rewrite lookup_insert_ne by done. rewrite decide_False; [done|].
        intros [->|X]%elem_of_cons; [done|by apply N].
Qed.

(** The subscribe request names every requested topic, each with the one
    configured QoS, and nothing else; a topic given twice is there once. *)
Theorem subscription_covers_topics (t : string) :
  subscribeTopics ctx !! t
  = if decide (t ∈ topics ctx) then Some (subQos ctx) else None.
Proof. unfold subscribeTopics. by rewrite subscribe_fold, lookup_empty. Qed.

Lemma subscribe_step (s : RunState) (e : Event) :
  exited (dispatch ctx s e) = None →
  subscribe_requests (calls (dispatch ctx s e))
  = subscribe_requests (calls s)
    ++ (if is_connect e then [subscribeTopics ctx] else []).
Proof.
  intros E.
  assert (E0 : exited s = None).
  { destruct (exited s) as [c|] eqn:Es; [|done].
    by rewrite (dispatch_exited ctx s e c Es), Es in E. }
  revert E. rewrite (dispatch_running ctx s e E0).
  destruct s as [mc rc ec os out cl sp ep ex]; simpl in E0; subst ex.
  destruct e as [k|[m|gs]| |err| |rc'| |t p pk| |sg];
    destruct ec, os; step_eval ctx; rewrite ?subscribe_requests_app; simpl;
    rewrite ?app_nil_r; done.
Qed.

(** Every handshake is followed by one subscribe request for the full set
    of topics, the first one and every later one alike, and no other event
    makes a request. *)
Theorem one_subscribe_per_handshake (s : RunState) (evs : list Event) :
  exited (run ctx s evs) = None →
  subscribe_requests (calls (run ctx s evs))
  = subscribe_requests (calls s)
    ++ replicate (connects evs) (subscribeTopics ctx).
Proof.
  revert s; induction evs as [|e evs IH]; intros s E; simpl.
  - by rewrite app_nil_r.
  - simpl in E. rewrite (IH _ E).
    rewrite (subscribe_step s e (alive_before ctx evs _ E)).
    unfold connects; simpl. destruct (is_connect e); simpl;
      by rewrite <- ?app_assoc, ?app_nil_r.
Qed.

(** The answer to a subscribe request, when it is no error, is reported
    topic by topic with the QoS the broker granted, in the broker's order,
    and closed by a blank line; it changes nothing else. *)
Theorem granted_reported (s : RunState) (gs : list Granted) :
  exited s = None →
  subscribePending s ≠ 0 →
  let r := dispatch ctx s (EvSubscribed (inr gs)) in
  status_lines (output r)
  = status_lines (output s)
    ++ map (λ g, Watching (g_topic g) (g_qos g)) gs ++ [BlankLine]
  ∧ exited r = None
  ∧ calls r = calls s
  ∧ on_channel Stdout (output r) = on_channel Stdout (output s)
  ∧ subscribePending r = pred (subscribePending s).
Proof.
  intros E P. cbv zeta. rewrite (dispatch_running ctx s _ E).
  assert (W : ∀ o, status_lines (watch_lines o gs)
                   = map (λ g, Watching (g_topic g) (g_qos g)) gs).
  { intros o. induction gs as [|g gs' IH]; [done|].
    unfold watch_lines in *; simpl. rewrite !status_lines_app, IH.
    by destruct (verbose o). }
  destruct s as [mc rc ec os out cl sp ep ex]; simpl in E, P; subst ex.
  destruct sp; [done|]. step_eval ctx; observe; rewrite W;
    rewrite <- ?app_assoc; done.
Qed.

End Subscriptions.

Section Invariants.
Context `{Platform}.

Lemma quiet_watch_lines (o : Opts) (gs : list Granted) :
  verbose o = false → Forall (λ x, shows_trace x = false) (watch_lines o gs).
Proof.
  intros V. unfold watch_lines. rewrite V.
  induction gs as [|g gs IH]; simpl; by constructor.
Qed.

Lemma quiet_step (ctx : Ctx) (s : RunState) (e : Event) :
  verbose (opts ctx) = false →
  Forall (λ x, shows_trace x = false) (output s) →
  Forall (λ x, shows_trace x = false) (output (dispatch ctx s e)).
Proof.
  intros V F. destruct (exited s) as [c|] eqn:E.
  { by rewrite (dispatch_exited ctx s e c E). }
  rewrite (dispatch_running ctx s e E). revert F.
  destruct s as [mc rc ec os out cl sp ep ex]; simpl in E; subst ex.
  destruct e as [k|[m|gs]| |err| |rc'| |t p pk| |sg];
    destruct ec, os; step_eval ctx; try congruence; cbn [output]; intros F;
    rewrite ?Forall_app; repeat split;
    auto using quiet_watch_lines; by repeat constructor.
Qed.

Lemma quiet_connect (tps : list string) (o : Opts) :
  verbose o = false →
  Forall (λ x, shows_trace x = false) (output (connect tps o).1).
Proof.
  intros V. unfold connect, compileFilter, has_exited, initial, dbg.
  rewrite V. destruct (buildConnectOptions o) as [msg|co].
  all: try (destruct (keep_truthy (filter o)) as [p1|];
    [destruct (RegExp_new p1)|];
    (destruct (keep_truthy (payloadFilter o)) as [p2|];
     [destruct (RegExp_new p2)|])).
  all: eval_updates; simpl; by repeat constructor.
Qed.

Lemma connect_threw (tps : list string) (o : Opts) (s : RunState)
    (e : string) :
  connect tps o = (s, Threw e) → buildConnectOptions o = inl e.
Proof.
  unfold connect. destruct (buildConnectOptions o) as [m|co].
  - by intros [= _ ->].
  - destruct (compileFilter _ _ _) as [s1 tf]. destruct (has_exited s1);
      [done|].
    destruct (compileFilter _ _ _) as [s2 pf]. by destruct (has_exited s2).
Qed.

(** Without [--verbose] a session writes no diagnostic line and no stack
    trace of its own, whatever is delivered.  The one line that shows
    internals is not the controller's: when a TLS file cannot be read,
    nothing catches the rejection of [connect] and Node reports the error
    with its stack. *)
Theorem quiet_without_verbose (tps : list string) (o : Opts)
    (evs : list Event) :
  verbose o = false →
  Forall (λ x, shows_trace x = true →
               ∃ e, buildConnectOptions o = inl e
                    ∧ x = (Stderr, Status (UncaughtError e)))
    (output (session tps o evs)).
Proof.
  intros V.
  assert (Q : ∀ w, Forall (λ x, shows_trace x = false) w →
                   Forall (λ x, shows_trace x = true →
                                ∃ e, buildConnectOptions o = inl e
                                     ∧ x = (Stderr, Status (UncaughtError e)))
                     w).
  { intros w F. eapply Forall_impl; [exact F|]. by intros x ->. }
  unfold session. pose proof (quiet_connect tps o V) as F.
  destruct (connect tps o) as [s [ctx|msg|]] eqn:K; simpl in F.
  - apply Q.
    destruct (connect_returned _ _ _ _ K) as (_&_&_&_&_&_&_&_& Oc &_).
    rewrite <- Oc in V. clear K Oc Q.
    revert s F; induction evs as [|e evs IH]; intros s F; simpl; [done|].
    by apply IH, quiet_step.
  - unfold process_exit, stderr_write, write. cbn [output].
    apply Forall_app. split; [by apply Q|].
    constructor; [|done]. intros _. exists msg.
    split; [by apply (connect_threw tps o s)|done].
  - by apply Q.
Qed.

Lemma count_step (ctx : Ctx) (s : RunState) (e : Event) :
  messageCount s = length (on_channel Stdout (output s)) →
  messageCount (dispatch ctx s e)
  = length (on_channel Stdout (output (dispatch ctx s e))).
Proof.
  intros I. destruct (exited s) as [c|] eqn:E.
  { by rewrite (dispatch_exited ctx s e c E). }
  rewrite (dispatch_running ctx s e E). revert I.
  destruct s as [mc rc ec os out cl sp ep ex]; simpl in E; subst ex.
  destruct e as [k|[m|gs]| |err| |rc'| |t p pk| |sg];
    destruct ec, os; step_eval ctx; observe; rewrite ?length_app; simpl;
    intros ->; lia.
Qed.

(** [messageCount] is at every moment the number of writes to the message
    channel: every forwarded message is one write of its rendering, which
    may hold several lines, and nothing else is written there. *)
Theorem count_is_writes (tps : list string) (o : Opts) (evs : list Event) :
  messageCount (session tps o evs)
  = length (on_channel Stdout (output (session tps o evs))).
Proof.
  unfold session. pose proof (connect_stdout tps o) as O.
  destruct (connect tps o) as [s [ctx|msg|]] eqn:K; simpl in O.
  - destruct (connect_returned _ _ _ _ K) as (M0 &_).
    assert (I : messageCount s = length (on_channel Stdout (output s)))
      by (by rewrite M0, O).
    clear K O M0. revert s I; induction evs as [|e evs IH]; intros s I;
      simpl; [done|]. by apply IH, count_step.
  - unfold process_exit, stderr_write, write.
    cbn [output messageCount]. rewrite on_channel_app, O. simpl.
    revert K. unfold connect. destruct (buildConnectOptions o); [|
      destruct (compileFilter _ _ _) as [s1 tf]; destruct (has_exited s1);
      [|destruct (compileFilter _ _ _) as [s2 pf]; destruct (has_exited s2)]];
      intros K; simplify_eq.
    unfold dbg. by destruct (verbose o).
  - revert K O. unfold connect, compileFilter, initial, has_exited, dbg.
    destruct (verbose o), (buildConnectOptions o) as [m|co]; try discriminate.
    all: destruct (keep_truthy (filter o)) as [p1|];
      [destruct (RegExp_new p1)|];
      (destruct (keep_truthy (payloadFilter o)) as [p2|];
       [destruct (RegExp_new p2)|]).
    all: eval_updates; intros K; simplify_eq; done.
Qed.

End Invariants.

Section Exit_codes.
Context `{Platform}.

Lemma exits_step (ctx : Ctx) (s : RunState) (e : Event) :
  exits_sound s → exits_sound (dispatch ctx s e).
Proof.
  intros I. destruct (exited s) as [c|] eqn:E.
  { by rewrite (dispatch_exited ctx s e c E). }
  rewrite (dispatch_running ctx s e E). revert I. unfold exits_sound, exit_accounted.
  destruct s as [mc rc ec os out cl sp ep ex]; simpl in E; subst ex.
  destruct e as [k|[m|gs]| |err| |rc'| |t p pk| |sg];
    destruct ec, os; step_eval ctx; observe; cbn [length];
    rewrite ?Forall_app, ?Forall_cons, ?length_app; cbn [length];
    intros (F & L & _); repeat split; try done; try lia;
    try by repeat constructor.
  all: try (change (graceful_ends [ClientEnd false]) with 1; lia).
  all: try (by destruct F).
  all: try (destruct F as [-> F]; simpl in *; repeat split; try done; lia).
  all: try (eexists; split; [apply last_snoc|done]).
Qed.

Lemma exits_connect (tps : list string) (o : Opts) :
  exits_sound (connect tps o).1.
Proof.
  unfold connect, compileFilter, has_exited, initial, dbg, exits_sound,
    exit_accounted.
  destruct (verbose o), (buildConnectOptions o) as [msg|co].
  all: try (destruct (keep_truthy (filter o)) as [p1|];
    [destruct (RegExp_new p1)|];
    (destruct (keep_truthy (payloadFilter o)) as [p2|];
     [destruct (RegExp_new p2)|])).
  all: eval_updates; simpl; repeat split; try done; try by constructor.
  all: eexists; split; [reflexivity|reflexivity].
Qed.

(** An unreadable file of TLS material: the promise of [connect] rejects
    before any call on the client, Node writes its report as the last line
    on [process.stderr] and the process ends with exit status 1, whatever
    would have been delivered. *)
Lemma rejection_reported (tps : list string) (o : Opts) (evs : list Event)
    (e : string) :
  buildConnectOptions o = inl e →
  let r := session tps o evs in
  exited r = Some 1
  ∧ last (output r) = Some (Stderr, Status (UncaughtError e))
  ∧ on_channel Stdout (output r) = []
  ∧ calls r = [].
Proof.
  intros B. unfold session, connect, initial, dbg. rewrite B.
  destruct (verbose o); eval_updates; by repeat split.
Qed.

(** The exit code of a session is 0 or 1.  It is 0 only after a graceful
    disconnect, [client.end(false, ...)], was requested (by a signal or by
    the count limit); it is 1 only with an invalid-pattern line, a
    subscribe-error line or Node's report of the uncaught rejection of
    [connect] as the last status written. *)
Theorem exit_code_accounted (tps : list string) (o : Opts)
    (evs : list Event) (c : nat) :
  exited (session tps o evs) = Some c →
  (c = 0 ∧ 1 ≤ graceful_ends (calls (session tps o evs)))
  ∨ (c = 1
     ∧ ∃ l, last (status_lines (output (session tps o evs))) = Some l
            ∧ fatal_line l = true).
Proof.
  assert (I : exit_accounted (session tps o evs)).
  { unfold session. pose proof (exits_connect tps o) as I.
    destruct (connect tps o) as [s [ctx|msg|]]; simpl in I.
    - assert (exits_sound (run ctx s evs)) as (_ & _ & A); [|done].
      revert s I; induction evs as [|e evs IH]; intros s I; simpl; [done|].
      by apply IH, exits_step.
    - unfold exit_accounted, process_exit, stderr_write, write.
      cbn [exited output]. rewrite status_lines_app. simpl.
      eexists. split; [apply last_snoc|done].
    - by destruct I as (_ & _ & A). }
  unfold exit_accounted in I. intros E.
  rewrite E in I. destruct c as [|[|c]]; [by left|by right|done].
Qed.

End Exit_codes.

Section Builders.
Context `{Platform}.

Lemma read_material_spec (path : option string) (r : option Buffer) :
  read_material path = inr r →
  ∀ b, r = Some b ↔ ∃ p, keep_truthy path = Some p ∧ readFile p = inr b.
Proof.
  unfold read_material, keep_truthy, truthy_str.
  destruct path as [p|]; simpl.
  - destruct (str_empty p); simpl.
    + intros [= <-] b. split; [done|]. by intros (q & ? & _).
    + destruct (readFile p) as [e|c] eqn:R; simpl; [done|].
      intros [= <-] b. split.
      * intros [= ->]. by exists p.
      * intros (q & [= <-] & R'). rewrite R in R'. by injection R' as ->.
  - intros [= <-] b. split; [done|]. by intros (q & ? & _).
Qed.

Lemma read_material_error (path : option string) (e : string) :
  read_material path = inl e →
  ∃ p, keep_truthy path = Some p ∧ readFile p = inl e.
Proof.
  unfold read_material, keep_truthy, truthy_str.
  destruct path as [p|]; simpl; [|done].
  destruct (str_empty p); simpl; [done|].
  destruct (readFile p) as [e'|c] eqn:R; simpl; [|done].
  intros [= ->]. by exists p.
Qed.

(** The connect options carry the contents of exactly the TLS files that
    are named, certificate checking is on exactly in TLS mode, and the
    session is always clean with a reconnect period of 2000 ms and a
    connect timeout of 10000 ms. *)
Theorem connect_options_built (o : Opts) (co : ConnectOpts) :
  buildConnectOptions o = inr co →
  (∀ b, co_ca co = Some b ↔ ∃ p, keep_truthy (ca o) = Some p ∧ readFile p = inr b)
  ∧ (∀ b, co_cert co = Some b
          ↔ ∃ p, keep_truthy (cert o) = Some p ∧ readFile p = inr b)
  ∧ (∀ b, co_key co = Some b
          ↔ ∃ p, keep_truthy (key o) = Some p ∧ readFile p = inr b)
  ∧ co_rejectUnauthorized co = wants_tls o
  ∧ co_username co = keep_truthy (username o)
  ∧ co_password co = keep_truthy (password o)
  ∧ co_clean co = true
  ∧ co_reconnectPeriod co = 2000%N
  ∧ co_connectTimeout co = 10000%N.
Proof.
  unfold buildConnectOptions. destruct (wants_tls o) eqn:W.
  - destruct (read_material (ca o)) as [e|c] eqn:Rc; simpl; [done|].
    destruct (read_material (cert o)) as [e|k] eqn:Rk; simpl; [done|].
    destruct (read_material (key o)) as [e|p] eqn:Rp; simpl; [done|].
    intros [= <-]; simpl.
    repeat split; try done; by apply read_material_spec.
  - intros [= <-]; simpl.
    unfold wants_tls in W.
    apply orb_false_iff in W as [W Wk]. apply orb_false_iff in W as [W Wc].
    apply orb_false_iff in W as [_ Wa].
    unfold keep_truthy. rewrite Wa, Wc, Wk.
    repeat split; try done; by intros (p & ? & _).
Qed.

(** Building the connect options fails only on a TLS file that is named
    and cannot be read, with the error of that read: the first such file
    in the order CA, certificate, key. *)
Theorem connect_options_error (o : Opts) (e : string) :
  buildConnectOptions o = inl e →
  (∃ p, keep_truthy (ca o) = Some p ∧ readFile p = inl e)
  ∨ ((∃ c, read_material (ca o) = inr c)
     ∧ ∃ p, keep_truthy (cert o) = Some p ∧ readFile p = inl e)
  ∨ ((∃ c, read_material (ca o) = inr c)
     ∧ (∃ k, read_material (cert o) = inr k)
     ∧ ∃ p, keep_truthy (key o) = Some p ∧ readFile p = inl e).
Proof.
  unfold buildConnectOptions. destruct (wants_tls o); [|done].
  destruct (read_material (ca o)) as [e1|c] eqn:Rc; simpl.
  { intros [= ->]. left. by apply read_material_error. }
  destruct (read_material (cert o)) as [e2|k] eqn:Rk; simpl.
  { intros [= ->]. right; left. split; [by exists c|].
    by apply read_material_error. }
  destruct (read_material (key o)) as [e3|p] eqn:Rp; simpl; [|done].
  intros [= ->]. right; right. split; [by exists c|]. split; [by exists k|].
  by apply read_material_error.
Qed.

Lemma prefix_append (a r : string) : String.prefix a (a +:+ r) = true.
Proof.
  induction a as [|c a IH]; simpl; [by destruct r|].
  unfold String.append; fold String.append. simpl.
  by destruct (ascii_dec c c).
Qed.

Lemma built_rejectUnauthorized (o : Opts) (co : ConnectOpts) :
  buildConnectOptions o = inr co → co_rejectUnauthorized co = wants_tls o.
Proof.
  unfold buildConnectOptions. destruct (wants_tls o).
  - destruct (read_material (ca o)) as [e|c]; simpl; [done|].
    destruct (read_material (cert o)) as [e|k]; simpl; [done|].
    destruct (read_material (key o)) as [e|p]; simpl; [done|].
    by intros [= <-].
  - by intros [= <-].
Qed.

(** The scheme of the broker URL and the connect options agree: the URL
    starts with mqtts:// exactly when certificate checking is on. *)
Theorem url_scheme_matches_options (o : Opts) (co : ConnectOpts) :
  buildConnectOptions o = inr co →
  String.prefix "mqtts://" (buildBrokerUrl o) = co_rejectUnauthorized co
  ∧ String.prefix "mqtt://" (buildBrokerUrl o)
    = negb (co_rejectUnauthorized co).
Proof.
  intros B. rewrite (built_rejectUnauthorized o co B).
  unfold buildBrokerUrl.
  set (rest := _ +:+ ":" +:+ _). destruct (wants_tls o); split.
  - apply (prefix_append "mqtts://" rest).
  - reflexivity.
  - reflexivity.
  - apply (prefix_append "mqtt://" rest).
Qed.

End Builders.

Section Startup.
Context `{Platform}.

(** With readable TLS files and patterns the engine accepts, [connect]
    returns with the handlers registered: the one status line written is
    the "Connecting to ..." line with the built URL, [mqttConnect] has been
    called once with that URL and the built options, nothing has gone to
    the message channel, and the run starts with both filters compiled as
    given, no message counted and the limit read from the count. *)
Theorem connect_starts (tps : list string) (o : Opts) (co : ConnectOpts)
    (tf pf : option RegExp) :
  buildConnectOptions o = inr co →
  compiles (filter o) tf →
  compiles (payloadFilter o) pf →
  ∃ s, connect tps o
       = (s, Returned
               (mkCtx tps o (buildBrokerUrl o) co
                  (parseInt (default (VNum (Int 0)) (qos o))) tf pf
                  (limit_of o)))
       ∧ status_lines (output s)
         = [Connecting (buildBrokerUrl o) (co_username co)]
       ∧ on_channel Stdout (output s) = []
       ∧ calls s = [MqttConnect (buildBrokerUrl o) co]
       ∧ messageCount s = 0 ∧ exited s = None.
Proof.
  intros B T P. unfold connect, compileFilter, has_exited, initial, dbg.
  rewrite B. unfold compiles in T, P.
  destruct (keep_truthy (filter o)) as [p1|];
    [destruct T as (re1 & -> & ->)|subst tf];
    (destruct (keep_truthy (payloadFilter o)) as [p2|];
     [destruct P as (re2 & -> & ->)|subst pf]).
  all: destruct (verbose o); eval_updates; eexists; by repeat split.
Qed.

End Startup.
(** ** The further properties on the concrete platform *)

Lemma trouble_never_fatal_witness :
  let ctx := bench_ctx no_opts None None in
  let evs := [EvOffline; EvReconnect; EvClose; EvReconnect] in
  let r := run ctx bench_connected evs in
  exited r = None
  ∧ calls r = calls bench_connected
  ∧ on_channel Stdout (output r) = on_channel Stdout (output bench_connected)
  ∧ messageCount r = messageCount bench_connected
  ∧ endPending r = endPending bench_connected
  ∧ reconnectCount r = reconnectCount bench_connected + reconnects evs.
Proof.
  apply (trouble_never_fatal (H:=bench) (bench_ctx no_opts None None)
           bench_connected [EvOffline; EvReconnect; EvClose; EvReconnect]).
  - reflexivity.
  - repeat constructor.
Defined.

Lemma one_subscribe_per_handshake_witness :
  let ctx := bench_ctx no_opts None None in
  let evs := [ack; granted_all; EvOffline; ack; granted_all] in
  subscribe_requests (calls (run ctx bench_start evs))
  = subscribe_requests (calls bench_start)
    ++ replicate (connects evs) (subscribeTopics ctx).
Proof.
  apply (one_subscribe_per_handshake (H:=bench)
           (bench_ctx no_opts None None) bench_start
           [ack; granted_all; EvOffline; ack; granted_all]).
  reflexivity.
Defined.

Lemma granted_reported_witness :
  let ctx := bench_ctx no_opts None None in
  let gs := [mkGranted "sensors/#" 1; mkGranted "control/+" 0] in
  let r := dispatch ctx bench_subscribing (EvSubscribed (inr gs)) in
  status_lines (output r)
  = status_lines (output bench_subscribing)
    ++ map (λ g, Watching (g_topic g) (g_qos g)) gs ++ [BlankLine]
  ∧ exited r = None
  ∧ calls r = calls bench_subscribing
  ∧ on_channel Stdout (output r)
    = on_channel Stdout (output bench_subscribing)
  ∧ subscribePending r = pred (subscribePending bench_subscribing).
Proof.
  apply (granted_reported (H:=bench) (bench_ctx no_opts None None)
           bench_subscribing
           [mkGranted "sensors/#" 1; mkGranted "control/+" 0]).
  - reflexivity.
  - vm_compute. discriminate.
Defined.

Lemma quiet_without_verbose_witness :
  Forall (λ x, shows_trace x = true →
               ∃ e, buildConnectOptions (H:=bench)
                      (with_ca "/etc/mqtt/ca.pem" no_opts) = inl e
                    ∧ x = (Stderr, Status (UncaughtError e)))
    (output (session (H:=bench) ["#"] (with_ca "/etc/mqtt/ca.pem" no_opts)
               [ack; granted_all; msg "t/a" "1" false;
                EvError (mkMqttError "read ECONNRESET" (Some "ECONNRESET") None
                           (Some "Error: read ECONNRESET"));
                EvSignal SIGINT; EvEnded])).
Proof.
  apply (quiet_without_verbose (H:=bench) ["#"]
           (with_ca "/etc/mqtt/ca.pem" no_opts)).
  reflexivity.
Defined.

(** The scenario of a CA file that does not exist: nothing but Node's
    report is written, and the exit status is 1. *)
Example unreadable_ca_session :
  let r := session (H:=bench) ["#"]
             (with_ca "/etc/mqtt/missing.pem" no_opts)
             [ack; granted_all; msg "t/a" "1" false] in
  exited r = Some 1
  ∧ output r
    = [(Stderr,
        Status
          (UncaughtError
             "ENOENT: no such file or directory, open '/etc/mqtt/missing.pem'"))]
  ∧ calls r = [].
Proof. by vm_compute. Qed.

Lemma exit_code_accounted_witness :
  let r := session (H:=bench) ["#"] (with_count 1 no_opts)
             [ack; granted_all; msg "t/a" "1" false; EvEnded] in
  (0 = 0 ∧ 1 ≤ graceful_ends (calls r))
  ∨ (0 = 1
     ∧ ∃ l, last (status_lines (output r)) = Some l ∧ fatal_line l = true).
Proof.
  apply (exit_code_accounted (H:=bench) ["#"] (with_count 1 no_opts)
           [ack; granted_all; msg "t/a" "1" false; EvEnded] 0).
  reflexivity.
Defined.

Lemma connect_options_built_witness :
  let o := with_ca "/etc/mqtt/ca.pem" no_opts in
  let co := mkConnectOpts "mqtt-tail-3fa9c1" true 2000 10000 None None true
              (Some (String.list_byte_of_string "-----BEGIN CERTIFICATE-----"))
              None None in
  (∀ b, co_ca co = Some b
        ↔ ∃ p, keep_truthy (ca o) = Some p ∧ readFile (Platform:=bench) p = inr b)
  ∧ (∀ b, co_cert co = Some b
          ↔ ∃ p, keep_truthy (cert o) = Some p
                 ∧ readFile (Platform:=bench) p = inr b)
  ∧ (∀ b, co_key co = Some b
          ↔ ∃ p, keep_truthy (key o) = Some p
                 ∧ readFile (Platform:=bench) p = inr b)
  ∧ co_rejectUnauthorized co = wants_tls o
  ∧ co_username co = keep_truthy (username o)
  ∧ co_password co = keep_truthy (password o)
  ∧ co_clean co = true
  ∧ co_reconnectPeriod co = 2000%N
  ∧ co_connectTimeout co = 10000%N.
Proof.
  apply (connect_options_built (H:=bench)
           (with_ca "/etc/mqtt/ca.pem" no_opts)).
  reflexivity.
Defined.

Lemma connect_options_error_witness :
  let o := with_ca "/etc/mqtt/missing.pem" no_opts in
  let e := "ENOENT: no such file or directory, open '/etc/mqtt/missing.pem'" in
  (∃ p, keep_truthy (ca o) = Some p ∧ readFile (Platform:=bench) p = inl e)
  ∨ ((∃ c, read_material (H:=bench) (ca o) = inr c)
     ∧ ∃ p, keep_truthy (cert o) = Some p
            ∧ readFile (Platform:=bench) p = inl e)
  ∨ ((∃ c, read_material (H:=bench) (ca o) = inr c)
     ∧ (∃ k, read_material (H:=bench) (cert o) = inr k)
     ∧ ∃ p, keep_truthy (key o) = Some p
            ∧ readFile (Platform:=bench) p = inl e).
Proof.
  apply (connect_options_error (H:=bench)
           (with_ca "/etc/mqtt/missing.pem" no_opts)).
  reflexivity.
Defined.

Lemma url_scheme_matches_options_witness :
  let o := with_ca "/etc/mqtt/ca.pem" no_opts in
  let co := mkConnectOpts "mqtt-tail-3fa9c1" true 2000 10000 None None true
              (Some (String.list_byte_of_string "-----BEGIN CERTIFICATE-----"))
              None None in
  String.prefix "mqtts://" (buildBrokerUrl (H:=bench) o)
  = co_rejectUnauthorized co
  ∧ String.prefix "mqtt://" (buildBrokerUrl (H:=bench) o)
    = negb (co_rejectUnauthorized co).
Proof.
  apply (url_scheme_matches_options (H:=bench)
           (with_ca "/etc/mqtt/ca.pem" no_opts)).
  reflexivity.
Defined.

Lemma connect_starts_witness :
  let o := with_filter "temp" no_opts in
  ∃ s, connect (H:=bench) ["sensors/#"] o
       = (s, Returned
               (mkCtx (H:=bench) ["sensors/#"] o
                  (buildBrokerUrl (H:=bench) o) bench_connectOpts
                  (parseInt (H:=bench) (default (VNum (Int 0)) (qos o)))
                  (Some "temp") None (limit_of (H:=bench) o)))
       ∧ status_lines (output s)
         = [Connecting (buildBrokerUrl (H:=bench) o)
              (co_username bench_connectOpts)]
       ∧ on_channel Stdout (output s) = []
       ∧ calls s
         = [MqttConnect (buildBrokerUrl (H:=bench) o) bench_connectOpts]
       ∧ messageCount s = 0 ∧ exited s = None.
Proof.
  apply (connect_starts (H:=bench) ["sensors/#"] (with_filter "temp" no_opts)
           bench_connectOpts (Some "temp") None).
  - reflexivity.
  - simpl. by exists "temp".
  - reflexivity.
Defined.

(** * Properties of the formatter *)

Import Formatter.

Lemma plain_text (u : Units) : plain (text u) = u.
Proof. unfold plain, text. rewrite map_map. simpl. apply map_id. Qed.

Lemma plain_chalk (st : Style) (s : Styled) : plain (chalk st s) = plain s.
Proof. unfold plain, chalk. by rewrite map_map. Qed.

Lemma plain_app (a b : Styled) : plain (a ++ b) = plain a ++ plain b.
Proof. apply map_app. Qed.

Lemma to_int32_range (z : Z) :
  (- 2147483648 ≤ to_int32 z < 2147483648)%Z.
Proof.
  unfold to_int32.
  pose proof (Z.mod_pos_bound (z + 2147483648) 4294967296 eq_refl). lia.
Qed.

Lemma hash_loop_range (topic : Units) :
  (- 2147483648 ≤ hash_loop topic < 2147483648)%Z.
Proof.
  unfold hash_loop.
  assert (G : ∀ h, (- 2147483648 ≤ h < 2147483648)%Z →
              (- 2147483648 ≤ foldl hash_step h topic < 2147483648)%Z).
  { induction topic as [|c t IH]; intros h R; simpl; [done|].
    apply IH. apply to_int32_range. }
  apply G. lia.
Qed.

Lemma hashTopic_range (topic : Units) :
  (0 ≤ hashTopic topic < Z.of_nat (length TOPIC_COLORS))%Z.
Proof.
  unfold hashTopic. simpl length.
  pose proof (Z.abs_nonneg (hash_loop topic)).
  rewrite Z.rem_mod_nonneg by lia.
  apply Z.mod_pos_bound. lia.
Qed.

(** [hashTopic] always lands on an entry of [TOPIC_COLORS], also on the
    hash -2^31 whose absolute value is no 32-bit integer: every topic has a
    colour and [colorTopic] never calls [undefined]; what it returns reads
    as the topic itself. *)
Theorem topic_colour_defined (topic : Units) :
  (0 ≤ hashTopic topic < Z.of_nat (length TOPIC_COLORS))%Z
  ∧ ∃ st, topicColor topic = Some st
          ∧ st ∈ TOPIC_COLORS
          ∧ colorTopic topic = Some (chalk st (text topic))
          ∧ plain (chalk st (text topic)) = topic.
Proof.
  pose proof (hashTopic_range topic) as B.
  split; [done|]. unfold colorTopic, topicColor.
  destruct (Z.ltb_spec (hashTopic topic) 0); [lia|].
  destruct (TOPIC_COLORS !! Z.to_nat (hashTopic topic)) as [st|] eqn:L.
  - exists st. repeat split; try done.
    + by apply list_elem_of_lookup_2 in L.
    + by rewrite plain_chalk, plain_text.
  - apply lookup_ge_None in L. lia.
Qed.

(** ** [colorizeJson] *)

Lemma scan_string_split (s : Units) :
  (scan_string s).1 ++ (scan_string s).2 = s
  ∧ length (scan_string s).2 ≤ length s.
Proof.
  induction s as [s IH] using (induction_ltof1 _ (@length N)).
  unfold ltof in IH. destruct s as [|c r]; simpl; [done|].
  destruct (c =? 92)%N.
  - destruct r as [|d r']; simpl; [split; [done|lia]|].
    destruct (IH r') as [E L]; [simpl; lia|].
    destruct (scan_string r') as [t rest]; simpl in *.
    split; [by rewrite E|lia].
  - destruct (c =? 34)%N; simpl; [split; [done|lia]|].
    destruct (IH r) as [E L]; [simpl; lia|].
    destruct (scan_string r) as [t rest]; simpl in *.
    split; [by rewrite E|lia].
Qed.

Lemma digits_split (s : Units) :
  (digits s).1 ++ (digits s).2 = s.
Proof.
  induction s as [|c r IH]; simpl; [done|].
  destruct (is_digit c); [|done].
  destruct (digits r) as [d rest]; simpl in *. by rewrite IH.
Qed.

Lemma fraction_split (s : Units) :
  (fraction s).1 ++ (fraction s).2 = s.
Proof.
  destruct s as [|c r]; simpl; [done|].
  destruct (c =? 46)%N; [|done].
  pose proof (digits_split r) as D.
  destruct (digits r) as [[|d ds] rest]; simpl in *; [done|by rewrite D].
Qed.

Lemma exponent_split (s : Units) :
  (exponent s).1 ++ (exponent s).2 = s.
Proof.
  destruct s as [|c r]; simpl; [done|].
  destruct ((c =? 101) || (c =? 69))%N; [|done].
  destruct r as [|g r'']; simpl; [done|].
  destruct ((g =? 43) || (g =? 45))%N.
  - pose proof (digits_split r'') as D.
    destruct (digits r'') as [[|d ds] rest] eqn:Dg; simpl in *.
    + destruct (is_digit g); rewrite ?Dg; simpl; by rewrite ?D.
    + rewrite Dg; simpl. by rewrite <- D.
  - pose proof (digits_split (g :: r'')) as D.
    destruct (digits (g :: r'')) as [[|d ds] rest]; simpl in *;
      [done|by rewrite D].
Qed.

Lemma match_number_split (s num rest : Units) :
  match_number s = Some (num, rest) → num ++ rest = s ∧ num ≠ [].
Proof.
  unfold match_number.
  set (sr := match s with
             | c :: r => if (c =? 45)%N then ([c], r) else ([], s)
             | [] => ([], s)
             end).
  assert (S0 : sr.1 ++ sr.2 = s).
  { unfold sr. destruct s as [|c r]; [done|]. by destruct (c =? 45)%N. }
  destruct sr as [sign r]; simpl in S0.
  pose proof (digits_split r) as D.
  destruct (digits r) as [[|d ds] r1]; simpl in D; [done|].
  pose proof (fraction_split r1) as F.
  destruct (fraction r1) as [f r2]; simpl in F.
  pose proof (exponent_split r2) as X.
  destruct (exponent r2) as [e r3]; simpl in X.
  intros [= <- <-]. split.
  - rewrite <- S0, <- D, <- F, <- X.
    rewrite <- !app_assoc. simpl. by rewrite <- !app_assoc.
  - destruct sign; done.
Qed.

Lemma strip_prefix_split (word s rest : Units) :
  strip_prefix word s = Some rest → word ++ rest = s.
Proof.
  revert s; induction word as [|w word IH]; intros s; simpl.
  - by intros [= ->].
  - destruct s as [|c s']; [done|].
    destruct (N.eqb_spec w c) as [->|]; [|done].
    intros E. by rewrite (IH _ E).
Qed.

(** One round pushes the text of a non-empty stretch of the string and
    goes on behind it. *)
Lemma colorize_step_split (ch : N) (r : Units) :
  plain (colorize_step ch r).1 ++ (colorize_step ch r).2 = ch :: r
  ∧ length (colorize_step ch r).2 ≤ length r.
Proof.
  unfold colorize_step.
  destruct (is_ws ch); [simpl; split; [done|lia]|].
  destruct (ch =? 34)%N.
  { destruct (scan_string_split r) as [E L].
    destruct (scan_string r) as [body rest]; simpl in *.
    rewrite plain_chalk, plain_text. simpl. by rewrite E. }
  destruct (match_number (ch :: r)) as [[num rest]|] eqn:M.
  { apply match_number_split in M as [E NE]. simpl.
    rewrite plain_chalk, plain_text. split; [done|].
    destruct num as [|n num]; [done|]. simpl in E.
    injection E as _ E. rewrite <- E, length_app. lia. }
  destruct (strip_prefix (units_of "true") (ch :: r)) as [rest|] eqn:T.
  { apply strip_prefix_split in T. cbn [fst snd].
    rewrite plain_chalk, plain_text. split; [done|].
    simpl in T. injection T as _ T. rewrite <- T. simpl. lia. }
  destruct (strip_prefix (units_of "false") (ch :: r)) as [rest|] eqn:F.
  { apply strip_prefix_split in F. cbn [fst snd].
    rewrite plain_chalk, plain_text. split; [done|].
    simpl in F. injection F as _ F. rewrite <- F. simpl. lia. }
  destruct (strip_prefix (units_of "null") (ch :: r)) as [rest|] eqn:U.
  { apply strip_prefix_split in U. cbn [fst snd].
    rewrite plain_chalk, plain_text. split; [done|].
    simpl in U. injection U as _ U. rewrite <- U. simpl. lia. }
  destruct (is_punct ch); simpl; (split; [done|lia]).
Qed.

Lemma colorize_plain (rounds : nat) (s : Units) :
  length s ≤ rounds → plain (colorize rounds s) = s.
Proof.
  revert s; induction rounds as [|n IH]; intros s L.
  - destruct s; [done|simpl in L; lia].
  - destruct s as [|ch r]; [done|]. simpl.
    destruct (colorize_step_split ch r) as [E Lr].
    destruct (colorize_step ch r) as [pushed rest]; simpl in *.
    rewrite plain_app, IH by lia. done.
Qed.

(** Highlighting changes no text: whatever the input, JSON or not, the
    output without its colours is the input, code unit for code unit. *)
Theorem colorizeJson_preserves_text (src : Units) :
  plain (colorizeJson src) = src.
Proof. by apply colorize_plain. Qed.

(** ** [addLeftBorder] *)

Lemma split_lines_cons {A : Type} (nl : A → bool) (s : list A) :
  ∃ l ls, split_lines nl s = l :: ls.
Proof.
  induction s as [|c r (l & ls & E)]; simpl; [by eexists _, _|].
  destruct (nl c); [by eexists _, _|]. rewrite E. by eexists _, _.
Qed.

Lemma split_lines_plain (s : Styled) :
  map plain (split_lines styled_nl s) = split_lines is_nl (plain s).
Proof.
  induction s as [|[st c] r IH]; simpl; [done|].
  unfold styled_nl at 1; simpl. destruct (is_nl c); simpl; [by rewrite IH|].
  rewrite <- IH. by destruct (split_lines styled_nl r).
Qed.

Lemma join_lines_plain (sep : Styled) (ls : list Styled) :
  plain (join_lines sep ls) = join_lines (plain sep) (map plain ls).
Proof.
  induction ls as [|l [|l' ls] IH]; simpl in *; [done..|].
  by rewrite !plain_app, IH.
Qed.

(** Splitting at the newlines and joining with a newline gives the string
    back. *)
Lemma join_split (s : Units) :
  join_lines [10%N] (split_lines is_nl s) = s.
Proof.
  induction s as [|c r IH]; [done|]. cbn [split_lines].
  destruct (split_lines_cons is_nl r) as (l & ls & E). rewrite E in *.
  unfold is_nl at 1. destruct (N.eqb_spec c 10) as [->|].
  - change (join_lines [10%N] ([] :: l :: ls))
      with (10%N :: join_lines [10%N] (l :: ls)).
    by rewrite IH.
  - rewrite <- IH. by destruct ls.
Qed.

(** Joining lines that hold no newline and splitting again gives the
    lines back. *)
Lemma split_join (ls : list Units) :
  ls ≠ [] →
  Forall (λ l, Forall (λ c, is_nl c = false) l) ls →
  split_lines is_nl (join_lines [10%N] ls) = ls.
Proof.
  intros NE F. induction ls as [|l ls IH]; [done|].
  inversion F as [|? ? Fl Fls]; subst.
  assert (P : ∀ rest : Units, ∀ tl,
             split_lines is_nl rest = tl →
             split_lines is_nl (l ++ rest)
             = match tl with
               | t :: ts => (l ++ t) :: ts
               | [] => [l]
               end).
  { intros rest tl <-. clear IH F Fls NE. induction l as [|c l IHl]; simpl.
    - by destruct (split_lines_cons is_nl rest) as (t & ts & ->).
    - inversion Fl as [|? ? Fc Fl']; subst. rewrite Fc, (IHl Fl').
      by destruct (split_lines_cons is_nl rest) as (t & ts & ->). }
  destruct ls as [|l' ls].
  - simpl. rewrite <- (app_nil_r l) at 1.
    rewrite (P [] [[]] eq_refl). by rewrite app_nil_r.
  - change (join_lines [10%N] (l :: l' :: ls))
      with (l ++ 10%N :: join_lines [10%N] (l' :: ls)).
    rewrite (P (10%N :: join_lines [10%N] (l' :: ls))
               ([] :: l' :: ls)).
    + by rewrite app_nil_r.
    + cbn [split_lines]. change (is_nl 10) with true. cbv iota.
      by rewrite IH.
Qed.

Lemma border_lines (str border : Styled) :
  Forall (λ c, is_nl c = false) (plain border) →
  split_lines is_nl (plain (addLeftBorder str border))
  = map (λ line, plain border ++ line) (split_lines is_nl (plain str)).
Proof.
  intros B. unfold addLeftBorder.
  rewrite join_lines_plain, plain_text, map_map.
  assert (M : map (λ x, plain (border ++ x)) (split_lines styled_nl str)
              = map (λ line, plain border ++ line)
                  (split_lines is_nl (plain str))).
  { rewrite <- split_lines_plain, map_map. apply map_ext.
    intros l. apply plain_app. }
  rewrite M. apply split_join.
  - by destruct (split_lines_cons is_nl (plain str)) as (l & ls & ->).
  - apply Forall_map, Forall_forall. intros l In.
    apply Forall_app. split; [done|].
    clear M. revert l In. generalize (plain str). intros u.
    induction u as [|c r IH]; intros l; simpl.
    + intros ->%list_elem_of_singleton. constructor.
    + destruct (is_nl c) eqn:C.
      { intros [->|X]%elem_of_cons; [constructor|by apply IH]. }
      destruct (split_lines_cons is_nl r) as (t & ts & E).
      rewrite E in *. intros [->|X]%elem_of_cons.
      { constructor; [done|]. apply IH. by left. }
      apply IH. by right.
Qed.

(** With a border that holds no newline, the lines of the result are the
    lines of the string, each behind the border: as many lines as before,
    none changed otherwise; with the empty border the text is unchanged. *)
Theorem border_on_every_line (str border : Styled) :
  Forall (λ c, is_nl c = false) (plain border) →
  split_lines is_nl (plain (addLeftBorder str border))
  = map (λ line, plain border ++ line) (split_lines is_nl (plain str))
  ∧ (border = [] → plain (addLeftBorder str border) = plain str).
Proof.
  intros B. split; [by apply border_lines|].
  intros ->. unfold addLeftBorder.
  rewrite join_lines_plain, plain_text, map_map. simpl.
  rewrite <- (map_map (λ x, x) plain), map_id, split_lines_plain.
  apply join_split.
Qed.

(** ** More on [colorizeJson] and [hashTopic] *)

Lemma colorize_enough (n m : nat) (s : Units) :
  length s ≤ n → length s ≤ m → colorize n s = colorize m s.
Proof.
  revert m s; induction n as [|n IH]; intros m s Ln Lm.
  - destruct s; [by destruct m|simpl in Ln; lia].
  - destruct s as [|ch r]; [by destruct m|].
    destruct m as [|m]; [simpl in Lm; lia|]. simpl in *.
    destruct (colorize_step_split ch r) as [_ Lr].
    destruct (colorize_step ch r) as [pushed rest]; simpl in *.
    f_equal. apply IH; lia.
Qed.

(** The loop, round by round: the rounds allowed never run out. *)
Lemma colorizeJson_round (ch : N) (r : Units) :
  colorizeJson (ch :: r)
  = (colorize_step ch r).1 ++ colorizeJson (colorize_step ch r).2.
Proof.
  unfold colorizeJson. simpl.
  destruct (colorize_step_split ch r) as [_ Lr].
  destruct (colorize_step ch r) as [pushed rest]; simpl in *.
  f_equal. apply colorize_enough; lia.
Qed.

Lemma scan_string_body (body after : Units) :
  string_body body →
  scan_string (body ++ 34%N :: after) = (body ++ [34%N], after).
Proof.
  induction 1 as [|c b Q B _ IH|d b _ IH]; simpl.
  - done.
  - destruct (N.eqb_spec c 92); [done|]. destruct (N.eqb_spec c 34); [done|].
    by rewrite IH.
  - by rewrite IH.
Qed.

(** A string literal, escapes included, is one token: blue, as a key,
    when a colon follows it after any whitespace, green otherwise; what
    comes after it is highlighted on its own. *)
Theorem string_literal_token (body after : Units) :
  string_body body →
  colorizeJson (34%N :: body ++ 34%N :: after)
  = chalk (if colon_follows after then blue else green)
      (text (34%N :: body ++ [34%N]))
    ++ colorizeJson after.
Proof.
  intros B. rewrite colorizeJson_round. unfold colorize_step.
  change (is_ws 34) with false. change (34 =? 34)%N with true. cbv iota.
  rewrite (scan_string_body body after B). cbn [fst snd].
  unfold colon_follows. destruct (skip_ws after) as [|k ?]; [done|].
  by destruct (k =? 58)%N.
Qed.

Lemma to_int32_add (x c : Z) : to_int32 (to_int32 x + c) = to_int32 (x + c).
Proof.
  unfold to_int32. f_equal.
  rewrite (Z.mod_eq (x + 2147483648) 4294967296) by done.
  replace (x + 2147483648
           - 4294967296 * ((x + 2147483648) / 4294967296)
           - 2147483648 + c + 2147483648)%Z
    with (x + c + 2147483648
          + (- ((x + 2147483648) / 4294967296)) * 4294967296)%Z by lia.
  by rewrite Z_mod_plus_full.
Qed.

Lemma to_int32_mul (k x : Z) : to_int32 (k * to_int32 x) = to_int32 (k * x).
Proof.
  unfold to_int32. f_equal.
  rewrite (Z.mod_eq (x + 2147483648) 4294967296) by done.
  replace (k * (x + 2147483648
                - 4294967296 * ((x + 2147483648) / 4294967296)
                - 2147483648) + 2147483648)%Z
    with (k * x + 2147483648
          + (- k * ((x + 2147483648) / 4294967296)) * 4294967296)%Z by lia.
  by rewrite Z_mod_plus_full.
Qed.

(** The wrap-around in every round loses nothing: the hash is the
    polynomial in 31 of the code units, reduced once to 32 bits. *)
Theorem hash_is_polynomial (topic : Units) :
  hash_loop topic = to_int32 (polynomial topic)
  ∧ hashTopic topic = (Z.abs (to_int32 (polynomial topic)) mod 10)%Z.
Proof.
  assert (G : ∀ h, foldl hash_step (to_int32 h) topic
                   = to_int32 (foldl (λ h c, 31 * h + Z.of_N c)%Z h topic)).
  { induction topic as [|c t IH]; intros h; simpl; [done|].
    rewrite <- IH. f_equal. unfold hash_step, imul.
    by rewrite to_int32_mul, to_int32_add. }
  assert (E : hash_loop topic = to_int32 (polynomial topic)) by apply (G 0%Z).
  split; [done|]. unfold hashTopic. rewrite E. simpl length.
  apply Z.rem_mod_nonneg; [apply Z.abs_nonneg|lia].
Qed.
(** ** Payload and message formatting *)

Section Formatting_properties.
Context `{Runtime}.

(** Colours and modes never change the text of a payload that is not
    JSON, and raw mode never changes any: the payload is printed as it
    was sent.  A JSON payload is printed as the printer renders the parsed
    value, indented in the default mode, on one line in compact mode. *)
Theorem payload_text (payload : Buffer) (o : Opts) :
  plain (formatPayload payload o)
  = match JSON_parse (Buffer_units payload) with
    | Some obj =>
        if raw o then Buffer_units payload
        else if compact o || outputJson o then JSON_stringify obj
        else JSON_stringify_indented obj
    | None => Buffer_units payload
    end.
Proof.
  unfold formatPayload.
  destruct (raw o), (JSON_parse (Buffer_units payload)) as [obj|];
    rewrite ?plain_text; try done.
  destruct (compact o || outputJson o);
    [apply plain_text|by apply colorize_plain].
Qed.

Lemma topicColor_defined (topic : Units) :
  ∃ colour, topicColor topic = Some colour.
Proof.
  unfold topicColor.
  pose proof (hashTopic_range topic) as [L U].
  destruct (Z.ltb_spec (hashTopic topic) 0); [lia|].
  apply lookup_lt_is_Some. change (length TOPIC_COLORS) with 10 in *. lia.
Qed.

Lemma join_lines_head {A} (sep x : list A) (xs : list (list A)) :
  ∃ rest, join_lines sep (x :: xs) = x ++ rest.
Proof.
  destruct xs as [|y ys]; [exists []; simpl; by rewrite app_nil_r|].
  by eexists.
Qed.

Lemma header_starts (colour : Style) (topic : Units) (payload : Buffer)
    (packet : Packet) (o : Opts) :
  ∃ rest,
    plain (header colour topic payload packet o)
    = 9654%N :: 32%N :: topic ++ rest.
Proof.
  unfold header, filter_Boolean.
  set (first := chalk colour (text [9654%N]) ++ text (units_of " ")
                ++ chalk bold (chalk colour (text topic))).
  assert (plain first = 9654%N :: 32%N :: topic) as E
    by (unfold first; by rewrite !plain_app, !plain_chalk, !plain_text).
  assert (∃ line, first = line ∧ line ≠ []) as (line & -> & NE).
  { exists first. split; [done|]. intros Z. by rewrite Z in E. }
  cbn [List.filter]. destruct line as [|x line]; [done|].
  match goal with
  | |- context [join_lines ?sep (?x :: ?xs)] =>
      destruct (join_lines_head sep x xs) as [rest ->]
  end.
  exists (plain rest). by rewrite plain_app, E.
Qed.

(** [formatMessage] never fails: every topic has a colour.  Outside the
    JSON-lines mode the line starts with the marker, a space and the
    topic as it was received. *)
Theorem message_always_formatted (topic : Units) (payload : Buffer)
    (packet : Packet) (o : Opts) :
  ∃ out,
    formatMessage topic payload packet o = Some out
    ∧ (if outputJson o then True
       else ∃ rest, plain out = 9654%N :: 32%N :: topic ++ rest).
Proof.
  unfold formatMessage. destruct (outputJson o); [by eexists|].
  destruct (topicColor_defined topic) as [colour ->]. cbv zeta.
  destruct (header_starts colour topic payload packet o) as [rest E].
  destruct (compact o); eexists; (split; [reflexivity|]);
    rewrite plain_app, E; eexists; cbn [app];
    by rewrite <- (assoc_L (++)).
Qed.

(** In the default mode the message is the header, a newline and the
    payload, each line of the payload behind the border of the topic's
    colour: as many lines as the payload has, none changed otherwise. *)
Theorem body_behind_border (topic : Units) (payload : Buffer)
    (packet : Packet) (o : Opts) :
  outputJson o = false → compact o = false →
  ∃ colour body,
    topicColor topic = Some colour
    ∧ formatMessage topic payload packet o
      = Some (header colour topic payload packet o ++ text [10%N] ++ body)
    ∧ split_lines is_nl (plain body)
      = map (λ line, 9474%N :: 32%N :: line)
          (split_lines is_nl (plain (formatPayload payload o))).
Proof.
  intros J C. unfold formatMessage. rewrite J, C.
  destruct (topicColor_defined topic) as [colour E]. rewrite E. cbv zeta.
  eexists colour, _. split; [done|]. split; [reflexivity|].
  rewrite border_lines; [done|]. by repeat constructor.
Qed.

End Formatting_properties.

(** ** The formatter on a concrete runtime *)

Lemma border_on_every_line_witness :
  let str := text [97%N; 10%N; 98%N] in
  let border := chalk cyan (text [9474%N; 32%N]) in
  split_lines is_nl (plain (addLeftBorder str border))
  = map (λ line, plain border ++ line) (split_lines is_nl (plain str))
  ∧ (border = [] → plain (addLeftBorder str border) = plain str).
Proof.
  apply (border_on_every_line (text [97%N; 10%N; 98%N])
           (chalk cyan (text [9474%N; 32%N]))).
  repeat constructor.
Defined.

Lemma string_literal_token_witness :
  let body := units_of "key" in
  let after := units_of ": 1" in
  colorizeJson (34%N :: body ++ 34%N :: after)
  = chalk (if colon_follows after then blue else green)
      (text (34%N :: body ++ [34%N]))
    ++ colorizeJson after.
Proof.
  apply (string_literal_token (units_of "key") (units_of ": 1")).
  simpl. repeat (apply body_unit; [discriminate|discriminate|]).
  apply body_end.
Defined.

Lemma body_behind_border_witness :
  let topic := units_of "sensors/temp" in
  let payload := String.list_byte_of_string "21.5" in
  let packet := mkPacket 0 false in
  ∃ colour body,
    topicColor topic = Some colour
    ∧ formatMessage (H:=Desk.desk) topic payload packet no_opts
      = Some (header (H:=Desk.desk) colour topic payload packet no_opts
              ++ text [10%N] ++ body)
    ∧ split_lines is_nl (plain body)
      = map (λ line, 9474%N :: 32%N :: line)
          (split_lines is_nl
             (plain (formatPayload (H:=Desk.desk) payload no_opts))).
Proof.
  apply (body_behind_border (H:=Desk.desk) (units_of "sensors/temp")
           (String.list_byte_of_string "21.5") (mkPacket 0 false) no_opts).
  - reflexivity.
  - reflexivity.
Defined.

(** * Properties of the configuration, the command line and the wizard *)

Import Config.

Lemma skip_ws_app (l r : Units) :
  skip_ws (l ++ r) = if forallb is_ws l then skip_ws r else skip_ws l ++ r.
Proof.
  induction l as [|c l IH]; simpl; [done|].
  destruct (is_ws c); simpl; done.
Qed.

Lemma skip_ws_all (l : Units) : forallb is_ws l = true → skip_ws l = [].
Proof.
  induction l as [|c l IH]; simpl; [done|].
  destruct (is_ws c); simpl; [done|discriminate].
Qed.

Lemma skip_ws_head (l : Units) c r : skip_ws l = c :: r → is_ws c = false.
Proof.
  induction l as [|d l IH]; simpl; [done|].
  destruct (is_ws d) eqn:E; [done|]. by intros [= -> ->].
Qed.

Lemma skip_ws_suffix (l : Units) : ∃ p, l = p ++ skip_ws l ∧ forallb is_ws p = true.
Proof.
  induction l as [|d l (p & IH & Hp)]; simpl; [by exists []|].
  destruct (is_ws d) eqn:E.
  - exists (d :: p). simpl. rewrite E, Hp. by rewrite <- IH.
  - by exists [].
Qed.

Lemma skip_ws_fixed (l : Units) c r : l = c :: r → is_ws c = false → skip_ws l = l.
Proof. intros -> E. simpl. by rewrite E. Qed.

Lemma trimEnd_snoc_ws (l : Units) c : is_ws c = true → trimEnd (l ++ [c]) = trimEnd l.
Proof.
  intros E. unfold trimEnd. rewrite reverse_snoc. simpl. by rewrite E.
Qed.

Lemma trim_snoc_ws (l : Units) c : is_ws c = true → trim (l ++ [c]) = trim l.
Proof.
  intros E. unfold trim. rewrite skip_ws_app.
  destruct (forallb is_ws l) eqn:A.
  - simpl. rewrite E. by rewrite (skip_ws_all l A).
  - by apply trimEnd_snoc_ws.
Qed.

Lemma forallb_is_ws_reverse (l : Units) :
  forallb is_ws (reverse l) = forallb is_ws l.
Proof.
  induction l as [|c l IH]; [done|].
  rewrite reverse_cons, forallb_app, IH. simpl. rewrite andb_true_r.
  apply andb_comm.
Qed.

Lemma trimEnd_app (l r : Units) :
  trimEnd (l ++ r) = if forallb is_ws r then trimEnd l else l ++ trimEnd r.
Proof.
  unfold trimEnd. rewrite reverse_app, skip_ws_app, forallb_is_ws_reverse.
  destruct (forallb is_ws r); [done|].
  by rewrite reverse_app, reverse_involutive.
Qed.

Lemma trimEnd_all (l : Units) : forallb is_ws l = true → trimEnd l = [].
Proof.
  intros A. unfold trimEnd. rewrite skip_ws_all; [done|].
  by rewrite forallb_is_ws_reverse.
Qed.

Lemma trimEnd_cons (c : N) (l : Units) :
  is_ws c = false → trimEnd (c :: l) = c :: trimEnd l.
Proof.
  intros E. change (c :: l) with ([c] ++ l). rewrite trimEnd_app.
  destruct (forallb is_ws l) eqn:A; [|done].
  rewrite (trimEnd_all l A). unfold trimEnd. simpl. by rewrite E.
Qed.

Lemma skip_ws_idem (l : Units) : skip_ws (skip_ws l) = skip_ws l.
Proof.
  destruct (skip_ws l) as [|c r] eqn:E; [done|].
  apply (skip_ws_fixed _ c r eq_refl), (skip_ws_head l c r E).
Qed.

Lemma trimEnd_idem (l : Units) : trimEnd (trimEnd l) = trimEnd l.
Proof. unfold trimEnd. by rewrite reverse_involutive, skip_ws_idem. Qed.

Lemma trim_trimmed (w : Units) : trimmed (trim w).
Proof.
  unfold trimmed, trim. split; [|apply trimEnd_idem].
  destruct (skip_ws w) as [|c r] eqn:E; [done|].
  pose proof (skip_ws_head w c r E) as Hc.
  rewrite (trimEnd_cons c r Hc). simpl. by rewrite Hc.
Qed.

Lemma trim_of_trimmed (p m s : Units) :
  forallb is_ws p = true → forallb is_ws s = true → trimmed m →
  trim (p ++ m ++ s) = m.
Proof.
  intros Hp Hs [Hm1 Hm2]. unfold trim.
  rewrite skip_ws_app, Hp, skip_ws_app.
  destruct (forallb is_ws m) eqn:A.
  - rewrite (skip_ws_all s Hs). rewrite <- Hm1. by rewrite (skip_ws_all m A).
  - rewrite Hm1, trimEnd_app, Hs. done.
Qed.

Lemma trim_idem (w : Units) : trim (trim w) = trim w.
Proof.
  pose proof (trim_of_trimmed [] (trim w) [] eq_refl eq_refl (trim_trimmed w))
    as E.
  by rewrite app_nil_l, app_nil_r in E.
Qed.

Lemma trimmed_fixed (m : Units) : trimmed m → trim m = m.
Proof.
  intros Hm.
  pose proof (trim_of_trimmed [] m [] eq_refl eq_refl Hm) as E.
  by rewrite app_nil_l, app_nil_r in E.
Qed.

Lemma trimEnd_prefix (l : Units) :
  ∃ s, l = trimEnd l ++ s ∧ forallb is_ws s = true.
Proof.
  unfold trimEnd.
  destruct (skip_ws_suffix (reverse l)) as (p & E & Hp).
  exists (reverse p). split; [|by rewrite forallb_is_ws_reverse].
  rewrite <- reverse_app, <- E. by rewrite reverse_involutive.
Qed.

Lemma trim_decompose (w : Units) :
  ∃ p s, w = p ++ trim w ++ s
         ∧ forallb is_ws p = true ∧ forallb is_ws s = true.
Proof.
  destruct (skip_ws_suffix w) as (p & E & Hp).
  destruct (trimEnd_prefix (skip_ws w)) as (s & E' & Hs).
  exists p, s. unfold trim. by rewrite <- E', <- E.
Qed.

Lemma trim_Forall (P : N → Prop) (w : Units) : Forall P w → Forall P (trim w).
Proof.
  intros F. destruct (trim_decompose w) as (p & s & E & _).
  rewrite E in F. apply Forall_app in F as [_ F].
  by apply Forall_app in F as [F _].
Qed.

Lemma trim_trimEnd (w : Units) : trim (trimEnd w) = trim w.
Proof.
  destruct (trim_decompose w) as (p & s & E & Hp & Hs).
  pose proof (trim_trimmed w) as T.
  set (m := trim w) in *. rewrite E at 1.
  rewrite trimEnd_app.
  destruct (forallb is_ws (m ++ s)) eqn:A.
  - rewrite (trimEnd_all p Hp).
    rewrite forallb_app in A. apply andb_true_iff in A as [A _].
    destruct T as [T _]. rewrite <- T. by rewrite (skip_ws_all m A).
  - rewrite trimEnd_app, Hs. destruct T as [T1 T2]. rewrite T2.
    pose proof (trim_of_trimmed p m [] Hp eq_refl (conj T1 T2)) as R.
    by rewrite app_nil_r in R.
Qed.

Lemma cut_at_found (sep : N) (k r : Units) :
  Forall (λ c, c ≠ sep) k → cut_at sep (k ++ sep :: r) = Some (k, r).
Proof.
  induction 1 as [|c k Hc _ IH]; simpl.
  - by rewrite N.eqb_refl.
  - apply N.eqb_neq in Hc. by rewrite Hc, IH.
Qed.

Lemma cut_at_split (sep : N) (s k r : Units) :
  cut_at sep s = Some (k, r) →
  s = k ++ sep :: r ∧ Forall (λ c, c ≠ sep) k.
Proof.
  revert k r. induction s as [|c s IH]; intros k r; simpl; [done|].
  destruct (c =? sep)%N eqn:E.
  - apply N.eqb_eq in E as ->. by intros [= <- <-].
  - destruct (cut_at sep s) as [[a b]|]; [|done].
    intros [= <- <-]. destruct (IH a b eq_refl) as [-> F].
    split; [done|]. constructor; [by apply N.eqb_neq|done].
Qed.

Lemma unquote_Forall (P : N → Prop) (v : Units) :
  Forall P v → Forall P (unquote v).
Proof.
  intros F. unfold unquote. destruct v as [|q r]; [done|].
  destruct (_ && _); [|done].
  apply Forall_take. by inversion F.
Qed.

Lemma unquote_plain (v : Units) : wrapped v = false → unquote v = v.
Proof.
  unfold wrapped, unquote, is_quote. destruct v as [|q r]; [done|].
  by intros ->.
Qed.

Lemma unquote_wrapped (q : N) (v : Units) :
  is_quote q = true → unquote (q :: v ++ [q]) = v.
Proof.
  intros Q. unfold unquote. fold (is_quote q). rewrite Q.
  rewrite bool_decide_true.
  - simpl. rewrite length_app. simpl.
    replace (length v + 1 - 1) with (length v) by lia.
    by rewrite take_app_length.
  - change (q :: v ++ [q]) with ((q :: v) ++ [q]). apply last_snoc.
Qed.

Lemma quote_not_ws (q : N) : is_quote q = true → is_ws q = false.
Proof.
  unfold is_quote. intros Q. apply orb_true_iff in Q as [Q|Q];
    apply N.eqb_eq in Q as ->; done.
Qed.

Lemma trimEnd_snoc (l : Units) (c : N) :
  is_ws c = false → trimEnd (l ++ [c]) = l ++ [c].
Proof.
  intros E. rewrite trimEnd_app. simpl. rewrite E. simpl.
  unfold trimEnd. simpl. by rewrite E.
Qed.

Lemma dotenv_line_entry (vars : gmap Units Units) (raw : Units) :
  dotenv_line vars raw
  = match dotenv_entry raw with
    | Some (k, v) => <[k := v]> vars
    | None => vars
    end.
Proof.
  unfold dotenv_line, dotenv_entry, assign.
  destruct (trim raw) as [|c r]; [done|].
  destruct (c =? 35)%N; [done|].
  destruct (cut_at 61 (c :: r)) as [[k v]|]; [|done].
  by destruct (decide (trim k = proto_key)).
Qed.

Lemma dotenv_fold (m : gmap Units Units) (ls : list Units) :
  foldl dotenv_line m ls = foldl dotenv_line ∅ ls ∪ m.
Proof.
  revert m. induction ls as [|l ls IH]; intros m; simpl.
  - by rewrite (left_id_L ∅ (∪)).
  - rewrite (IH (dotenv_line m l)), (IH (dotenv_line ∅ l)).
    rewrite !dotenv_line_entry. destruct (dotenv_entry l) as [[k v]|].
    + rewrite <- (assoc_L (∪)). f_equal.
      by rewrite insert_union_singleton_l, insert_union_singleton_l,
        (right_id_L ∅ (∪)).
    + by rewrite (right_id_L ∅ (∪)).
Qed.

Lemma split_lines_nonempty {A} (nl : A → bool) (s : list A) :
  split_lines nl s ≠ [].
Proof. induction s as [|c s IH]; simpl; [done|]. destruct (nl c); [done|]. by destruct (split_lines nl s). Qed.

Lemma split_lines_app {A} (nl : A → bool) (a b : list A) (c : A) :
  nl c = true →
  split_lines nl (a ++ c :: b) = split_lines nl a ++ split_lines nl b.
Proof.
  intros E. induction a as [|x a IH]; simpl.
  - by rewrite E.
  - destruct (nl x); [by rewrite IH|].
    rewrite IH. pose proof (split_lines_nonempty nl a).
    by destruct (split_lines nl a).
Qed.

Lemma trim_app_ws (l s : Units) :
  forallb is_ws s = true → trim (l ++ s) = trim l.
Proof.
  intros Hs. destruct (trim_decompose l) as (p & s' & E & Hp & Hs').
  rewrite E at 1. rewrite <- !(assoc_L (++)).
  apply trim_of_trimmed; [done| |apply trim_trimmed].
  by rewrite forallb_app, Hs', Hs.
Qed.

Lemma dotenv_entry_trim (a b : Units) :
  trim a = trim b → dotenv_entry a = dotenv_entry b.
Proof. unfold dotenv_entry. by intros ->. Qed.

Lemma dotenv_entry_blank (l : Units) :
  forallb is_ws l = true → dotenv_entry l = None.
Proof.
  intros A. unfold dotenv_entry, trim. by rewrite (skip_ws_all l A).
Qed.

Lemma dotenv_line_trim (m : gmap Units Units) (a b : Units) :
  trim a = trim b → dotenv_line m a = dotenv_line m b.
Proof.
  intros E. by rewrite !dotenv_line_entry, (dotenv_entry_trim a b E).
Qed.

Lemma dotenv_blank_lines (m : gmap Units Units) (ls : list Units) :
  Forall (λ l, forallb is_ws l = true) ls → foldl dotenv_line m ls = m.
Proof.
  intros F. revert m. induction F as [|l ls Hl _ IH]; intros m; simpl; [done|].
  by rewrite dotenv_line_entry, (dotenv_entry_blank l Hl), IH.
Qed.

Lemma split_lines_prefix {A} (nl : A → bool) (l post : list A) :
  Forall (λ c, nl c = false) l →
  split_lines nl (l ++ post)
  = match split_lines nl post with
    | l0 :: ls => (l ++ l0) :: ls
    | [] => [l]
    end.
Proof.
  pose proof (split_lines_nonempty nl post) as N.
  induction 1 as [|c l Hc _ IH]; simpl.
  - by destruct (split_lines nl post).
  - rewrite Hc, IH. by destruct (split_lines nl post).
Qed.

Lemma split_lines_Forall {A} (P : A → Prop) (nl : A → bool) (s : list A) :
  Forall P s → Forall (Forall P) (split_lines nl s).
Proof.
  induction 1 as [|c s Hc _ IH]; simpl; [by repeat constructor|].
  destruct (nl c); [by constructor|].
  destruct (split_lines nl s) as [|l ls]; [by repeat constructor|].
  inversion IH; subst. constructor; [by constructor|done].
Qed.

Lemma split_lines_no_nl {A} (nl : A → bool) (s : list A) :
  Forall (Forall (λ c, nl c = false)) (split_lines nl s).
Proof.
  induction s as [|c s IH]; simpl; [by repeat constructor|].
  destruct (nl c) eqn:E; [by constructor|].
  destruct (split_lines nl s) as [|l ls]; [by repeat constructor|].
  inversion IH; subst. constructor; [by constructor|done].
Qed.

Lemma forallb_Forall {A} (f : A → bool) (l : list A) :
  forallb f l = true ↔ Forall (λ c, f c = true) l.
Proof.
  induction l as [|c l IH]; simpl; [done|].
  rewrite andb_true_iff, IH. split.
  - by intros [??]; constructor.
  - by inversion 1.
Qed.

Lemma all_ws_lines (post : Units) :
  forallb is_ws post = true →
  Forall (λ l, forallb is_ws l = true) (split_lines is_nl post).
Proof.
  intros A%forallb_Forall.
  apply (split_lines_Forall _ is_nl) in A.
  eapply Forall_impl; [exact A|]. intros l Hl. by apply forallb_Forall.
Qed.

Lemma ends_line_cases (pre : Units) :
  ends_line pre = true → pre = [] ∨ ∃ p, pre = p ++ [10%N].
Proof.
  unfold ends_line. destruct pre as [|c pre _] using rev_ind; [by left|].
  rewrite last_snoc. unfold is_nl. intros E%N.eqb_eq. subst c.
  right. by exists pre.
Qed.

(** The last line of a file decides, whatever comes before. *)
Lemma last_line_lookup (pre l post k v : Units) :
  ends_line pre = true → forallb is_ws post = true →
  Forall (λ c, is_nl c = false) l →
  dotenv_entry l = Some (k, v) →
  readDotEnv (Some (pre ++ l ++ post)) !! k = Some v.
Proof.
  intros Hpre Hpost Hl He.
  assert (foldl dotenv_line ∅ (split_lines is_nl (l ++ post)) !! k = Some v)
    as Hlast.
  { rewrite (split_lines_prefix is_nl l post Hl).
    pose proof (all_ws_lines post Hpost) as F.
    pose proof (split_lines_nonempty is_nl post) as N.
    destruct (split_lines is_nl post) as [|l0 ls]; [done|].
    inversion F as [|? ? H0 Hls]; subst. simpl.
    rewrite (dotenv_blank_lines _ ls Hls).
    rewrite (dotenv_line_trim _ (l ++ l0) l (trim_app_ws l l0 H0)).
    rewrite dotenv_line_entry, He. apply lookup_insert_eq. }
  simpl. destruct (ends_line_cases pre Hpre) as [->|[p ->]]; [done|].
  rewrite <- (assoc_L (++)). simpl.
  rewrite (split_lines_app is_nl p (l ++ post) 10%N eq_refl), foldl_app.
  rewrite dotenv_fold. by apply lookup_union_Some_l.
Qed.

Lemma clean_key_head (k : Units) (c : N) (r : Units) :
  trim k = k → k = c :: r → is_ws c = false.
Proof.
  intros E ->. pose proof (trim_trimmed (c :: r)) as [T _].
  rewrite E in T. by apply (skip_ws_head (c :: r) c r).
Qed.

Lemma setting_entry (k w : Units) :
  clean_key k → dotenv_entry (k ++ 61%N :: w) = Some (k, unquote (trim w)).
Proof.
  intros (Hproto & Hk & Htrim & Hhead).
  assert (trim (k ++ 61%N :: w) = k ++ 61%N :: trimEnd w) as T.
  { unfold trim.
    assert (skip_ws (k ++ 61%N :: w) = k ++ 61%N :: w) as ->.
    { destruct k as [|c r]; [done|].
      simpl. by rewrite (clean_key_head (c :: r) c r Htrim eq_refl). }
    rewrite trimEnd_app. simpl. by rewrite (trimEnd_cons 61%N w eq_refl). }
  unfold dotenv_entry. rewrite T.
  assert (cut_at 61 (k ++ 61%N :: trimEnd w) = Some (k, trimEnd w)) as C.
  { apply cut_at_found. eapply Forall_impl; [exact Hk|]. by intros c [? _]. }
  destruct k as [|c r].
  - simpl. by rewrite Htrim, trim_trimEnd.
  - change ((c :: r) ++ 61%N :: trimEnd w)
      with (c :: (r ++ 61%N :: trimEnd w)) in *.
    cbv beta iota.
    destruct (c =? 35)%N eqn:E.
    { apply N.eqb_eq in E as ->. by destruct Hhead. }
    rewrite C, Htrim, decide_False by done. by rewrite trim_trimEnd.
Qed.

Lemma setting_no_nl (k w : Units) :
  clean_key k → Forall (λ c, c ≠ 10%N) w →
  Forall (λ c, is_nl c = false) (k ++ 61%N :: w).
Proof.
  intros (_ & Hk & _) Hw. apply Forall_app. split.
  - eapply Forall_impl; [exact Hk|]. intros c [_ ?]. by apply N.eqb_neq.
  - constructor; [done|].
    eapply Forall_impl; [exact Hw|]. intros c ?. by apply N.eqb_neq.
Qed.

Lemma entry_clean (raw k v : Units) :
  Forall (λ c, c ≠ 10%N) raw → dotenv_entry raw = Some (k, v) →
  clean_key k ∧ Forall (λ c, c ≠ 10%N) v.
Proof.
  intros Hraw. unfold dotenv_entry.
  pose proof (trim_trimmed raw) as [T _].
  pose proof (trim_Forall _ raw Hraw) as F.
  destruct (trim raw) as [|c r] eqn:E; [done|].
  destruct (c =? 35)%N eqn:E35; [done|].
  destruct (cut_at 61 (c :: r)) as [[k' v']|] eqn:C; [|done].
  destruct (decide (trim k' = proto_key)) as [|Hp]; [done|].
  intros [= <- <-].
  apply cut_at_split in C as [C F61]. rewrite C in F.
  apply Forall_app in F as [Fk Fv]. inversion Fv as [|? ? _ Fv']; subst.
  split; [|by apply unquote_Forall, trim_Forall].
  split; [done|]. split.
  { apply trim_Forall, Forall_forall. intros x Hx. split.
    - by apply (proj1 (Forall_forall _ _) F61).
    - by apply (proj1 (Forall_forall _ _) Fk). }
  split; [apply trim_idem|].
  destruct k' as [|c' k'']; [done|].
  injection C as <- _.
  pose proof (skip_ws_head (c :: r) c r T) as W.
  unfold trim. simpl. rewrite W, (trimEnd_cons c k'' W). simpl.
  intros [= ->]. done.
Qed.

Lemma crlf_lines (content : Units) :
  Forall2 (λ a b, trim a = trim b)
    (split_lines is_nl (crlf content)) (split_lines is_nl content).
Proof.
  assert (Forall2 (λ a b, a = b ∨ a = b ++ [13%N])
            (split_lines is_nl (crlf content)) (split_lines is_nl content))
    as R.
  { induction content as [|c s IH]; [by repeat constructor|].
    unfold crlf. cbn [flat_map]. fold (crlf s).
    destruct (is_nl c) eqn:E.
    - apply N.eqb_eq in E as ->.
      change ([13%N; 10%N] ++ crlf s) with ([13%N] ++ 10%N :: crlf s).
      rewrite (split_lines_app is_nl [13%N] (crlf s) 10%N eq_refl).
      simpl. constructor; [by right|done].
    - simpl. rewrite E.
      pose proof (split_lines_nonempty is_nl s) as N.
      destruct IH as [|a b la lb Hab IH]; [done|].
      constructor; [|done]. destruct Hab as [->| ->]; [by left|by right]. }
  eapply Forall2_impl; [exact R|].
  intros a b [->| ->]; [done|]. by apply trim_snoc_ws.
Qed.

Lemma dotenv_fold_trim (m : gmap Units Units) (la lb : list Units) :
  Forall2 (λ a b, trim a = trim b) la lb →
  foldl dotenv_line m la = foldl dotenv_line m lb.
Proof.
  intros F. revert m. induction F as [|a b la lb Hab _ IH]; intros m; [done|].
  simpl. by rewrite (dotenv_line_trim m a b Hab), IH.
Qed.

Lemma dotenv_fold_clean (m : gmap Units Units) (ls : list Units) :
  (∀ k v, m !! k = Some v → clean_key k ∧ Forall (λ c, c ≠ 10%N) v) →
  Forall (Forall (λ c, is_nl c = false)) ls →
  ∀ k v, foldl dotenv_line m ls !! k = Some v →
         clean_key k ∧ Forall (λ c, c ≠ 10%N) v.
Proof.
  intros Hm F. revert m Hm.
  induction F as [|l ls Hl _ IH]; intros m Hm; [done|].
  simpl. apply IH. intros k v. rewrite dotenv_line_entry.
  destruct (dotenv_entry l) as [[k' v']|] eqn:E; [|by apply Hm].
  intros [[<- <-]|[_ L]]%lookup_insert_Some; [|by apply Hm].
  apply (entry_clean l); [|done].
  eapply Forall_impl; [exact Hl|]. intros c. by apply N.eqb_neq.
Qed.

(** ** Reading [.env] *)

(** What is written further down in [.env] wins: reading a file is
    reading what is after a newline over reading what is before it. *)
Theorem dotenv_later_lines_win (a b : Units) :
  readDotEnv (Some (a ++ 10%N :: b))
  = readDotEnv (Some b) ∪ readDotEnv (Some a).
Proof.
  simpl. rewrite (split_lines_app is_nl a b 10%N eq_refl), foldl_app.
  apply dotenv_fold.
Qed.

(** A [.env] file with Windows line ends reads as the same file with
    Unix line ends. *)
Theorem dotenv_crlf (content : Units) :
  readDotEnv (Some (crlf content)) = readDotEnv (Some content).
Proof. simpl. apply dotenv_fold_trim, crlf_lines. Qed.

(** Every key read from [.env] is trimmed, has no [=] and no newline in
    it, does not start with [#] and is not [__proto__]; no value has a
    newline in it. *)
Theorem dotenv_keys_clean (file : option Units) (k v : Units) :
  readDotEnv file !! k = Some v → clean_key k ∧ Forall (λ c, c ≠ 10%N) v.
Proof.
  destruct file as [content|]; simpl; [|by rewrite lookup_empty].
  apply dotenv_fold_clean; [by setoid_rewrite lookup_empty|].
  apply split_lines_no_nl.
Qed.

(** A value between two quotes of the same kind on the last line comes
    back as it is, spaces at its ends included, when it has no newline. *)
Theorem quoted_value_read_back (pre post k v : Units) (q : N) :
  ends_line pre = true → forallb is_ws post = true → clean_key k →
  is_quote q = true → Forall (λ c, c ≠ 10%N) v →
  readDotEnv (Some (pre ++ (k ++ 61%N :: q :: v ++ [q]) ++ post)) !! k
  = Some v.
Proof.
  intros Hpre Hpost Hk Hq Hv.
  pose proof (quote_not_ws q Hq) as W.
  apply last_line_lookup; [done|done| |].
  - apply setting_no_nl; [done|].
    constructor; [by intros ->|].
    apply Forall_app. split; [done|]. constructor; [by intros ->|done].
  - rewrite (setting_entry k _ Hk). do 2 f_equal.
    rewrite trimmed_fixed; [by apply unquote_wrapped|].
    split; [simpl; by rewrite W|].
    change (q :: v ++ [q]) with ((q :: v) ++ [q]). by apply trimEnd_snoc.
Qed.

(** A value without quotes on the last line comes back as it is when it
    has no newline, no space at either end and is not between two quotes
    of the same kind. *)
Theorem plain_value_read_back (pre post k v : Units) :
  ends_line pre = true → forallb is_ws post = true → clean_key k →
  plain_value v →
  readDotEnv (Some (pre ++ (k ++ 61%N :: v) ++ post)) !! k = Some v.
Proof.
  intros Hpre Hpost Hk (Hv & Ht & Hw).
  apply last_line_lookup; [done|done|by apply setting_no_nl|].
  by rewrite (setting_entry k _ Hk), Ht, (unquote_plain v Hw).
Qed.


(** ** Environment and precedence *)

Section Loading_properties.
Context `{Host}.

Lemma env_fold_other (pick : Units → option Units)
    (l : list (Units * Units)) (m : gmap Units Units) (ck : Units) :
  ck ∉ l.*2 →
  foldl (λ config '(envKey, configKey),
           match pick envKey with
           | Some val => <[configKey := val]> config
           | None => config
           end) m l !! ck = m !! ck.
Proof.
  revert m. induction l as [|[ek' ck'] l IH]; intros m Hn; [done|].
  simpl in *. apply not_elem_of_cons in Hn as [Hne Hn].
  rewrite (IH _ Hn). destruct (pick ek'); [|done].
  by rewrite lookup_insert_ne.
Qed.

Lemma env_fold_lookup (pick : Units → option Units)
    (l : list (Units * Units)) (m : gmap Units Units) (ek ck : Units) :
  NoDup (l.*2) → (ek, ck) ∈ l →
  foldl (λ config '(envKey, configKey),
           match pick envKey with
           | Some val => <[configKey := val]> config
           | None => config
           end) m l !! ck
  = match pick ek with Some v => Some v | None => m !! ck end.
Proof.
  revert m. induction l as [|[ek' ck'] l IH]; intros m Hd Hin.
  { by apply elem_of_nil in Hin. }
  simpl in *. apply NoDup_cons in Hd as [Hn Hd].
  apply elem_of_cons in Hin as [[= <- <-]|Hin].
  - rewrite (env_fold_other pick l _ ck Hn).
    destruct (pick ek); [by rewrite lookup_insert_eq|done].
  - rewrite (IH _ Hd Hin). destruct (pick ek); [done|].
    assert (ck' ≠ ck) as Hne.
    { intros ->. apply Hn. apply list_elem_of_fmap. by exists (ek, ck). }
    destruct (pick ek'); [by rewrite lookup_insert_ne|done].
Qed.

Lemma ENV_MAP_NoDup : NoDup (ENV_MAP.*2).
Proof. apply (bool_decide_unpack _). by vm_compute. Qed.

Lemma ENV_MAP_not_proto (ek ck : Units) : (ek, ck) ∈ ENV_MAP → ck ≠ proto_key.
Proof.
  intros Hin ->.
  assert (proto_key ∉ ENV_MAP.*2) as Hn
    by (apply (bool_decide_unpack _); by vm_compute).
  apply Hn. by apply (list_elem_of_fmap_2' snd _ (ek, proto_key)).
Qed.

Lemma env_strings_lookup (dotEnv : gmap Units Units) (ek ck : Units) :
  (ek, ck) ∈ ENV_MAP → env_strings dotEnv !! ck = env_value dotEnv ek.
Proof.
  intros Hin. unfold env_strings.
  rewrite (env_fold_lookup (env_value dotEnv) ENV_MAP ∅ ek ck ENV_MAP_NoDup Hin).
  by destruct (env_value dotEnv ek).
Qed.

Lemma env_strings_other (dotEnv : gmap Units Units) (ck : Units) :
  ck ∉ ENV_MAP.*2 → env_strings dotEnv !! ck = None.
Proof.
  intros Hn. unfold env_strings.
  by rewrite (env_fold_other (env_value dotEnv) ENV_MAP ∅ ck Hn).
Qed.

Lemma readEnvVars_lookup (dotEnv : gmap Units Units) (ck : Units) :
  readEnvVars dotEnv !! ck = typed ck <$> env_strings dotEnv !! ck.
Proof.
  assert (units_of "tls" ≠ units_of "port") as Htp by (by vm_compute).
  unfold readEnvVars, typed. cbv zeta.
  generalize (env_strings dotEnv). intros strs.
  destruct (decide (ck = units_of "port")) as [->|Hp];
    [|destruct (decide (ck = units_of "tls")) as [->|Ht]];
    destruct (strs !! units_of "port") as [p|] eqn:P,
      (strs !! units_of "tls") as [t|] eqn:T;
    repeat first
      [ rewrite lookup_insert_eq
      | rewrite lookup_insert_ne by (done || by apply not_eq_sym)
      | rewrite lookup_fmap
      | rewrite P
      | rewrite T ];
    done.
Qed.

(** For each of the nine variables of [ENV_MAP], the environment of the
    process is asked first and the [.env] file only when the variable is
    not set there: a variable set to the empty string still hides the
    file.  The port becomes a number, TLS is on for [true] and [1] only. *)
Theorem environment_over_dotenv (dotEnv : gmap Units Units)
    (envKey configKey : Units) :
  (envKey, configKey) ∈ ENV_MAP →
  readEnvVars dotEnv !! configKey
  = typed configKey <$> match process_env !! envKey with
                        | Some v => Some v
                        | None => dotEnv !! envKey
                        end.
Proof.
  intros Hin.
  by rewrite readEnvVars_lookup, (env_strings_lookup dotEnv _ _ Hin).
Qed.

(** The environment sets nothing but the nine keys of [ENV_MAP]. *)
Theorem environment_keys_only (dotEnv : gmap Units Units) (key : Units)
    (v : Value) :
  readEnvVars dotEnv !! key = Some v → key ∈ ENV_MAP.*2.
Proof.
  rewrite readEnvVars_lookup. intros E.
  destruct (decide (key ∈ ENV_MAP.*2)) as [|Hn]; [done|].
  by rewrite (env_strings_other dotEnv key Hn) in E.
Qed.

End Loading_properties.

Import Cli.

Section Merging_properties.
Context `{Host}.

Lemma overlay_other (merged : gmap Units Value) (e : Entry) (k : Units) :
  e_key e ≠ k → overlay merged e !! k = merged !! k.
Proof.
  intros Hne. unfold overlay, assign.
  destruct (e_value e); [|done].
  destruct (bool_decide _); [done|].
  destruct (decide _); [done|]. by rewrite lookup_insert_ne.
Qed.

Lemma explicit_cons_other (e : Entry) (l : list Entry) (k : Units) :
  e_key e ≠ k → explicit (e :: l) k = explicit l k.
Proof.
  intros Hne. unfold explicit. cbn [list_find].
  rewrite decide_False by done.
  by destruct (list_find (λ e0, e_key e0 = k) l) as [[i x]|].
Qed.

Lemma explicit_absent (l : list Entry) (k : Units) :
  k ∉ e_key <$> l → explicit l k = None.
Proof.
  intros Hn. unfold explicit.
  destruct (list_find (λ e, e_key e = k) l) as [[i x]|] eqn:F; [|done].
  apply list_find_Some in F as (Hi & Hx & _).
  destruct Hn. apply list_elem_of_fmap. exists x. split; [done|].
  by apply list_elem_of_lookup_2 in Hi.
Qed.

Lemma overlay_lookup (base : gmap Units Value) (cliOpts : list Entry)
    (k : Units) :
  NoDup (e_key <$> cliOpts) → k ≠ proto_key →
  foldl overlay base cliOpts !! k
  = match explicit cliOpts k with
    | Some f => Some (of_flag f)
    | None => base !! k
    end.
Proof.
  intros Hd Hk. revert base.
  induction cliOpts as [|e l IH]; intros base; [done|].
  simpl in Hd. apply NoDup_cons in Hd as [Hn Hd]. simpl.
  rewrite (IH Hd). destruct (decide (e_key e = k)) as [E|E].
  - subst k. rewrite (explicit_absent l _ Hn).
    unfold explicit, overlay, assign. cbn [list_find].
    rewrite decide_True by done. simpl.
    destruct (bool_decide (e_source e = Some "default")).
    + by destruct (e_value e).
    + destruct (e_value e); [|done].
      by rewrite decide_False, lookup_insert_eq by done.
  - by rewrite (explicit_cons_other e l k E), (overlay_other base e k E).
Qed.

(** An option given on the command line itself is what [connect] gets;
    for every other key it gets what the configuration holds.  A value
    that is only the default of an option never replaces anything. *)
Theorem cli_over_configuration (configFile : option Units)
    (cliOpts : list Entry) (key : Units) :
  NoDup (e_key <$> cliOpts) → key ≠ proto_key →
  merge configFile cliOpts !! key
  = match explicit cliOpts key with
    | Some f => Some (of_flag f)
    | None => loadConfig configFile !! key
    end.
Proof. intros Hd Hk. by apply overlay_lookup. Qed.

(** When every value on the command line is a default or missing, the
    merged options are the loaded configuration. *)
Theorem defaults_never_override (configFile : option Units)
    (cliOpts : list Entry) :
  Forall (λ e, e_value e = None ∨ e_source e = Some "default") cliOpts →
  merge configFile cliOpts = loadConfig configFile.
Proof.
  unfold merge. generalize (loadConfig configFile). intros base F.
  revert base. induction F as [|e l He _ IH]; intros base; [done|].
  simpl. rewrite IH. unfold overlay.
  destruct He as [->| ->]; [done|]. by destruct (e_value e).
Qed.

(** The order of the sources for a key of [ENV_MAP]: the command line,
    then the environment of the process, then [.env], then the
    configuration file. *)
Theorem priority_chain (configFile : option Units) (cliOpts : list Entry)
    (envKey configKey : Units) :
  NoDup (e_key <$> cliOpts) → (envKey, configKey) ∈ ENV_MAP →
  merge configFile cliOpts !! configKey
  = match explicit cliOpts configKey with
    | Some f => Some (of_flag f)
    | None =>
    match process_env !! envKey with
    | Some s => Some (typed configKey s)
    | None =>
    match readDotEnv (readFile_utf8 (cwd_file (units_of ".env"))) !! envKey with
    | Some s => Some (typed configKey s)
    | None =>
        from_option own_properties ∅ (readConfigFile configFile) !! configKey
    end end end.
Proof.
  intros Hd Hin. unfold merge.
  rewrite (overlay_lookup _ _ _ Hd (ENV_MAP_not_proto _ _ Hin)).
  destruct (explicit cliOpts configKey); [done|].
  unfold loadConfig. cbv zeta.
  rewrite lookup_union, readEnvVars_lookup, (env_strings_lookup _ _ _ Hin).
  unfold env_value.
  destruct (process_env !! envKey); simpl; [by rewrite union_Some_l|].
  destruct (readDotEnv _ !! envKey); simpl; [by rewrite union_Some_l|].
  by rewrite (left_id_L None _).
Qed.

(** A key outside [ENV_MAP], such as [qos], [count] or [filter], comes
    from the command line or else from the configuration file; neither
    the environment nor [.env] can set it. *)
Theorem file_only_keys (configFile : option Units) (cliOpts : list Entry)
    (key : Units) :
  NoDup (e_key <$> cliOpts) → key ≠ proto_key → key ∉ ENV_MAP.*2 →
  merge configFile cliOpts !! key
  = match explicit cliOpts key with
    | Some f => Some (of_flag f)
    | None =>
        from_option own_properties ∅ (readConfigFile configFile) !! key
    end.
Proof.
  intros Hd Hk Hn. unfold merge. rewrite (overlay_lookup _ _ _ Hd Hk).
  destruct (explicit cliOpts key); [done|].
  unfold loadConfig. cbv zeta.
  rewrite lookup_union, readEnvVars_lookup, (env_strings_other _ _ Hn).
  by rewrite (left_id_L None _).
Qed.

End Merging_properties.

(** ** Saving and reading back *)

Import Setup.













Section Saved.
Context `{Platform}.








End Saved.

(** ** The loader on a concrete host *)

Lemma dotenv_keys_clean_witness :
  clean_key (units_of "MQTT_HOST")
  ∧ Forall (λ c, c ≠ 10%N) (units_of "broker.local").
Proof.
  apply (dotenv_keys_clean
           (Some (units_of "# broker" ++ [10%N]
                  ++ units_of "  MQTT_HOST = broker.local  "))).
  vm_compute. reflexivity.
Defined.

Lemma quoted_value_read_back_witness :
  let pre := units_of "# credentials" ++ [10%N] in
  let k := units_of "MQTT_PASSWORD" in
  let v := units_of " my secret " in
  readDotEnv (Some (pre ++ (k ++ 61%N :: 39%N :: v ++ [39%N]) ++ [10%N])) !! k
  = Some v.
Proof.
  apply (quoted_value_read_back (units_of "# credentials" ++ [10%N]) [10%N]
           (units_of "MQTT_PASSWORD") (units_of " my secret ") 39%N).
  - reflexivity.
  - reflexivity.
  - apply (bool_decide_unpack _). vm_compute. exact I.
  - reflexivity.
  - apply (bool_decide_unpack _). vm_compute. exact I.
Defined.

Lemma plain_value_read_back_witness :
  let pre := units_of "MQTT_PASSWORD=old" ++ [10%N] in
  let k := units_of "MQTT_PASSWORD" in
  let v := units_of "mqtt_user!=x" in
  readDotEnv (Some (pre ++ (k ++ 61%N :: v) ++ [13%N; 10%N])) !! k = Some v.
Proof.
  apply (plain_value_read_back (units_of "MQTT_PASSWORD=old" ++ [10%N])
           [13%N; 10%N] (units_of "MQTT_PASSWORD") (units_of "mqtt_user!=x")).
  - reflexivity.
  - reflexivity.
  - apply (bool_decide_unpack _). vm_compute. exact I.
  - apply (bool_decide_unpack _). vm_compute. exact I.
Defined.

Lemma environment_over_dotenv_witness :
  let dotEnv := {[ units_of "MQTT_TLS" := units_of "true";
                   units_of "MQTT_HOST" := units_of "from-dotenv" ]} in
  readEnvVars (H:=Desk.lab) dotEnv !! units_of "tls"
  = typed (H:=Desk.lab) (units_of "tls")
    <$> match process_env (Host:=Desk.lab) !! units_of "MQTT_TLS" with
        | Some v => Some v
        | None => dotEnv !! units_of "MQTT_TLS"
        end.
Proof.
  apply (environment_over_dotenv (H:=Desk.lab)
           {[ units_of "MQTT_TLS" := units_of "true";
              units_of "MQTT_HOST" := units_of "from-dotenv" ]}
           (units_of "MQTT_TLS") (units_of "tls")).
  apply (bool_decide_unpack _). vm_compute. exact I.
Defined.

Lemma environment_keys_only_witness : units_of "tls" ∈ ENV_MAP.*2.
Proof.
  apply (environment_keys_only (H:=Desk.lab) ∅ (units_of "tls")
           (Desk.LBoolean true)).
  vm_compute. reflexivity.
Defined.

Lemma cli_over_configuration_witness :
  merge (H:=Desk.lab) None Desk.given !! units_of "host"
  = match explicit Desk.given (units_of "host") with
    | Some f => Some (of_flag (H:=Desk.lab) f)
    | None => loadConfig (H:=Desk.lab) None !! units_of "host"
    end.
Proof.
  apply (cli_over_configuration (H:=Desk.lab) None Desk.given
           (units_of "host")).
  - apply (bool_decide_unpack _). vm_compute. exact I.
  - vm_compute. discriminate.
Defined.

Lemma priority_chain_witness :
  merge (H:=Desk.lab) None Desk.given !! units_of "port"
  = match explicit Desk.given (units_of "port") with
    | Some f => Some (of_flag (H:=Desk.lab) f)
    | None =>
    match process_env (Host:=Desk.lab) !! units_of "MQTT_PORT" with
    | Some s => Some (typed (H:=Desk.lab) (units_of "port") s)
    | None =>
    match readDotEnv
            (readFile_utf8 (Host:=Desk.lab)
               (cwd_file (Host:=Desk.lab) (units_of ".env")))
          !! units_of "MQTT_PORT" with
    | Some s => Some (typed (H:=Desk.lab) (units_of "port") s)
    | None =>
        from_option (own_properties (Host:=Desk.lab)) ∅
          (readConfigFile (H:=Desk.lab) None) !! units_of "port"
    end end end.
Proof.
  apply (priority_chain (H:=Desk.lab) None Desk.given
           (units_of "MQTT_PORT") (units_of "port")).
  - apply (bool_decide_unpack _). vm_compute. exact I.
  - apply (bool_decide_unpack _). vm_compute. exact I.
Defined.

Lemma file_only_keys_witness :
  merge (H:=Desk.lab) None Desk.given !! units_of "qos"
  = match explicit Desk.given (units_of "qos") with
    | Some f => Some (of_flag (H:=Desk.lab) f)
    | None =>
        from_option (own_properties (Host:=Desk.lab)) ∅
          (readConfigFile (H:=Desk.lab) None) !! units_of "qos"
    end.
Proof.
  apply (file_only_keys (H:=Desk.lab) None Desk.given (units_of "qos")).
  - apply (bool_decide_unpack _). vm_compute. exact I.
  - vm_compute. discriminate.
  - apply (bool_decide_unpack _). vm_compute. exact I.
Defined.


Lemma defaults_never_override_witness :
  merge (H:=Desk.lab) None
    [mkEntry (units_of "port") (Some (FString (units_of "1883")))
       (Some "default");
     mkEntry (units_of "username") None None]
  = loadConfig (H:=Desk.lab) None.
Proof.
  apply (defaults_never_override (H:=Desk.lab) None).
  constructor; [by right|]. constructor; [by left|]. constructor.
Defined.
